(** * yoctochat, io_uring variant ([yc_uring.c]): the completion dispatcher

    A shallow embedding of the request records, the connection table and
    the completion loop of [yc_uring.c], with the properties of the
    dispatcher stated and proved over it.

    Modelling conventions.
    - [int] values are [Z]; the values that occur (descriptors, byte
      counts, negated errno values) are far from the 32-bit limits and no
      arithmetic is performed on them, so no wrap-around is written out.
    - The C heap is a finite map from block identifiers to objects.  As in
      CompCert's memory model a block identifier is never handed out
      twice, so an identifier names one allocation for ever; [malloc] is
      assumed to succeed.
    - [char] cells are [option byte]: [None] is a cell whose content is
      indeterminate (fresh from [malloc]).
    - Behaviour that C leaves undefined (indexing [conns] outside its
      bounds, [memcpy] past the end of a buffer, following a pointer to a
      released block) stops the execution with a [fault].
    - The kernel side of the ring is part of the state: the list of
      operations handed over by [io_uring_submit], and those among them
      that have not completed yet. *)

From stdpp Require Import gmap list sorting.
From Stdlib Require Import ZArith.
From Stdlib.Strings Require Import Byte.

Local Open Scope Z_scope.

(** ** Constants *)

Definition NUM_CONNS : Z := 128.
Definition QUEUE_DEPTH : Z := 256.

(** [sizeof(req->ycr_iobuf)] *)
Definition IOBUF_SIZE : Z := 1024.

(** ** Request records *)

Inductive ycr_kind_t :=
  | YCR_KIND_ACCEPT
  | YCR_KIND_READ
  | YCR_KIND_WRITE
  | YCR_KIND_CLOSE.

#[global] Instance ycr_kind_eq_dec : EqDecision ycr_kind_t.
Proof. solve_decision. Defined.

(** Block identifiers (the values of the C pointers to request records). *)
Abbreviation ptr := nat (only parsing).

Record yc_request_t := mk_req {
  ycr_event : ycr_kind_t;
  ycr_fd : Z
}.

(** [iov_base] always points at the [ycr_iobuf] member of some io request;
    it is represented by the block of that request. *)
Record iovec := mk_iovec {
  iov_base : ptr;
  iov_len : Z
}.

Definition cell := option byte.

Record yc_io_request_t := mk_io_req {
  ycr_req : yc_request_t;
  ycr_iovec : iovec;
  ycr_iobuf : list cell
}.

Record sockaddr_in := mk_sockaddr_in {
  sin_addr : Z;
  sin_port : Z
}.

Record yc_accept_request_t := mk_accept_req {
  ycr_areq : yc_request_t;
  ycr_addr : option sockaddr_in;
  ycr_addrlen : Z
}.

(** What a heap block holds: one of the three request structures. *)
Inductive object :=
  | ObjReq (r : yc_request_t)
  | ObjIo (r : yc_io_request_t)
  | ObjAccept (r : yc_accept_request_t).

(** The cast [(yc_request_t * ) p]: every request starts with the header. *)
Definition header (o : object) : yc_request_t :=
  match o with
  | ObjReq r => r
  | ObjIo r => ycr_req r
  | ObjAccept r => ycr_areq r
  end.

(** ** The ring *)

(** A prepared submission queue entry. *)
Inductive io_uring_sqe :=
  | prep_accept (fd : Z) (addr : ptr)
  | prep_readv (fd : Z) (iovecs : ptr)
  | prep_writev (fd : Z) (iovecs : ptr)
  | prep_close (fd : Z).

(** An entry together with the value given to [io_uring_sqe_set_data]. *)
Record submission := mk_submission {
  sqe : io_uring_sqe;
  sqe_data : ptr
}.

#[global] Instance io_uring_sqe_eq_dec : EqDecision io_uring_sqe.
Proof. solve_decision. Defined.
#[global] Instance submission_eq_dec : EqDecision submission.
Proof. solve_decision. Defined.

Record io_uring_cqe := mk_cqe {
  user_data : ptr;
  res : Z
}.

(** ** Console *)

Inductive output :=
  | stderr_accept (err : Z)
  | stdout_connect (fd : Z) (peer : option sockaddr_in)
  | stderr_readv (fd : Z) (err : Z)
  | stdout_closed (fd : Z)
  | stdout_read (fd : Z) (text : list cell)
  | stderr_writev (fd : Z) (err : Z).

(** ** Machine state *)

Record state := mk_state {
  conns : list Z;
  heap : gmap nat object;
  nextblock : ptr;
  ring_sq : list submission;
  ring_pending : list submission;
  console : list output
}.

Inductive fault :=
  | OutOfBounds (i : Z)
  | BufferOverflow (n : Z)
  | Dangling (p : ptr)
  | BadCast (p : ptr)
  | NotPending (p : ptr)
  | BadCompletion (p : ptr).

Inductive outcome (A : Type) :=
  | Ok (a : A)
  | Fault (f : fault).
Arguments Ok {A} a.
Arguments Fault {A} f.

(** Computations over the machine state that may fault. *)
Definition M (A : Type) : Type := state → outcome (A * state).

#[global] Instance M_ret : MRet M := λ A a s, Ok (a, s).
#[global] Instance M_bind : MBind M := λ A B f m s,
  match m s with
  | Ok (a, s') => f a s'
  | Fault e => Fault e
  end.

Definition fail {A} (e : fault) : M A := λ _, Fault e.
Definition get_state : M state := λ s, Ok (s, s).

(** *** Elementary state changes *)

Definition allocated (o : object) (s : state) : state :=
  mk_state (conns s) (<[nextblock s := o]> (heap s)) (S (nextblock s))
    (ring_sq s) (ring_pending s) (console s).

Definition released (p : ptr) (s : state) : state :=
  mk_state (conns s) (delete p (heap s)) (nextblock s)
    (ring_sq s) (ring_pending s) (console s).

Definition stored (p : ptr) (o : object) (s : state) : state :=
  mk_state (conns s) (<[p := o]> (heap s)) (nextblock s)
    (ring_sq s) (ring_pending s) (console s).

Definition marked (i : Z) (v : Z) (s : state) : state :=
  mk_state (<[Z.to_nat i := v]> (conns s)) (heap s) (nextblock s)
    (ring_sq s) (ring_pending s) (console s).

Definition pushed (sub : submission) (s : state) : state :=
  mk_state (conns s) (heap s) (nextblock s)
    (ring_sq s ++ [sub]) (ring_pending s ++ [sub]) (console s).

Definition printed (line : output) (s : state) : state :=
  mk_state (conns s) (heap s) (nextblock s)
    (ring_sq s) (ring_pending s) (console s ++ [line]).

(** *** Heap primitives *)

(** [malloc] followed by the assignments that initialise the block; the
    initial content may mention the block itself ([iov_base]). *)
Definition malloc (init : ptr → object) : M ptr := λ s,
  Ok (nextblock s, allocated (init (nextblock s)) s).

Definition free (p : ptr) : M unit := λ s,
  match heap s !! p with
  | Some _ => Ok (tt, released p s)
  | None => Fault (Dangling p)
  end.

Definition load (p : ptr) : M object := λ s,
  match heap s !! p with
  | Some o => Ok (o, s)
  | None => Fault (Dangling p)
  end.

Definition store (p : ptr) (o : object) : M unit := λ s,
  match heap s !! p with
  | Some _ => Ok (tt, stored p o s)
  | None => Fault (Dangling p)
  end.

(** Access to a block through a [yc_io_request_t *]. *)
Definition load_io (p : ptr) : M yc_io_request_t :=
  o ← load p;
  match o with
  | ObjIo r => mret r
  | _ => fail (BadCast p)
  end.

(** Access to a block through a [yc_accept_request_t *]. *)
Definition load_accept (p : ptr) : M yc_accept_request_t :=
  o ← load p;
  match o with
  | ObjAccept r => mret r
  | _ => fail (BadCast p)
  end.

(** *** The connection table [int conns[NUM_CONNS]]

    An index outside the array is undefined behaviour in C. *)

Definition in_bounds (table : list Z) (i : Z) : bool :=
  (0 <=? i) && (i <? NUM_CONNS) && bool_decide (Z.to_nat i < length table)%nat.

Definition conns_get (i : Z) : M Z := λ s,
  match conns s !! Z.to_nat i with
  | Some v => if in_bounds (conns s) i then Ok (v, s)
              else Fault (OutOfBounds i)
  | None => Fault (OutOfBounds i)
  end.

Definition conns_set (i : Z) (v : Z) : M unit := λ s,
  if in_bounds (conns s) i then Ok (tt, marked i v s)
  else Fault (OutOfBounds i).

(** *** Submission: [io_uring_get_sqe], [io_uring_prep_*],
    [io_uring_sqe_set_data], [io_uring_submit] *)

Definition submit (e : io_uring_sqe) (data : ptr) : M unit := λ s,
  Ok (tt, pushed (mk_submission e data) s).

Definition print (line : output) : M unit := λ s,
  Ok (tt, printed line s).

(** ** Request constructors *)

Definition yc_req_new (event : ycr_kind_t) (fd : Z) : M ptr :=
  malloc (λ _, ObjReq (mk_req event fd)).

Definition fresh_iobuf : list cell := replicate (Z.to_nat IOBUF_SIZE) None.

Definition yc_io_req_new (event : ycr_kind_t) (fd : Z) : M ptr :=
  malloc (λ req,
    ObjIo (mk_io_req (mk_req event fd) (mk_iovec req IOBUF_SIZE) fresh_iobuf)).

(** [sizeof(struct sockaddr_in)] *)
Definition SOCKADDR_IN_SIZE : Z := 16.

Definition yc_accept_req_new (fd : Z) : M ptr :=
  malloc (λ _,
    ObjAccept (mk_accept_req (mk_req YCR_KIND_ACCEPT fd) None SOCKADDR_IN_SIZE)).

Definition yc_req_free (req : ptr) : M unit := free req.

(** ** [memcpy(dst->ycr_iobuf, src->ycr_iobuf, n)] *)

Definition memcpy_cells (dst src : list cell) (n : nat) : list cell :=
  take n src ++ drop n dst.

Definition memcpy_iobuf (dst src : ptr) (n : Z) : M unit :=
  d ← load_io dst;
  s ← load_io src;
  if (0 <=? n) && (n <=? Z.of_nat (length (ycr_iobuf d)))
     && (n <=? Z.of_nat (length (ycr_iobuf s)))
  then
    store dst (ObjIo (mk_io_req (ycr_req d) (ycr_iovec d)
                        (memcpy_cells (ycr_iobuf d) (ycr_iobuf s) (Z.to_nat n))))
  else fail (BufferOverflow n).

(** [req->ycr_iovec.iov_len = n] *)
Definition set_iov_len (req : ptr) (n : Z) : M unit :=
  r ← load_io req;
  store req (ObjIo (mk_io_req (ycr_req r)
                      (mk_iovec (iov_base (ycr_iovec r)) n) (ycr_iobuf r))).

(** ** The completion dispatcher *)

Definition is_nul (c : cell) : bool :=
  match c with
  | Some b => Byte.eqb b x00
  | None => false
  end.

(** [printf("%.*s", n, buf)]: at most [n] characters, stopping at a NUL. *)
Fixpoint precision_s (n : nat) (buf : list cell) : list cell :=
  match n, buf with
  | S n', c :: buf' =>
      if is_nul c then [] else c :: precision_s n' buf'
  | _, _ => []
  end.

(** [for (int i = 0; i < NUM_CONNS; i++) body], over the index values. *)
Fixpoint for_each (indices : list Z) (body : Z → M unit) : M unit :=
  match indices with
  | [] => mret tt
  | i :: rest => body i;; for_each rest body
  end.

(** The three statements that follow [yc_req_free(req)] in each of the
    branches that disconnect a client: a close request is allocated and
    submitted, and the table entry is cleared. *)
Definition submit_close (fd : Z) : M unit :=
  clreq ← yc_req_new YCR_KIND_CLOSE fd;
  submit (prep_close fd) clreq;;
  conns_set fd 0.

(** Body of the loop over [dest_fd] in the read branch. *)
Definition fanout_body (rreq : ptr) (fd res : Z) (dest_fd : Z) : M unit :=
  c ← conns_get dest_fd;
  if bool_decide (c ≠ 0) && bool_decide (dest_fd ≠ fd) then
    wreq ← yc_io_req_new YCR_KIND_WRITE dest_fd;
    memcpy_iobuf wreq rreq res;;
    set_iov_len wreq res;;
    submit (prep_writev dest_fd wreq) wreq
  else mret tt.

Definition case_accept (req : ptr) (fd res : Z) : M unit :=
  (if bool_decide (res < 0) then
     print (stderr_accept (- res))
   else
     areq ← load_accept req;
     print (stdout_connect res (ycr_addr areq));;
     conns_set res 1;;
     rreq ← yc_io_req_new YCR_KIND_READ res;
     submit (prep_readv res rreq) rreq);;
  submit (prep_accept fd req) req.

Definition case_read (req : ptr) (fd res : Z) : M unit :=
  if bool_decide (res < 0) then
    print (stderr_readv fd (- res));;
    yc_req_free req;;
    submit_close fd
  else if bool_decide (res = 0) then
    print (stdout_closed fd);;
    yc_req_free req;;
    submit_close fd
  else
    rreq ← load_io req;
    print (stdout_read fd (precision_s (Z.to_nat res) (ycr_iobuf rreq)));;
    for_each (seqZ 0 NUM_CONNS) (fanout_body req fd res);;
    submit (prep_readv fd req) req.

Definition case_write (req : ptr) (fd res : Z) : M unit :=
  if bool_decide (res < 0) then
    print (stderr_writev fd (- res));;
    yc_req_free req;;
    submit_close fd
  else
    yc_req_free req.

Definition case_close (req : ptr) : M unit :=
  yc_req_free req.

(** The body of the [while] loop of [main], from the moment a completion
    queue entry has been obtained. *)
Definition handle_cqe (cqe : io_uring_cqe) : M unit :=
  let req := user_data cqe in
  o ← load req;
  let fd := ycr_fd (header o) in
  let res := res cqe in
  match ycr_event (header o) with
  | YCR_KIND_ACCEPT => case_accept req fd res
  | YCR_KIND_READ => case_read req fd res
  | YCR_KIND_WRITE => case_write req fd res
  | YCR_KIND_CLOSE => case_close req
  end.

(** ** The kernel side of the ring

    What [io_uring_wait_cqe] delivers is decided by the environment.  A
    completion names a pending submission; before it is posted the kernel
    has stored the bytes of a successful read through the submitted
    [iovec], or the peer address of a successful accept. *)

Inductive kernel_effect :=
  | no_effect
  | stored_bytes (bs : list byte)
  | stored_peer (peer : sockaddr_in).

Record completion := mk_completion {
  cqe : io_uring_cqe;
  effect : kernel_effect
}.

Fixpoint take_pending (p : ptr) (l : list submission)
  : option (submission * list submission) :=
  match l with
  | [] => None
  | sub :: rest =>
      if bool_decide (sqe_data sub = p) then Some (sub, rest)
      else '(found, rest') ← take_pending p rest; Some (found, sub :: rest')
  end.

Definition completed (rest : list submission) (s : state) : state :=
  mk_state (conns s) (heap s) (nextblock s) (ring_sq s) rest (console s).

Definition set_pending (rest : list submission) : M unit := λ s,
  Ok (tt, completed rest s).

Definition check (b : bool) (e : fault) : M unit :=
  if b then mret tt else fail e.

(** The kernel's stores for one completed operation. *)
Definition kernel_stores (sub : submission) (r : Z) (eff : kernel_effect)
  : M unit :=
  let bad := BadCompletion (sqe_data sub) in
  match sqe sub, eff with
  | prep_accept _ addr, stored_peer peer =>
      check (bool_decide (0 ≤ r)) bad;;
      areq ← load_accept addr;
      store addr (ObjAccept (mk_accept_req (ycr_areq areq) (Some peer)
                               (ycr_addrlen areq)))
  | prep_accept _ _, no_effect => check (bool_decide (r < 0)) bad
  | prep_readv _ iovecs, stored_bytes bs =>
      v ← load_io iovecs;
      check (bool_decide (0 < r ∧ r = Z.of_nat (length bs)
                          ∧ r ≤ iov_len (ycr_iovec v))) bad;;
      b ← load_io (iov_base (ycr_iovec v));
      check (bool_decide (length bs ≤ length (ycr_iobuf b))%nat)
        (BufferOverflow r);;
      store (iov_base (ycr_iovec v))
        (ObjIo (mk_io_req (ycr_req b) (ycr_iovec b)
                  ((Some <$> bs) ++ drop (length bs) (ycr_iobuf b))))
  | prep_readv _ _, no_effect => check (bool_decide (r ≤ 0)) bad
  | prep_writev _ iovecs, no_effect =>
      v ← load_io iovecs;
      check (bool_decide (r ≤ iov_len (ycr_iovec v))) bad
  | prep_close _, no_effect => check (bool_decide (r ≤ 0)) bad
  | _, _ => fail bad
  end.

(** [io_uring_wait_cqe] returning successfully with the entry of [c]. *)
Definition io_uring_wait_cqe (c : completion) : M io_uring_cqe :=
  s ← get_state;
  match take_pending (user_data (cqe c)) (ring_pending s) with
  | None => fail (NotPending (user_data (cqe c)))
  | Some (sub, rest) =>
      set_pending rest;;
      kernel_stores sub (res (cqe c)) (effect c);;
      mret (cqe c)
  end.

(** One iteration of the loop ([io_uring_cqe_seen] only recycles the
    entry). *)
Definition iteration (c : completion) : M unit :=
  e ← io_uring_wait_cqe c;
  handle_cqe e.

Definition exec {A} (m : M A) (s : state) : outcome state :=
  match m s with
  | Ok (_, s') => Ok s'
  | Fault f => Fault f
  end.

Fixpoint run (cs : list completion) (s : state) : outcome state :=
  match cs with
  | [] => Ok s
  | c :: rest =>
      match exec (iteration c) s with
      | Ok s' => run rest s'
      | Fault f => Fault f
      end
  end.

(** ** [main] *)

(** The state at the declaration of [conns], after [memset]. *)
Definition boot : state :=
  mk_state (replicate (Z.to_nat NUM_CONNS) 0) ∅ 1%nat [] [] [].

(** The first accept request, submitted before the loop is entered. *)
Definition first_accept (server_fd : Z) : M unit :=
  req ← yc_accept_req_new server_fd;
  submit (prep_accept server_fd req) req.

Definition init (server_fd : Z) : outcome state :=
  exec (first_accept server_fd) boot.

(** Results of the calls [main] makes before the loop. *)
Record environment := mk_environment {
  argc : Z;
  atoi_argv1 : Z;
  socket_ret : Z;
  setsockopt_ret : Z;
  bind_ret : Z;
  listen_ret : Z;
  io_uring_queue_init_ret : Z
}.

(** One return of [io_uring_wait_cqe]: its value and, when that is not
    negative, the completion it delivered. *)
Record wait := mk_wait {
  wait_ret : Z;
  wait_cqe : completion
}.

Inductive termination :=
  | Exit (code : Z)
  | Waiting (s : state)
  | Crash (f : fault).

Fixpoint main_loop (ws : list wait) (s : state) : termination :=
  match ws with
  | [] => Waiting s
  | w :: rest =>
      if bool_decide (wait_ret w >= 0) then
        match exec (iteration (wait_cqe w)) s with
        | Ok s' => main_loop rest s'
        | Fault f => Crash f
        end
      else Exit 1
  end.

(** [main], from the results of the setup calls and of the successive
    waits.  The messages printed before [exit(1)] are left out. *)
Definition main (env : environment) (ws : list wait) : termination :=
  if bool_decide (argc env < 2) then Exit 1
  else
    let port := atoi_argv1 env in
    if bool_decide (port ≤ 0) then Exit 1
    else
      let server_fd := socket_ret env in
      if bool_decide (server_fd < 0) then Exit 1
      else if bool_decide (setsockopt_ret env < 0) then Exit 1
      else if bool_decide (bind_ret env < 0) then Exit 1
      else if bool_decide (listen_ret env < 0) then Exit 1
      else if bool_decide (io_uring_queue_init_ret env < 0) then Exit 1
      else
        match init server_fd with
        | Ok s => main_loop ws s
        | Fault f => Crash f
        end.

(** ** The dispatch table in closed form

    The post-state of every branch of the dispatcher written as a
    composition of elementary state changes, following the table of
    reactions (kind of the completed request against the sign of its
    result).  [handle_cqe_dispatch] below shows that the translation of
    the loop body computes exactly this. *)

Definition is_active (table : list Z) (d : Z) : bool :=
  match table !! Z.to_nat d with
  | Some c => bool_decide (c ≠ 0)
  | None => false
  end.

(** The destinations of a chunk read from [fd], out of the indices [ds]. *)
Definition targets_among (table : list Z) (fd : Z) (ds : list Z) : list Z :=
  filter (λ d, is_active table d ∧ d ≠ fd) ds.

Definition fanout_targets (table : list Z) (fd : Z) : list Z :=
  targets_among table fd (seqZ 0 NUM_CONNS).

Definition accept_sub (fd : Z) (req : ptr) : submission :=
  mk_submission (prep_accept fd req) req.
Definition read_sub (fd : Z) (req : ptr) : submission :=
  mk_submission (prep_readv fd req) req.
Definition write_sub (fd : Z) (req : ptr) : submission :=
  mk_submission (prep_writev fd req) req.
Definition close_sub (fd : Z) (req : ptr) : submission :=
  mk_submission (prep_close fd) req.

Definition read_req (fd : Z) (req : ptr) : object :=
  ObjIo (mk_io_req (mk_req YCR_KIND_READ fd) (mk_iovec req IOBUF_SIZE)
           fresh_iobuf).

Definition write_req (r : Z) (src : list cell) (fd : Z) (req : ptr) : object :=
  ObjIo (mk_io_req (mk_req YCR_KIND_WRITE fd) (mk_iovec req r)
           (memcpy_cells fresh_iobuf src (Z.to_nat r))).

Definition close_req (fd : Z) : object :=
  ObjReq (mk_req YCR_KIND_CLOSE fd).

(** The write submissions of a fan-out whose first new block is [nb]. *)
Definition write_subs (nb : ptr) (dests : list Z) : list submission :=
  zip_with write_sub dests (seq nb (length dests)).

(** One fan-out write: a new write request holding the copy, submitted. *)
Definition write_state (r : Z) (src : list cell) (s : state) (d : Z) : state :=
  pushed (write_sub d (nextblock s))
    (allocated (write_req r src d (nextblock s)) s).

Definition copy_fits (r : Z) (src : list cell) : bool :=
  (0 <=? r) && (r <=? Z.of_nat (length fresh_iobuf))
  && (r <=? Z.of_nat (length src)).

(** The first undefined behaviour met by the fan-out loop, if any. *)
Fixpoint loop_fault (table : list Z) (fd r : Z) (src : list cell)
    (ds : list Z) : option fault :=
  match ds with
  | [] => None
  | d :: ds' =>
      if in_bounds table d then
        if is_active table d && bool_decide (d ≠ fd) then
          if copy_fits r src then loop_fault table fd r src ds'
          else Some (BufferOverflow r)
        else loop_fault table fd r src ds'
      else Some (OutOfBounds d)
  end.

Definition disconnect (req : ptr) (fd : Z) (line : output) (s : state)
  : outcome state :=
  if in_bounds (conns s) fd then
    Ok (marked fd 0
          (pushed (close_sub fd (nextblock s))
             (allocated (close_req fd) (released req (printed line s)))))
  else Fault (OutOfBounds fd).

Definition dispatch (c : io_uring_cqe) (s : state) : outcome state :=
  let req := user_data c in
  let r := res c in
  match heap s !! req with
  | None => Fault (Dangling req)
  | Some o =>
      let fd := ycr_fd (header o) in
      match ycr_event (header o) with
      | YCR_KIND_ACCEPT =>
          if bool_decide (r < 0) then
            Ok (pushed (accept_sub fd req) (printed (stderr_accept (- r)) s))
          else
            match o with
            | ObjAccept areq =>
                if in_bounds (conns s) r then
                  Ok (pushed (accept_sub fd req)
                        (pushed (read_sub r (nextblock s))
                           (allocated (read_req r (nextblock s))
                              (marked r 1
                                 (printed (stdout_connect r (ycr_addr areq))
                                    s)))))
                else Fault (OutOfBounds r)
            | _ => Fault (BadCast req)
            end
      | YCR_KIND_READ =>
          if bool_decide (r < 0) then disconnect req fd (stderr_readv fd (- r)) s
          else if bool_decide (r = 0) then disconnect req fd (stdout_closed fd) s
          else
            match o with
            | ObjIo rreq =>
                let src := ycr_iobuf rreq in
                match loop_fault (conns s) fd r src (seqZ 0 NUM_CONNS) with
                | None =>
                    Ok (pushed (read_sub fd req)
                          (foldl (write_state r src)
                             (printed
                                (stdout_read fd (precision_s (Z.to_nat r) src))
                                s)
                             (fanout_targets (conns s) fd)))
                | Some f => Fault f
                end
            | _ => Fault (BadCast req)
            end
      | YCR_KIND_WRITE =>
          if bool_decide (r < 0) then
            disconnect req fd (stderr_writev fd (- r)) s
          else Ok (released req s)
      | YCR_KIND_CLOSE => Ok (released req s)
      end
  end.

(** Every live block was handed out by [malloc]. *)
Definition heap_wf (s : state) : Prop :=
  map_Forall (λ p _, (p < nextblock s)%nat) (heap s).

#[global] Instance heap_wf_dec (s : state) : Decision (heap_wf s).
Proof. unfold heap_wf. apply _. Defined.

(** ** Sample executions, used to instantiate the theorems *)

Definition accepted (req : ptr) (fd : Z) : completion :=
  mk_completion (mk_cqe req fd) (stored_peer (mk_sockaddr_in 2130706433 40000)).
Definition received (req : ptr) (bs : list byte) : completion :=
  mk_completion (mk_cqe req (Z.of_nat (length bs))) (stored_bytes bs).
Definition finished (req : ptr) (r : Z) : completion :=
  mk_completion (mk_cqe req r) no_effect.

(** The state reached from the start of the loop, listening on descriptor
    3, after the completions [cs]; [boot] if the execution faults. *)
Definition state_after (cs : list completion) : state :=
  match init 3 with
  | Ok s0 => match run cs s0 with Ok s => s | Fault _ => boot end
  | Fault _ => boot
  end.

(** Three clients on descriptors 5, 6 and 7; the read on 6 (block 3) has
    just been completed by the kernel with the two bytes "hi". *)
Definition three_clients : state :=
  match exec (io_uring_wait_cqe (received 3 [x68; x69]))
          (state_after [accepted 1 5; accepted 1 6; accepted 1 7]) with
  | Ok s => s
  | Fault _ => boot
  end.


(** What a submitted [writev] sends: the first [iov_len] cells at
    [iov_base], read through the [iovec] the entry points to. *)
Definition transmitted (h : gmap nat object) (sub : submission)
  : option (list cell) :=
  match sqe sub with
  | prep_writev _ iovecs =>
      match h !! iovecs with
      | Some (ObjIo v) =>
          match h !! iov_base (ycr_iovec v) with
          | Some (ObjIo b) =>
              Some (take (Z.to_nat (iov_len (ycr_iovec v))) (ycr_iobuf b))
          | _ => None
          end
      | _ => None
      end
  | _ => None
  end.

(** The submissions made between two states. *)
Definition submitted_between (s s' : state) : list submission :=
  drop (length (ring_sq s)) (ring_sq s').

(** ** The table of reactions, column by column

    What one dispatcher step is expected to submit, to do to the
    connection table and to do to the completed record, as functions of
    the kind of the completed request and the sign of its result. *)

Definition expected_submissions (s : state) (req : ptr) (o : object) (r : Z)
  : list submission :=
  let fd := ycr_fd (header o) in
  match ycr_event (header o) with
  | YCR_KIND_ACCEPT =>
      if bool_decide (r < 0) then [accept_sub fd req]
      else [read_sub r (nextblock s); accept_sub fd req]
  | YCR_KIND_READ =>
      if bool_decide (r ≤ 0) then [close_sub fd (nextblock s)]
      else write_subs (nextblock s) (fanout_targets (conns s) fd)
           ++ [read_sub fd req]
  | YCR_KIND_WRITE =>
      if bool_decide (r < 0) then [close_sub fd (nextblock s)] else []
  | YCR_KIND_CLOSE => []
  end.

Definition expected_conns (s : state) (o : object) (r : Z) : list Z :=
  let fd := ycr_fd (header o) in
  match ycr_event (header o) with
  | YCR_KIND_ACCEPT =>
      if bool_decide (r < 0) then conns s else <[Z.to_nat r := 1]> (conns s)
  | YCR_KIND_READ =>
      if bool_decide (r ≤ 0) then <[Z.to_nat fd := 0]> (conns s) else conns s
  | YCR_KIND_WRITE =>
      if bool_decide (r < 0) then <[Z.to_nat fd := 0]> (conns s) else conns s
  | YCR_KIND_CLOSE => conns s
  end.

(** Whether the completed record is handed back to the ring (otherwise it
    is released). *)
Definition rearms (o : object) (r : Z) : bool :=
  match ycr_event (header o) with
  | YCR_KIND_ACCEPT => true
  | YCR_KIND_READ => bool_decide (0 < r)
  | YCR_KIND_WRITE => false
  | YCR_KIND_CLOSE => false
  end.

(** ** The invariant of the loop

    Between two iterations the live blocks are exactly the records of the
    pending submissions, one block per submission, and each pending
    submission points at a record of its own kind.  While a completion is
    being handled its record is live without being pending: it is listed
    in [extra]. *)

Definition in_range (fd : Z) : Prop := 0 ≤ fd < NUM_CONNS.

Definition sub_ok (h : gmap nat object) (sub : submission) : Prop :=
  match sqe sub with
  | prep_accept fd addr =>
      addr = sqe_data sub
      ∧ ∃ areq, h !! addr = Some (ObjAccept areq)
                ∧ ycr_areq areq = mk_req YCR_KIND_ACCEPT fd
  | prep_readv fd iovecs =>
      iovecs = sqe_data sub ∧ in_range fd
      ∧ ∃ rreq, h !! iovecs = Some (ObjIo rreq)
                ∧ ycr_req rreq = mk_req YCR_KIND_READ fd
                ∧ ycr_iovec rreq = mk_iovec iovecs IOBUF_SIZE
                ∧ length (ycr_iobuf rreq) = Z.to_nat IOBUF_SIZE
  | prep_writev fd iovecs =>
      iovecs = sqe_data sub ∧ in_range fd
      ∧ ∃ wreq, h !! iovecs = Some (ObjIo wreq)
                ∧ ycr_req wreq = mk_req YCR_KIND_WRITE fd
                ∧ iov_base (ycr_iovec wreq) = iovecs
                ∧ 0 < iov_len (ycr_iovec wreq) ≤ IOBUF_SIZE
                ∧ length (ycr_iobuf wreq) = Z.to_nat IOBUF_SIZE
  | prep_close fd =>
      in_range fd ∧ h !! sqe_data sub = Some (close_req fd)
  end.

Definition pending_data (s : state) : list ptr := sqe_data <$> ring_pending s.

Record inv_with (extra : list ptr) (s : state) : Prop := mk_inv {
  inv_conns : length (conns s) = Z.to_nat NUM_CONNS;
  inv_heap_wf : heap_wf s;
  inv_nodup : NoDup (extra ++ pending_data s);
  inv_live : ∀ p, is_Some (heap s !! p) ↔ p ∈ extra ++ pending_data s;
  inv_subs : Forall (sub_ok (heap s)) (ring_pending s)
}.

Definition inv (s : state) : Prop := inv_with [] s.

(** The one assumption on the environment that the program does not
    check: a successful accept returns a descriptor below [NUM_CONNS]. *)
Definition accept_in_range (c : completion) : Prop :=
  match effect c with
  | stored_peer _ => res (cqe c) < NUM_CONNS
  | _ => True
  end.

(** Faults that are the environment's doing: a completion that names no
    pending submission, or whose result contradicts the operation. *)
Definition env_fault (f : fault) : Prop :=
  match f with
  | NotPending _ | BadCompletion _ => True
  | _ => False
  end.

(** The results the kernel may report for the submission [sub], together
    with what it stored. *)
Definition result_ok (c : completion) (sub : submission) : Prop :=
  let r := res (cqe c) in
  match sqe sub, effect c with
  | prep_accept _ _, stored_peer _ => 0 ≤ r
  | prep_accept _ _, no_effect => r < 0
  | prep_readv _ _, stored_bytes bs =>
      0 < r ≤ IOBUF_SIZE ∧ r = Z.of_nat (length bs)
  | prep_readv _ _, no_effect => r ≤ 0
  | prep_writev _ _, no_effect => True
  | prep_close _, no_effect => r ≤ 0
  | _, _ => False
  end.

(** The kernel only stores into request payloads: between [s] and [s1]
    nothing changes but the pending list and the payload of records. *)
Definition same_but_heap (s s1 : state) : Prop :=
  conns s1 = conns s ∧ nextblock s1 = nextblock s ∧ ring_sq s1 = ring_sq s
  ∧ console s1 = console s
  ∧ ∀ p, header <$> heap s1 !! p = header <$> heap s !! p.

(** ** Counting accepts *)

Definition is_accept (sub : submission) : bool :=
  match sqe sub with
  | prep_accept _ _ => true
  | _ => false
  end.

Definition accepts_submitted (s : state) : nat :=
  length (filter (λ sub, is_accept sub) (ring_sq s)).

(** Whether the completion [c], delivered in state [s], is that of an
    accept request. *)
Definition completes_accept (s : state) (c : completion) : bool :=
  match heap s !! user_data (cqe c) with
  | Some o => bool_decide (ycr_event (header o) = YCR_KIND_ACCEPT)
  | None => false
  end.

(** The number of accept completions among [cs], processed from [s]. *)
Fixpoint accept_completions (cs : list completion) (s : state) : nat :=
  match cs with
  | [] => 0
  | c :: rest =>
      ((if completes_accept s c then 1 else 0)
       + match exec (iteration c) s with
         | Ok s' => accept_completions rest s'
         | Fault _ => 0
         end)%nat
  end.

(** The submissions of a step that carry the record [req]. *)
Definition carrying (req : ptr) (subs : list submission) : list submission :=
  filter (λ sub, sqe_data sub = req) subs.

(** ** Statements that the code does not satisfy as they are worded *)

(** "Every access to the connection table made while handling a
    completion is within its 128 entries." *)
Definition table_access_always_in_range : Prop :=
  ∀ (listener : Z) (cs : list completion) (s0 : state) (i : Z),
    init listener = Ok s0 → run cs s0 ≠ Fault (OutOfBounds i).

(** "A connection whose first Read completes with result zero is never
    active": [rreq] is the Read submitted when [fd] was accepted, and it
    completes with zero right after. *)
Definition zero_bytes_never_active : Prop :=
  ∀ (listener : Z) (cs : list completion) (s0 s s1 s2 : state)
    (areq : ptr) (fd : Z) (peer : sockaddr_in),
    init listener = Ok s0 →
    run cs s0 = Ok s →
    exec (iteration (mk_completion (mk_cqe areq fd) (stored_peer peer))) s
    = Ok s1 →
    exec (iteration (mk_completion (mk_cqe (nextblock s) 0) no_effect)) s1
    = Ok s2 →
    is_active (conns s1) fd = false.

(** "A completion of any kind with a negative result is logged." *)
Definition negative_results_are_logged : Prop :=
  ∀ (listener : Z) (cs : list completion) (c : completion) (s0 s s' : state),
    init listener = Ok s0 →
    run cs s0 = Ok s →
    exec (iteration c) s = Ok s' →
    res (cqe c) < 0 →
    console s' ≠ console s.

(** The handle a submission reads from or writes to. *)
Definition io_handle (sub : submission) : option Z :=
  match sqe sub with
  | prep_readv fd _ | prep_writev fd _ => Some fd
  | _ => None
  end.

(** "Once a handle has been marked inactive, no later step submits a Read
    or a Write against it": [fd] was active in [sa], is inactive in [s],
    and the step from [s] is not an Accept completion. *)
Definition quiet_once_inactive : Prop :=
  ∀ (listener : Z) (cs1 cs2 : list completion) (c : completion)
    (s0 sa s s' : state) (fd : Z) (sub : submission),
    init listener = Ok s0 →
    run cs1 s0 = Ok sa →
    is_active (conns sa) fd = true →
    run cs2 sa = Ok s →
    is_active (conns s) fd = false →
    completes_accept s c = false →
    exec (iteration c) s = Ok s' →
    sub ∈ submitted_between s s' →
    io_handle sub ≠ Some fd.

(** ** Setup *)

Definition setup_fails (env : environment) : Prop :=
  argc env < 2 ∨ atoi_argv1 env ≤ 0 ∨ socket_ret env < 0
  ∨ setsockopt_ret env < 0 ∨ bind_ret env < 0 ∨ listen_ret env < 0
  ∨ io_uring_queue_init_ret env < 0.

#[global] Instance setup_fails_dec (env : environment) :
  Decision (setup_fails env).
Proof. unfold setup_fails. apply _. Defined.

(** The line written to [stderr] for a negative result [r] on a request
    with header [h]; a failed close is not reported. *)
Definition error_line (h : yc_request_t) (r : Z) : list output :=
  match ycr_event h with
  | YCR_KIND_ACCEPT => [stderr_accept (- r)]
  | YCR_KIND_READ => [stderr_readv (ycr_fd h) (- r)]
  | YCR_KIND_WRITE => [stderr_writev (ycr_fd h) (- r)]
  | YCR_KIND_CLOSE => []
  end.

(** An environment in which every setup call succeeds. *)
Definition good_env : environment := mk_environment 2 7000 3 0 0 0 0.

(** ** Notions used by the further properties *)

Definition is_read (sub : submission) : bool :=
  match sqe sub with
  | prep_readv _ _ => true
  | _ => false
  end.

Definition is_close (sub : submission) : bool :=
  match sqe sub with
  | prep_close _ => true
  | _ => false
  end.

(** The kind and the result of the completion [c], delivered in [s]. *)
Definition completed_kind (s : state) (c : completion) : option ycr_kind_t :=
  o ← heap s !! user_data (cqe c); Some (ycr_event (header o)).

(** A completion after which the client is disconnected: a Read that
    returned an error or end-of-stream, or a Write that returned an error. *)
Definition disconnects (s : state) (c : completion) : bool :=
  match completed_kind s c with
  | Some YCR_KIND_READ => bool_decide (res (cqe c) ≤ 0)
  | Some YCR_KIND_WRITE => bool_decide (res (cqe c) < 0)
  | _ => false
  end.

(** The completion [c], delivered in [s], disconnects the handle [fd]: it
    is a Read on [fd] that returned an error or end-of-stream, or a Write
    to [fd] that returned an error. *)
Definition disconnects_handle (fd : Z) (s : state) (c : completion) : bool :=
  match heap s !! user_data (cqe c) with
  | Some o => disconnects s c && bool_decide (ycr_fd (header o) = fd)
  | None => false
  end.

(** A completion after which a Read is submitted: a successful Accept or
    a Read that returned data. *)
Definition arms_read (s : state) (c : completion) : bool :=
  match completed_kind s c with
  | Some YCR_KIND_ACCEPT => bool_decide (0 ≤ res (cqe c))
  | Some YCR_KIND_READ => bool_decide (0 < res (cqe c))
  | _ => false
  end.

(** The number of completions among [cs], processed from [s], that
    satisfy [f] in the state in which they are delivered. *)
Fixpoint tally (f : state → completion → bool) (cs : list completion)
    (s : state) : nat :=
  match cs with
  | [] => 0
  | c :: rest =>
      ((if f s c then 1 else 0)
       + match exec (iteration c) s with
         | Ok s' => tally f rest s'
         | Fault _ => 0
         end)%nat
  end.

(** The results the kernel can report for the pending submission [sub],
    as checked by [kernel_stores]. *)
Definition reportable (h : gmap nat object) (sub : submission)
    (c : completion) : Prop :=
  let r := res (cqe c) in
  match sqe sub, effect c with
  | prep_accept _ _, stored_peer _ => 0 ≤ r
  | prep_accept _ _, no_effect => r < 0
  | prep_readv _ _, stored_bytes bs =>
      0 < r ≤ IOBUF_SIZE ∧ r = Z.of_nat (length bs)
  | prep_readv _ _, no_effect => r ≤ 0
  | prep_writev _ iovecs, no_effect =>
      match h !! iovecs with
      | Some (ObjIo v) => r ≤ iov_len (ycr_iovec v)
      | _ => False
      end
  | prep_close _, no_effect => r ≤ 0
  | _, _ => False
  end.

Definition is_write (sub : submission) : bool :=
  match sqe sub with
  | prep_writev _ _ => true
  | _ => false
  end.

(** Two clients, on descriptors 5 and 6, and nothing received yet. *)
Definition two_clients : state := state_after [accepted 1 5; accepted 1 6].
(** * The readiness-loop variants

    [yc_select.c], [yc_poll.c], [yc_epoll.c] and [yc_kqueue.c] are the same
    chat server written around four readiness interfaces.  Each of them is
    a single [main] that issues blocking system calls and keeps its state
    in local arrays.

    Modelling conventions.
    - The models start where the listening socket is set up (after
      [listen] and the line "listening on port"), with its descriptor
      [server_fd] as a parameter.
    - A system call appends itself, with its arguments, to the [trace]
      of the machine; its result is the answer of the [world] for the
      position the call takes in the trace.  A world is any family of
      answers, so that every sequence of results the operating system can
      produce is the behaviour of some world.
    - A call that fills a buffer gets the content from the world and
      returns its length cut to the size asked for, as the system call
      does.
    - [errno] is not modelled: a console line that prints
      [strerror(errno)] carries the descriptor only.
    - Indexing an array outside its bounds, and reading an object that was
      never written, stop the execution with a [Trap]. *)

Module Sys.

Inductive epoll_op :=
  | EPOLL_CTL_ADD
  | EPOLL_CTL_DEL.

Record epoll_event := mk_epoll_event {
  ev_events : Z;
  data_fd : Z
}.

Record pollfd := mk_pollfd {
  pfd_fd : Z;
  pfd_events : option Z;
  pfd_revents : option Z
}.

(** [struct kevent], the members the program sets or reads. *)
Record kevent_t := mk_kevent {
  kev_ident : Z;
  kev_filter : Z;
  kev_flags : Z
}.

#[global] Instance byte_eq_dec : EqDecision byte := Byte.byte_eq_dec.
#[global] Instance epoll_op_eq_dec : EqDecision epoll_op.
Proof. solve_decision. Defined.
#[global] Instance epoll_event_eq_dec : EqDecision epoll_event.
Proof. solve_decision. Defined.
#[global] Instance pollfd_eq_dec : EqDecision pollfd.
Proof. solve_decision. Defined.
#[global] Instance kevent_eq_dec : EqDecision kevent_t.
Proof. solve_decision. Defined.

(** The system calls of the four programs, with the arguments that
    matter: the descriptor, the size, the content handed to the kernel. *)
Inductive syscall :=
  | sys_accept (fd : Z)
  (** [ioctl(fd, FIONBIO, &onoff)] *)
  | sys_ioctl (fd : Z)
  | sys_close (fd : Z)
  | sys_read (fd : Z) (count : Z)
  | sys_recv (fd : Z) (count : Z)
  | sys_write (fd : Z) (buf : list cell) (count : Z)
  | sys_select (nfds : Z) (readfds : gset Z)
  | sys_poll (fds : list pollfd) (nfds : Z)
  | sys_epoll_ctl (op : epoll_op) (fd : Z) (event : option epoll_event)
  | sys_epoll_wait (maxevents : Z)
  (** [kevent(kq, change_event, 1, NULL, 0, NULL)] *)
  | sys_kevent_change (change : kevent_t)
  (** [kevent(kq, NULL, 0, event, nevents, NULL)] *)
  | sys_kevent_wait (nevents : Z).

#[global] Instance syscall_eq_dec : EqDecision syscall.
Proof. solve_decision. Defined.

(** The answers of the operating system to the calls that all four
    programs make, by the position of the call in the trace. *)
Record world := mk_world {
  (** the descriptor or a negative value, and the peer address stored *)
  on_accept : nat → Z * sockaddr_in;
  on_ioctl : nat → Z;
  (** [None]: the call fails with -1; otherwise the bytes available *)
  on_read : nat → option (list byte);
  on_write : nat → Z
}.

(** Console lines ([printf], [fprintf(stderr, ...)], [perror]). *)
Inductive line :=
  | perror_accept
  | perror_epoll_ctl
  | perror_epoll_wait
  | perror_select
  | perror_poll
  | perror_kevent
  | perror_kevent_error
  | out_connect (fd : Z) (peer : sockaddr_in)
  | out_fcntl (fd : Z)
  | out_epoll_ctl (fd : Z)
  | out_activity (fd : Z)
  | err_read (fd : Z)
  | out_read (fd : Z) (text : list cell)
  | err_write (fd : Z)
  | out_closed (fd : Z)
  | out_disconnected
  | out_read_bytes (n : Z).

Inductive trap_t :=
  | OutOfRange (i : Z)
  | Indeterminate.

Inductive result (A : Type) :=
  | Done (a : A)
  | Trap (t : trap_t).
Arguments Done {A} a.
Arguments Trap {A} t.

(** The local variables of [main] (of type [L]), the system calls made so
    far and the console. *)
Record machine (L : Type) := mk_machine {
  vars : L;
  trace : list syscall;
  tty : list line
}.
Arguments mk_machine {L} vars trace tty.
Arguments vars {L} m.
Arguments trace {L} m.
Arguments tty {L} m.

Definition M (L A : Type) : Type := machine L → result (A * machine L).

#[global] Instance M_ret {L} : MRet (M L) := λ A a m, Done (a, m).
#[global] Instance M_bind {L} : MBind (M L) := λ A B f c m,
  match c m with
  | Done (a, m') => f a m'
  | Trap t => Trap t
  end.

Section primitives.
Context {L : Type}.

Definition trap {A} (t : trap_t) : M L A := λ _, Trap t.

Definition get : M L L := λ m, Done (vars m, m).

Definition put (l : L) : M L unit := λ m,
  Done (tt, mk_machine l (trace m) (tty m)).

Definition print (l : line) : M L unit := λ m,
  Done (tt, mk_machine (vars m) (trace m) (tty m ++ [l])).

(** The call is made; the value is its position in the trace. *)
Definition call (c : syscall) : M L nat := λ m,
  Done (length (trace m), mk_machine (vars m) (trace m ++ [c]) (tty m)).

(** [a[i]] for an array of [size] elements. *)
Definition index {A} (size : Z) (a : list A) (i : Z) : M L A :=
  if (0 <=? i) && (i <? size) then
    match a !! Z.to_nat i with
    | Some v => mret v
    | None => trap (OutOfRange i)
    end
  else trap (OutOfRange i).

(** [a[i] = v]: the array after the assignment. *)
Definition assign {A} (size : Z) (a : list A) (i : Z) (v : A)
  : M L (list A) :=
  if (0 <=? i) && (i <? size) && bool_decide (Z.to_nat i < length a)%nat
  then mret (<[Z.to_nat i := v]> a)
  else trap (OutOfRange i).

(** The value of an object that may be indeterminate. *)
Definition determinate {A} (v : option A) : M L A :=
  match v with
  | Some a => mret a
  | None => trap Indeterminate
  end.

(** [for (int i = ...; ...; i++) body], over the values of [i]. *)
Fixpoint for_each (indices : list Z) (body : Z → M L unit) : M L unit :=
  match indices with
  | [] => mret tt
  | i :: rest => body i;; for_each rest body
  end.

Context (w : world).

Definition accept (fd : Z) : M L (Z * sockaddr_in) :=
  t ← call (sys_accept fd); mret (on_accept w t).

Definition ioctl_FIONBIO (fd : Z) : M L Z :=
  t ← call (sys_ioctl fd); mret (on_ioctl w t).

(** The result of [close] is never looked at. *)
Definition close (fd : Z) : M L unit :=
  call (sys_close fd);; mret tt.

(** What a call that fills [char buf[count]] leaves in a buffer that was
    indeterminate: the bytes received, at most [count]. *)
Definition filled (count : Z) (bs : list byte) : list cell :=
  let got := take (Z.to_nat count) bs in
  (Some <$> got) ++ replicate (Z.to_nat count - length got) None.

Definition received (count : Z) (bs : list byte) : Z :=
  Z.of_nat (length (take (Z.to_nat count) bs)).

(** [char buf[count]; nread = read(fd, buf, sizeof(buf))]: the result and
    the buffer. *)
Definition read (fd : Z) (count : Z) : M L (Z * list cell) :=
  t ← call (sys_read fd count);
  match on_read w t with
  | None => mret (-1, replicate (Z.to_nat count) None)
  | Some bs => mret (received count bs, filled count bs)
  end.

Definition recv (fd : Z) (count : Z) : M L (Z * list cell) :=
  t ← call (sys_recv fd count);
  match on_read w t with
  | None => mret (-1, replicate (Z.to_nat count) None)
  | Some bs => mret (received count bs, filled count bs)
  end.

Definition write (fd : Z) (buf : list cell) (count : Z) : M L Z :=
  t ← call (sys_write fd buf count); mret (on_write w t).

End primitives.

(** Where the loop of [main] stands: it left through [exit(status)], or
    it is about to wait again. *)
Inductive stop :=
  | Exit (status : Z)
  | Running.

Definition is_write (c : syscall) : bool :=
  match c with
  | sys_write _ _ _ => true
  | _ => false
  end.

Definition is_close (c : syscall) : bool :=
  match c with
  | sys_close _ => true
  | _ => false
  end.

(** The calls that take something from a client: [accept], [read],
    [recv]. *)
Definition is_input (c : syscall) : bool :=
  match c with
  | sys_accept _ | sys_read _ _ | sys_recv _ _ => true
  | _ => false
  end.

End Sys.

(** ** [yc_epoll.c] *)

Module yc_epoll.
Import Sys.

Definition NUM_CONNS : Z := 128.
Definition NUM_EVENTS : Z := 16.

(** [EPOLLIN] of [<sys/epoll.h>] *)
Definition EPOLLIN : Z := 1.

(** [sizeof(buf)] *)
Definition BUF_SIZE : Z := 1024.

(** [int conns[NUM_CONNS]] and [struct epoll_event events[NUM_EVENTS]];
    the elements of [events] are indeterminate until written. *)
Record locals := mk_locals {
  conns : list Z;
  events : list (option epoll_event)
}.

(** The answers to the calls of the epoll interface. *)
Record kernel := mk_kernel {
  sys : world;
  on_epoll_ctl : nat → Z;
  (** [None]: the call fails with -1; otherwise the events that are
      ready, of which the call stores at most [maxevents] *)
  on_epoll_wait : nat → option (list epoll_event)
}.

Section program.
Context (k : kernel) (server_fd : Z).

Definition conns_get (i : Z) : M locals Z :=
  l ← get; index NUM_CONNS (conns l) i.

Definition conns_set (i v : Z) : M locals unit :=
  l ← get;
  a ← assign NUM_CONNS (conns l) i v;
  put (mk_locals a (events l)).

Definition events_get (n : Z) : M locals epoll_event :=
  l ← get;
  e ← index NUM_EVENTS (events l) n;
  determinate e.

Definition events_set (n : Z) (e : epoll_event) : M locals unit :=
  l ← get;
  a ← assign NUM_EVENTS (events l) n (Some e);
  put (mk_locals (conns l) a).

Definition epoll_ctl (op : epoll_op) (fd : Z) (event : option epoll_event)
  : M locals Z :=
  t ← call (sys_epoll_ctl op fd event); mret (on_epoll_ctl k t).

(** [epoll_wait(epoll, events, NUM_EVENTS, -1)]: the events go to the
    front of [events]. *)
Definition epoll_wait : M locals Z :=
  t ← call (sys_epoll_wait NUM_EVENTS);
  match on_epoll_wait k t with
  | None => mret (-1)
  | Some ready =>
      let got := take (Z.to_nat NUM_EVENTS) ready in
      l ← get;
      put (mk_locals (conns l)
             ((Some <$> got) ++ drop (length got) (events l)));;
      mret (Z.of_nat (length got))
  end.

(** The three statements of every branch that disconnects [fd]. *)
Definition disconnect (fd : Z) : M locals unit :=
  epoll_ctl EPOLL_CTL_DEL fd None;;
  close (L := locals) fd;;
  conns_set fd 0.

(** The body of the loop over [dest_fd]. *)
Definition fanout_body (fd : Z) (buf : list cell) (nread : Z) (dest_fd : Z)
  : M locals unit :=
  c ← conns_get dest_fd;
  if bool_decide (c ≠ 0) && bool_decide (dest_fd ≠ fd) then
    r ← write (sys k) dest_fd buf nread;
    if bool_decide (r < 0) then
      print (err_write dest_fd);;
      disconnect dest_fd
    else mret tt
  else mret tt.

(** The branch [fd == server_fd]. *)
Definition on_server : M locals unit :=
  '(new_fd, sin) ← accept (sys k) server_fd;
  if bool_decide (new_fd < 0) then print perror_accept
  else
    print (out_connect new_fd sin);;
    r ← ioctl_FIONBIO (sys k) new_fd;
    if bool_decide (r < 0) then
      print (out_fcntl new_fd);;
      close new_fd
    else
      events_set 0 (mk_epoll_event EPOLLIN new_fd);;
      l ← get;
      r ← epoll_ctl EPOLL_CTL_ADD new_fd (events l !!! 0%nat);
      if bool_decide (r < 0) then
        print (out_epoll_ctl new_fd);;
        close new_fd
      else conns_set new_fd 1.

(** The other branch: activity on a connection. *)
Definition on_client (fd : Z) : M locals unit :=
  print (out_activity fd);;
  '(nread, buf) ← read (sys k) fd BUF_SIZE;
  if bool_decide (nread < 0) then
    print (err_read fd);;
    disconnect fd
  else if bool_decide (nread > 0) then
    print (out_read fd (precision_s (Z.to_nat nread) buf));;
    for_each (seqZ 0 NUM_CONNS) (fanout_body fd buf nread)
  else
    print (out_closed fd);;
    disconnect fd.

(** The body of the loop over the events returned. *)
Definition handle_event (n : Z) : M locals unit :=
  e ← events_get n;
  let fd := data_fd e in
  if bool_decide (fd = server_fd) then on_server else on_client fd.

(** One turn of the [while] loop; [false] when [epoll_wait] failed and
    the loop is left. *)
Definition iteration : M locals bool :=
  nevents ← epoll_wait;
  if bool_decide (nevents >= 0) then
    (if bool_decide (nevents = 0) then mret tt
     else for_each (seqZ 0 nevents) handle_event);;
    mret true
  else mret false.

Fixpoint loop (turns : nat) : M locals stop :=
  match turns with
  | O => mret Running
  | S n =>
      go_on ← iteration;
      if go_on : bool then loop n
      else print perror_epoll_wait;; mret (Exit 1)
  end.

(** [main] from the declaration of [conns], for at most [turns] turns of
    the loop. *)
Definition main (turns : nat) : M locals stop :=
  events_set 0 (mk_epoll_event EPOLLIN server_fd);;
  l ← get;
  r ← epoll_ctl EPOLL_CTL_ADD server_fd (events l !!! 0%nat);
  if bool_decide (r ≠ 0) then print perror_epoll_ctl;; mret (Exit 1)
  else loop turns.

End program.

(** The machine when [main] reaches the declaration of [conns]:
    [memset(&conns, 0, sizeof(conns))], and [events] indeterminate. *)
Definition boot : machine locals :=
  mk_machine
    (mk_locals (replicate (Z.to_nat NUM_CONNS) 0)
       (replicate (Z.to_nat NUM_EVENTS) None))
    [] [].

(** The destinations of a chunk read from [fd]. *)
Definition fanout_targets (table : list Z) (fd : Z) : list Z :=
  targets_among table fd (seqZ 0 NUM_CONNS).

(** *** The calls of one event, in closed form *)

Section calls.
Context (k : kernel) (server_fd : Z).

(** The calls of the fan-out of [buf] to the destinations [dests], the
    first of them made at position [t] of the trace. *)
Fixpoint fanout_calls (buf : list cell) (nread : Z) (t : nat)
    (dests : list Z) : list syscall :=
  match dests with
  | [] => []
  | d :: rest =>
      if bool_decide (on_write (sys k) t < 0) then
        sys_write d buf nread :: sys_epoll_ctl EPOLL_CTL_DEL d None
        :: sys_close d :: fanout_calls buf nread (t + 3) rest
      else sys_write d buf nread :: fanout_calls buf nread (t + 1) rest
  end.

(** The destinations among [dests] whose write fails. *)
Fixpoint fanout_failures (t : nat) (dests : list Z) : list Z :=
  match dests with
  | [] => []
  | d :: rest =>
      if bool_decide (on_write (sys k) t < 0)
      then d :: fanout_failures (t + 3) rest
      else fanout_failures (t + 1) rest
  end.

(** [conns] after [conns[d] = 0] for every [d] of [ds]. *)
Definition cleared (ds : list Z) (table : list Z) : list Z :=
  foldl (λ tb d, <[Z.to_nat d := 0]> tb) table ds.

(** The calls of the branch [fd == server_fd], from position [t]. *)
Definition server_calls (t : nat) : list syscall :=
  let new_fd := (on_accept (sys k) t).1 in
  sys_accept server_fd ::
  if bool_decide (new_fd < 0) then []
  else
    sys_ioctl new_fd ::
    if bool_decide (on_ioctl (sys k) (t + 1) < 0) then [sys_close new_fd]
    else
      sys_epoll_ctl EPOLL_CTL_ADD new_fd
        (Some (mk_epoll_event EPOLLIN new_fd)) ::
      if bool_decide (on_epoll_ctl k (t + 2) < 0) then [sys_close new_fd]
      else [].

(** The calls of the other branch, for the connection [fd]. *)
Definition client_calls (table : list Z) (fd : Z) (t : nat) : list syscall :=
  sys_read fd BUF_SIZE ::
  match on_read (sys k) t with
  | Some bs =>
      if bool_decide (received BUF_SIZE bs > 0) then
        fanout_calls (filled BUF_SIZE bs) (received BUF_SIZE bs) (t + 1)
          (fanout_targets table fd)
      else [sys_epoll_ctl EPOLL_CTL_DEL fd None; sys_close fd]
  | None => [sys_epoll_ctl EPOLL_CTL_DEL fd None; sys_close fd]
  end.

Definition event_calls (table : list Z) (fd : Z) (t : nat) : list syscall :=
  if bool_decide (fd = server_fd) then server_calls t
  else client_calls table fd t.

(** [conns] after the event, in the same way. *)
Definition server_conns (table : list Z) (t : nat) : list Z :=
  let new_fd := (on_accept (sys k) t).1 in
  if bool_decide (new_fd < 0) then table
  else if bool_decide (on_ioctl (sys k) (t + 1) < 0) then table
  else if bool_decide (on_epoll_ctl k (t + 2) < 0) then table
  else <[Z.to_nat new_fd := 1]> table.

Definition client_conns (table : list Z) (fd : Z) (t : nat) : list Z :=
  match on_read (sys k) t with
  | Some bs =>
      if bool_decide (received BUF_SIZE bs > 0) then
        cleared (fanout_failures (t + 1) (fanout_targets table fd)) table
      else <[Z.to_nat fd := 0]> table
  | None => <[Z.to_nat fd := 0]> table
  end.

Definition event_conns (table : list Z) (fd : Z) (t : nat) : list Z :=
  if bool_decide (fd = server_fd) then server_conns table t
  else client_conns table fd t.

(** The calls of one batch of events, on the descriptors [fds], and
    [conns] after it. *)
Fixpoint batch_calls (table : list Z) (t : nat) (fds : list Z)
  : list syscall :=
  match fds with
  | [] => []
  | fd :: rest =>
      let cs := event_calls table fd t in
      cs ++ batch_calls (event_conns table fd t) (t + length cs) rest
  end.

Fixpoint batch_conns (table : list Z) (t : nat) (fds : list Z) : list Z :=
  match fds with
  | [] => table
  | fd :: rest =>
      batch_conns (event_conns table fd t)
        (t + length (event_calls table fd t)) rest
  end.

End calls.

(** The arrays have their declared sizes. *)
Definition sized (m : machine locals) : Prop :=
  length (conns (vars m)) = Z.to_nat NUM_CONNS
  ∧ length (events (vars m)) = Z.to_nat NUM_EVENTS.

(** The call with which the loop body answers an event on [fd]. *)
Definition input_call (server_fd fd : Z) : syscall :=
  if bool_decide (fd = server_fd) then sys_accept server_fd
  else sys_read fd BUF_SIZE.

(** Every [close(fd)] among the calls [cs], made from position [t] of the
    trace on, comes immediately after the removal of [fd] from the epoll
    set, or after the call that failed on the descriptor just accepted. *)
Definition closes_ok (k : kernel) (t : nat) (cs : list syscall) : Prop :=
  ∀ i fd, cs !! i = Some (sys_close fd) →
    ∃ j, i = S j ∧
      (cs !! j = Some (sys_epoll_ctl EPOLL_CTL_DEL fd None)
       ∨ (cs !! j = Some (sys_ioctl fd) ∧ on_ioctl (sys k) (t + j) < 0)
       ∨ (cs !! j = Some (sys_epoll_ctl EPOLL_CTL_ADD fd
                            (Some (mk_epoll_event EPOLLIN fd)))
          ∧ on_epoll_ctl k (t + j) < 0)).

(** The machine when the loop is entered: the listening socket is in the
    epoll set. *)
Definition started (server_fd : Z) : machine locals :=
  mk_machine
    (mk_locals (conns (vars boot))
       (<[0%nat := Some (mk_epoll_event EPOLLIN server_fd)]>
          (events (vars boot))))
    [sys_epoll_ctl EPOLL_CTL_ADD server_fd
       (Some (mk_epoll_event EPOLLIN server_fd))]
    [].

(** *** A sample execution, used to instantiate the theorems

    The listening socket is descriptor 3.  Two clients connect and get the
    descriptors [fd1] and 6; then both are reported ready in one batch:
    [fd1] has sent two bytes, the write to 6 fails, and the read on 6
    fails; then [epoll_wait] fails. *)

Definition sample_peer : sockaddr_in := mk_sockaddr_in 2130706433 40000.

Definition sample_event (fd : Z) : epoll_event := mk_epoll_event EPOLLIN fd.

Definition sample_with (fd1 : Z) : kernel :=
  mk_kernel
    (mk_world
       (λ t, match t with
             | 2%nat => (fd1, sample_peer)
             | 6%nat => (6, sample_peer)
             | _ => (-1, sample_peer)
             end)
       (λ _, 0)
       (λ t, match t with
             | 10%nat => Some [x68; x69]
             | _ => None
             end)
       (λ _, -1))
    (λ _, 0)
    (λ t, match t with
          | 1%nat | 5%nat => Some [sample_event 3]
          | 9%nat => Some [sample_event fd1; sample_event 6]
          | _ => None
          end).

Definition sample : kernel := sample_with 5.

(** The machine after [turns] turns of the loop in the sample execution. *)
Definition sample_after (turns : nat) : machine locals :=
  match main sample 3 turns boot with
  | Done (_, m) => m
  | Trap _ => boot
  end.

(** The machine when [epoll_wait] has returned in the turn after
    [sample_after turns]. *)
Definition sample_woken (turns : nat) : machine locals :=
  mk_machine (vars (sample_after turns))
    (trace (sample_after turns) ++ [sys_epoll_wait NUM_EVENTS])
    (tty (sample_after turns)).

(** The same when the activity on descriptor 5 has been handled. *)
Definition sample_served : machine locals :=
  match on_client sample 5 (sample_woken 2) with
  | Done (_, m) => m
  | Trap _ => boot
  end.

End yc_epoll.

(** * Proofs *)

Lemma length_fresh_iobuf : length fresh_iobuf = Z.to_nat IOBUF_SIZE.
Proof. apply length_replicate. Qed.

Lemma NUM_CONNS_val : NUM_CONNS = 128.
Proof. reflexivity. Qed.

#[local] Arguments fresh_iobuf : simpl never.
#[local] Arguments seqZ : simpl never.
#[local] Opaque fresh_iobuf NUM_CONNS.

Lemma bind_unfold {A B} (m : M A) (f : A → M B) (s : state) :
  (m ≫= f) s = match m s with Ok (a, s') => f a s' | Fault e => Fault e end.
Proof. reflexivity. Qed.

Lemma exec_unit (m : M unit) (s s' : state) :
  exec m s = Ok s' ↔ m s = Ok (tt, s').
Proof.
  unfold exec. destruct (m s) as [[[] s'']|f]; split; intros H; by simplify_eq.
Qed.

Lemma in_bounds_lookup (table : list Z) (d : Z) :
  in_bounds table d = true → is_Some (table !! Z.to_nat d).
Proof.
  unfold in_bounds. rewrite !andb_true_iff, bool_decide_eq_true.
  intros [_ Hlt]. by apply lookup_lt_is_Some.
Qed.

Lemma fanout_body_eq (req : ptr) (rreq : yc_io_request_t) (fd r d : Z) (s : state) :
  heap s !! req = Some (ObjIo rreq) →
  (req < nextblock s)%nat →
  fanout_body req fd r d s =
    if in_bounds (conns s) d then
      if is_active (conns s) d && bool_decide (d ≠ fd) then
        if copy_fits r (ycr_iobuf rreq) then
          Ok (tt, write_state r (ycr_iobuf rreq) s d)
        else Fault (BufferOverflow r)
      else Ok (tt, s)
    else Fault (OutOfBounds d).
Proof.
  intros Hreq Hlt.
  unfold fanout_body, conns_get, is_active. rewrite bind_unfold.
  destruct (in_bounds (conns s) d) eqn:Hb.
  - destruct (in_bounds_lookup _ _ Hb) as [c ->].
    destruct (bool_decide (c ≠ 0) && bool_decide (d ≠ fd)); [|done].
    unfold yc_io_req_new, malloc, memcpy_iobuf, set_iov_len, load_io, load, store, submit.
    unfold mbind, M_bind, mret, M_ret, fail. cbn.
    rewrite lookup_insert_eq. cbn.
    rewrite lookup_insert_ne by lia. rewrite Hreq. cbn.
    fold (copy_fits r (ycr_iobuf rreq)).
    destruct (copy_fits r (ycr_iobuf rreq)); [|done].
    cbn. repeat (rewrite lookup_insert_eq; cbn).
    unfold write_state, pushed, allocated, stored, write_req. cbn.
    by rewrite !insert_insert_eq.
  - by destruct (conns s !! Z.to_nat d).
Qed.

Lemma targets_among_cons (table : list Z) (fd d : Z) (ds : list Z) :
  targets_among table fd (d :: ds) =
    if is_active table d && bool_decide (d ≠ fd)
    then d :: targets_among table fd ds
    else targets_among table fd ds.
Proof.
  unfold targets_among. rewrite filter_cons.
  destruct (is_active table d) eqn:Ha; cbn.
  - destruct (decide (d = fd)) as [->|Hne].
    + rewrite bool_decide_eq_false_2 by tauto.
      rewrite decide_False; [done | tauto].
    + rewrite bool_decide_eq_true_2 by done.
      rewrite decide_True; [done | split; [done | done]].
  - rewrite decide_False; [done | intros [[] _]].
Qed.

Lemma for_each_fanout_eq (req : ptr) (rreq : yc_io_request_t) (fd r : Z)
    (ds : list Z) (s : state) :
  heap s !! req = Some (ObjIo rreq) →
  (req < nextblock s)%nat →
  for_each ds (fanout_body req fd r) s =
    match loop_fault (conns s) fd r (ycr_iobuf rreq) ds with
    | None =>
        Ok (tt, foldl (write_state r (ycr_iobuf rreq)) s
                  (targets_among (conns s) fd ds))
    | Some f => Fault f
    end.
Proof.
  revert s. induction ds as [|d ds IH]; intros s Hreq Hlt; [done|].
  cbn [for_each loop_fault]. rewrite bind_unfold.
  rewrite (fanout_body_eq req rreq) by done.
  rewrite targets_among_cons.
  destruct (in_bounds (conns s) d); [|done].
  destruct (is_active (conns s) d && bool_decide (d ≠ fd)).
  - destruct (copy_fits r (ycr_iobuf rreq)); [|done].
    rewrite IH; cbn; [done | | lia].
    by rewrite lookup_insert_ne by lia.
  - by rewrite IH.
Qed.

Lemma disconnect_eq (req : ptr) (fd : Z) (line : output) (s : state) :
  is_Some (heap s !! req) →
  exec (print line;; yc_req_free req;; submit_close fd) s
  = disconnect req fd line s.
Proof.
  intros [o Ho].
  unfold exec, disconnect, submit_close, yc_req_free, free, yc_req_new,
    malloc, submit, conns_set, print.
  unfold mbind, M_bind. cbn. rewrite Ho. cbn.
  by destruct (in_bounds (conns s) fd).
Qed.

(** The translation of the loop body computes the dispatch table. *)
Lemma handle_cqe_dispatch (c : io_uring_cqe) (s : state) :
  heap_wf s →
  exec (handle_cqe c) s = dispatch c s.
Proof.
  intros Hwf. destruct c as [req r].
  unfold handle_cqe, dispatch. cbn [user_data res].
  unfold exec at 1. rewrite bind_unfold. unfold load at 1.
  destruct (heap s !! req) as [o|] eqn:Ho; [|done].
  assert (req < nextblock s)%nat as Hlt by exact (Hwf req o Ho).
  destruct (ycr_event (header o)) eqn:Hk.
  - (* accept *)
    unfold case_accept. rewrite bind_unfold.
    case_bool_decide as Hr; [done|].
    unfold load_accept, load. unfold mbind, M_bind. rewrite Ho.
    destruct o as [q|q|areq]; try done. cbn.
    unfold conns_set. cbn.
    by destruct (in_bounds (conns s) r).
  - (* read *)
    unfold case_read.
    case_bool_decide as Hneg.
    { apply disconnect_eq. by rewrite Ho. }
    case_bool_decide as Hzero.
    { apply disconnect_eq. by rewrite Ho. }
    unfold load_io, load, mbind, M_bind, mret, M_ret, print. cbn beta.
    rewrite Ho.
    destruct o as [q|rreq|q]; try done.
    rewrite (for_each_fanout_eq req rreq) by done.
    cbn [conns printed]. fold (fanout_targets (conns s) (ycr_fd (ycr_req rreq))).
    by destruct (loop_fault _ _ _ _ _).
  - (* write *)
    unfold case_write.
    case_bool_decide as Hneg.
    { apply disconnect_eq. by rewrite Ho. }
    unfold yc_req_free, free. by rewrite Ho.
  - (* close *)
    unfold case_close, yc_req_free, free. by rewrite Ho.
Qed.

(** ** The state after a fan-out *)

Section fanout.
Context (r : Z) (src : list cell).

Lemma fanout_conns dests s :
  conns (foldl (write_state r src) s dests) = conns s.
Proof. revert s. induction dests as [|d dests IH]; intros s; [done|]. cbn. by rewrite IH. Qed.

Lemma fanout_console dests s :
  console (foldl (write_state r src) s dests) = console s.
Proof. revert s. induction dests as [|d dests IH]; intros s; [done|]. cbn. by rewrite IH. Qed.

Lemma fanout_nextblock dests s :
  nextblock (foldl (write_state r src) s dests)
  = (nextblock s + length dests)%nat.
Proof.
  revert s. induction dests as [|d dests IH]; intros s; cbn; [lia|].
  rewrite IH. cbn. lia.
Qed.

Lemma fanout_ring_sq dests s :
  ring_sq (foldl (write_state r src) s dests)
  = ring_sq s ++ write_subs (nextblock s) dests.
Proof.
  revert s. induction dests as [|d dests IH]; intros s; cbn.
  - by rewrite app_nil_r.
  - rewrite IH. cbn. by rewrite <- app_assoc.
Qed.

Lemma fanout_ring_pending dests s :
  ring_pending (foldl (write_state r src) s dests)
  = ring_pending s ++ write_subs (nextblock s) dests.
Proof.
  revert s. induction dests as [|d dests IH]; intros s; cbn.
  - by rewrite app_nil_r.
  - rewrite IH. cbn. by rewrite <- app_assoc.
Qed.

Lemma fanout_heap_old dests s p :
  (p < nextblock s)%nat →
  heap (foldl (write_state r src) s dests) !! p = heap s !! p.
Proof.
  revert s. induction dests as [|d dests IH]; intros s Hp; [done|].
  cbn. rewrite IH by (cbn; lia). cbn. by rewrite lookup_insert_ne by lia.
Qed.

Lemma fanout_heap_new dests s i d :
  dests !! i = Some d →
  heap (foldl (write_state r src) s dests) !! (nextblock s + i)%nat
  = Some (write_req r src d (nextblock s + i)).
Proof.
  revert s i. induction dests as [|d' dests IH]; intros s i Hi; [done|].
  destruct i as [|i]; cbn in *.
  - simplify_eq. rewrite fanout_heap_old by (cbn; lia). cbn.
    rewrite Nat.add_0_r. by rewrite lookup_insert_eq.
  - replace (nextblock s + S i)%nat with (S (nextblock s) + i)%nat by lia.
    by apply (IH (write_state r src s d')).
Qed.

Lemma fanout_heap_above dests s p :
  (nextblock s + length dests ≤ p)%nat →
  heap (foldl (write_state r src) s dests) !! p = heap s !! p.
Proof.
  revert s. induction dests as [|d dests IH]; intros s Hp; [done|].
  cbn in *. rewrite IH by (cbn; lia). cbn. by rewrite lookup_insert_ne by lia.
Qed.
End fanout.

(** ** The fan-out targets *)

Lemma elem_of_fanout_targets (table : list Z) (fd d : Z) :
  d ∈ fanout_targets table fd
  ↔ 0 ≤ d < NUM_CONNS ∧ is_active table d ∧ d ≠ fd.
Proof.
  unfold fanout_targets, targets_among.
  rewrite list_elem_of_filter, elem_of_seqZ. intuition lia.
Qed.

Lemma StronglySorted_seqZ (m n : Z) : StronglySorted Z.lt (seqZ m n).
Proof.
  remember (Z.to_nat n) as k eqn:Hk. revert m n Hk.
  induction k as [|k IH]; intros m n Hk.
  - rewrite seqZ_nil by lia. constructor.
  - rewrite seqZ_cons by lia. constructor.
    + apply IH. lia.
    + apply Forall_forall. intros x Hx%elem_of_seqZ. lia.
Qed.

Lemma StronglySorted_filter {A} (R : relation A) (P : A → Prop)
    `{!∀ x, Decision (P x)} (l : list A) :
  StronglySorted R l → StronglySorted R (filter P l).
Proof.
  induction 1 as [|x l Hl IH Hx]; [constructor|].
  rewrite filter_cons. case_decide; [|done].
  constructor; [done|].
  apply Forall_forall. intros y [_ Hy]%list_elem_of_filter.
  by eapply Forall_forall in Hx.
Qed.

Lemma fanout_targets_sorted (table : list Z) (fd : Z) :
  StronglySorted Z.lt (fanout_targets table fd).
Proof. apply StronglySorted_filter, StronglySorted_seqZ. Qed.

Lemma loop_fault_None (table : list Z) (fd r : Z) (src : list cell) (ds : list Z) :
  Forall (λ d, in_bounds table d = true) ds →
  copy_fits r src = true →
  loop_fault table fd r src ds = None.
Proof.
  intros Hds Hfit. induction Hds as [|d ds Hd _ IH]; [done|].
  cbn. rewrite Hd, Hfit. by destruct (_ && _).
Qed.

Lemma in_bounds_seqZ (table : list Z) :
  length table = Z.to_nat NUM_CONNS →
  Forall (λ d, in_bounds table d = true) (seqZ 0 NUM_CONNS).
Proof.
  intros Hlen. apply Forall_forall. intros d Hd%elem_of_seqZ.
  unfold in_bounds.
  rewrite !andb_true_iff, bool_decide_eq_true, Z.leb_le, Z.ltb_lt. lia.
Qed.

Lemma copy_fits_true (r : Z) (src : list cell) :
  0 < r ≤ IOBUF_SIZE →
  length src = Z.to_nat IOBUF_SIZE →
  copy_fits r src = true.
Proof.
  intros Hr Hlen. unfold copy_fits. rewrite length_fresh_iobuf, Hlen.
  unfold IOBUF_SIZE in *. rewrite !andb_true_iff, !Z.leb_le. lia.
Qed.

Lemma take_memcpy_cells (dst src : list cell) (n : nat) :
  (n ≤ length src)%nat →
  take n (memcpy_cells dst src n) = take n src.
Proof.
  intros Hn. unfold memcpy_cells.
  rewrite take_app_le by (rewrite length_take; lia).
  rewrite take_take. f_equal. lia.
Qed.

Lemma length_memcpy_cells (dst src : list cell) (n : nat) :
  (n ≤ length src)%nat → (n ≤ length dst)%nat →
  length (memcpy_cells dst src n) = length dst.
Proof.
  intros Hs Hd. unfold memcpy_cells.
  rewrite length_app, length_take, length_drop. lia.
Qed.

Lemma submitted_between_app (s s' : state) (new : list submission) :
  ring_sq s' = ring_sq s ++ new → submitted_between s s' = new.
Proof. intros H. unfold submitted_between. by rewrite H, drop_app_length. Qed.

(** The read branch with a positive result, under the conditions that
    keep the fan-out defined. *)
Lemma dispatch_read_positive (s : state) (req : ptr) (rreq : yc_io_request_t)
    (fd r : Z) :
  length (conns s) = Z.to_nat NUM_CONNS →
  heap s !! req = Some (ObjIo rreq) →
  ycr_req rreq = mk_req YCR_KIND_READ fd →
  0 < r ≤ IOBUF_SIZE →
  length (ycr_iobuf rreq) = Z.to_nat IOBUF_SIZE →
  dispatch (mk_cqe req r) s
  = Ok (pushed (read_sub fd req)
          (foldl (write_state r (ycr_iobuf rreq))
             (printed (stdout_read fd
                         (precision_s (Z.to_nat r) (ycr_iobuf rreq))) s)
             (fanout_targets (conns s) fd))).
Proof.
  intros Hlen Hreq Hhdr Hr Hbuf. unfold dispatch. cbn [user_data res].
  rewrite Hreq. cbn [header]. rewrite Hhdr. cbn [ycr_event ycr_fd].
  rewrite !bool_decide_eq_false_2 by lia.
  rewrite loop_fault_None; [done | by apply in_bounds_seqZ | by apply copy_fits_true].
Qed.

Lemma transmitted_write_req (h : gmap nat object) (r : Z) (src : list cell)
    (d : Z) (w : ptr) :
  0 ≤ r → (Z.to_nat r ≤ length src)%nat →
  h !! w = Some (write_req r src d w) →
  transmitted h (write_sub d w) = Some (take (Z.to_nat r) src).
Proof.
  intros Hr Hlen Hw. unfold transmitted. cbn. rewrite Hw. cbn. rewrite Hw. cbn.
  by rewrite take_memcpy_cells.
Qed.

(** ** One dispatcher step against the table *)

(** Case analysis on a successful [dispatch]: one goal for each branch of
    the table, with the post-state in closed form. *)
Ltac dispatch_cases H Hlive :=
  unfold dispatch, disconnect in H; rewrite Hlive in H; revert H;
  destruct (ycr_event (header _)) eqn:?;
  repeat (case_bool_decide; try lia);
  repeat (case_match; try done); intros ?; simplify_eq.

Lemma dispatch_live (c : io_uring_cqe) (s s' : state) :
  dispatch c s = Ok s' → is_Some (heap s !! user_data c).
Proof.
  unfold dispatch. by destruct (heap s !! user_data c); [eexists|].
Qed.

Lemma dispatch_submissions (c : io_uring_cqe) (s s' : state) (o : object) :
  dispatch c s = Ok s' →
  heap s !! user_data c = Some o →
  ring_sq s' = ring_sq s ++ expected_submissions s (user_data c) o (res c).
Proof.
  intros H Hlive. unfold expected_submissions.
  dispatch_cases H Hlive; cbn;
    rewrite ?bool_decide_eq_true_2, ?bool_decide_eq_false_2 by lia;
    rewrite <- ?app_assoc, ?app_nil_r; try done.
  rewrite fanout_ring_sq. cbn. by rewrite <- app_assoc.
Qed.

Lemma dispatch_conns (c : io_uring_cqe) (s s' : state) (o : object) :
  dispatch c s = Ok s' →
  heap s !! user_data c = Some o →
  conns s' = expected_conns s o (res c).
Proof.
  intros H Hlive. unfold expected_conns.
  dispatch_cases H Hlive; cbn;
    rewrite ?bool_decide_eq_true_2, ?bool_decide_eq_false_2 by lia;
    try done.
  by rewrite fanout_conns.
Qed.

Lemma dispatch_record (c : io_uring_cqe) (s s' : state) (o : object) :
  heap_wf s →
  dispatch c s = Ok s' →
  heap s !! user_data c = Some o →
  heap s' !! user_data c = if rearms o (res c) then Some o else None.
Proof.
  intros Hwf H Hlive. unfold rearms.
  assert (user_data c < nextblock s)%nat as Hlt by exact (Hwf _ _ Hlive).
  dispatch_cases H Hlive; cbn;
    rewrite ?bool_decide_eq_true_2, ?bool_decide_eq_false_2 by lia;
    rewrite ?lookup_insert_ne, ?lookup_delete_eq by lia; try done.
  by rewrite fanout_heap_old.
Qed.

(** ** Preservation of the invariant by the elementary state changes *)

Lemma sub_ok_agree (h h' : gmap nat object) (sub : submission) :
  h' !! sqe_data sub = h !! sqe_data sub →
  sub_ok h sub → sub_ok h' sub.
Proof.
  unfold sub_ok. intros Heq.
  destruct (sqe sub); intros H; destruct_and?; subst; rewrite ?Heq; eauto.
Qed.

Lemma Forall_sub_ok_agree (h h' : gmap nat object) (l : list submission) :
  (∀ p, p ∈ sqe_data <$> l → h' !! p = h !! p) →
  Forall (sub_ok h) l → Forall (sub_ok h') l.
Proof.
  intros Heq Hl. apply Forall_forall. intros sub Hsub.
  apply (sub_ok_agree h); [|by eapply Forall_forall in Hl].
  apply Heq. apply list_elem_of_fmap. eauto.
Qed.

Section elementary.
Context (extra : list ptr) (s : state).

Lemma inv_printed line : inv_with extra s → inv_with extra (printed line s).
Proof. intros []. by constructor. Qed.

Lemma inv_marked i v : inv_with extra s → inv_with extra (marked i v s).
Proof. intros []. constructor; try done. cbn. by rewrite length_insert. Qed.

Lemma inv_fresh : inv_with extra s → nextblock s ∉ extra ++ pending_data s.
Proof.
  intros [_ Hwf _ Hlive _] Hin. apply Hlive in Hin as [o Ho].
  pose proof (Hwf _ _ Ho) as Hlt. cbn in Hlt. lia.
Qed.

Lemma inv_alloc_push o sub :
  inv_with extra s →
  sqe_data sub = nextblock s →
  sub_ok (<[nextblock s := o]> (heap s)) sub →
  inv_with extra (pushed sub (allocated o s)).
Proof.
  intros Hinv Hdata Hsub. pose proof (inv_fresh Hinv) as Hfresh.
  destruct Hinv as [Hlen Hwf Hnd Hlive Hsubs].
  constructor; cbn; try done.
  - intros p o' Hp. cbn in Hp |- *.
    destruct (decide (p = nextblock s)) as [->|Hne]; [lia|].
    rewrite lookup_insert_ne in Hp by done.
    pose proof (Hwf _ _ Hp) as Hlt. cbn in Hlt. lia.
  - unfold pending_data. cbn. rewrite fmap_app. cbn. rewrite Hdata.
    rewrite app_assoc. apply NoDup_app. split_and!; [done| |apply NoDup_singleton].
    intros p Hp ->%list_elem_of_singleton. done.
  - intros p. unfold pending_data. cbn. rewrite fmap_app. cbn. rewrite Hdata.
    rewrite app_assoc, elem_of_app, list_elem_of_singleton, <- Hlive.
    destruct (decide (p = nextblock s)) as [->|Hne].
    + rewrite lookup_insert_eq. split; eauto.
    + rewrite lookup_insert_ne by done. split; [eauto | by intros [|]].
  - apply Forall_app. split; [|by repeat constructor].
    eapply Forall_sub_ok_agree; [|done]. intros p Hp.
    apply lookup_insert_ne. intros <-. apply Hfresh.
    apply elem_of_app. by right.
Qed.
End elementary.

Lemma inv_released (p : ptr) (s : state) :
  inv_with [p] s → inv (released p s).
Proof.
  intros [Hlen Hwf Hnd Hlive Hsubs].
  apply NoDup_cons in Hnd as [Hnotin Hnd].
  constructor; cbn; try done.
  - intros q o Hq. cbn in Hq |- *. apply lookup_delete_Some in Hq as [_ Hq].
    exact (Hwf _ _ Hq).
  - intros q. rewrite lookup_delete_is_Some, Hlive. cbn.
    rewrite elem_of_cons. split; [intros [? [|]]; done|].
    intros Hq. split; [by intros -> | by right].
  - eapply Forall_sub_ok_agree; [|done]. intros q Hq.
    apply lookup_delete_ne. by intros <-.
Qed.

Lemma inv_requeue (p : ptr) (s : state) (sub : submission) :
  inv_with [p] s →
  sqe_data sub = p →
  sub_ok (heap s) sub →
  inv (pushed sub s).
Proof.
  intros [Hlen Hwf Hnd Hlive Hsubs] Hdata Hsub.
  constructor; cbn; try done.
  - unfold pending_data. cbn. rewrite fmap_app. cbn. rewrite Hdata.
    cbn in Hnd. apply NoDup_cons in Hnd as [Hnotin Hnd].
    apply NoDup_app. split_and!; [done| |apply NoDup_singleton].
    by intros q Hq ->%list_elem_of_singleton.
  - intros q. rewrite Hlive. unfold pending_data. cbn. rewrite fmap_app. cbn.
    rewrite Hdata, elem_of_cons, elem_of_app, list_elem_of_singleton. tauto.
  - apply Forall_app. split; [done | by repeat constructor].
Qed.

Lemma inv_fanout (extra : list ptr) (r : Z) (src : list cell)
    (dests : list Z) (s : state) :
  inv_with extra s →
  Forall in_range dests →
  0 < r ≤ IOBUF_SIZE →
  length src = Z.to_nat IOBUF_SIZE →
  inv_with extra (foldl (write_state r src) s dests).
Proof.
  intros Hinv Hdests Hr Hsrc. revert s Hinv.
  induction Hdests as [|d dests Hd _ IH]; intros s Hinv; [done|].
  cbn [foldl]. apply IH. apply inv_alloc_push; [done | done |].
  unfold sub_ok. cbn. split_and!; [done | done |].
  eexists. rewrite lookup_insert_eq. split; [reflexivity|]. cbn.
  split_and!; [done | done | lia | lia |].
  rewrite length_memcpy_cells; rewrite ?length_fresh_iobuf; try done.
  all: unfold IOBUF_SIZE in *; lia.
Qed.

Lemma fanout_targets_in_range (table : list Z) (fd : Z) :
  Forall in_range (fanout_targets table fd).
Proof.
  apply Forall_forall. intros d Hd%elem_of_fanout_targets.
  unfold in_range. tauto.
Qed.

Lemma in_range_in_bounds (table : list Z) (fd : Z) :
  length table = Z.to_nat NUM_CONNS → in_range fd →
  in_bounds table fd = true.
Proof.
  unfold in_range, in_bounds. intros Hlen Hfd.
  rewrite !andb_true_iff, bool_decide_eq_true, Z.leb_le, Z.ltb_lt. lia.
Qed.

Lemma in_bounds_in_range (table : list Z) (fd : Z) :
  in_bounds table fd = true → in_range fd.
Proof.
  unfold in_range, in_bounds.
  rewrite !andb_true_iff, Z.leb_le, Z.ltb_lt. tauto.
Qed.

Lemma inv_disconnect (req : ptr) (fd : Z) (line : output) (s : state) :
  inv_with [req] s → in_range fd →
  ∃ s', disconnect req fd line s = Ok s' ∧ inv s'.
Proof.
  intros Hinv Hfd. unfold disconnect.
  rewrite in_range_in_bounds by (done || apply Hinv).
  eexists. split; [done|].
  apply inv_marked, inv_alloc_push; [|done|].
  - by apply inv_released, inv_printed.
  - unfold sub_ok. cbn. split; [done|]. by rewrite lookup_insert_eq.
Qed.

(** Handling the completion of a pending submission keeps the invariant
    and meets no undefined behaviour. *)
Lemma inv_dispatch (sub : submission) (r : Z) (s : state) :
  inv_with [sqe_data sub] s →
  sub_ok (heap s) sub →
  match sqe sub with
  | prep_accept _ _ => r < NUM_CONNS
  | prep_readv _ _ => r ≤ IOBUF_SIZE
  | _ => True
  end →
  ∃ s', dispatch (mk_cqe (sqe_data sub) r) s = Ok s' ∧ inv s'.
Proof.
  intros Hinv Hsub Hr. pose proof (inv_conns _ _ Hinv) as Hlen.
  unfold sub_ok in Hsub. unfold dispatch. cbn [user_data res].
  destruct (sqe sub) as [fd addr|fd iovecs|fd iovecs|fd] eqn:Hsqe.
  - (* accept *)
    destruct Hsub as (-> & areq & Hlive & Hhdr).
    rewrite Hlive. cbn [header]. rewrite Hhdr. cbn [ycr_event ycr_fd].
    assert (sub_ok (heap s) (accept_sub fd (sqe_data sub))) as Hre.
    { unfold sub_ok. cbn. eauto. }
    case_bool_decide as Hneg.
    + eexists. split; [done|].
      eapply (inv_requeue (sqe_data sub)); [by apply inv_printed | done | done].
    + rewrite in_range_in_bounds by (done || unfold in_range; lia).
      eexists. split; [done|].
      pose proof (inv_fresh _ _ Hinv) as Hfresh.
      assert (sqe_data sub ≠ nextblock s) as Hne.
      { intros Heq. apply Hfresh. rewrite <- Heq. apply elem_of_app. left.
        by apply list_elem_of_singleton. }
      eapply (inv_requeue (sqe_data sub)); [|done|].
      * apply inv_alloc_push; [by apply inv_marked, inv_printed | done |].
        unfold sub_ok. cbn. split_and!; [done | unfold in_range; lia |].
        eexists. rewrite lookup_insert_eq. split; [reflexivity|]. cbn.
        split_and!; [done | done | apply length_fresh_iobuf].
      * eapply sub_ok_agree; [|done]. cbn. by rewrite lookup_insert_ne.
  - (* read *)
    destruct Hsub as (-> & Hfd & rreq & Hlive & Hhdr & Hiov & Hbuf).
    rewrite Hlive. cbn [header]. rewrite Hhdr. cbn [ycr_event ycr_fd].
    case_bool_decide as Hneg; [by apply inv_disconnect|].
    case_bool_decide as Hzero; [by apply inv_disconnect|].
    rewrite loop_fault_None;
      [| by apply in_bounds_seqZ | apply copy_fits_true; [lia | done]].
    eexists. split; [done|].
    eapply (inv_requeue (sqe_data sub)); [|done|].
    + apply inv_fanout; [by apply inv_printed | apply fanout_targets_in_range | lia | done].
    + unfold sub_ok. cbn. split_and!; [done..|].
      exists rreq. rewrite fanout_heap_old; [done|].
      exact (inv_heap_wf _ _ Hinv _ _ Hlive).
  - (* write *)
    destruct Hsub as (-> & Hfd & wreq & Hlive & Hhdr & _).
    rewrite Hlive. cbn [header]. rewrite Hhdr. cbn [ycr_event ycr_fd].
    case_bool_decide as Hneg; [by apply inv_disconnect|].
    eexists. split; [done|]. by apply inv_released.
  - (* close *)
    destruct Hsub as (Hfd & Hlive). rewrite Hlive. cbn.
    eexists. split; [done|]. by apply inv_released.
Qed.

(** ** The kernel side *)

Lemma take_pending_Some (p : ptr) (l rest : list submission) (sub : submission) :
  take_pending p l = Some (sub, rest) →
  sqe_data sub = p ∧ l ≡ₚ sub :: rest.
Proof.
  revert rest. induction l as [|x l IH]; intros rest; [done|].
  cbn. case_bool_decide as Hx.
  - intros [= -> ->]. done.
  - destruct (take_pending p l) as [[found rest']|]; [|done].
    cbn. intros [= -> <-]. destruct (IH rest') as [Hd Hp]; [done|].
    split; [done|]. rewrite Hp. apply perm_swap.
Qed.

Lemma inv_completed (s : state) (sub : submission) (rest : list submission) :
  inv s →
  ring_pending s ≡ₚ sub :: rest →
  inv_with [sqe_data sub] (completed rest s)
  ∧ sub_ok (heap s) sub.
Proof.
  intros [Hlen Hwf Hnd Hlive Hsubs] Hperm.
  assert (pending_data s ≡ₚ sqe_data sub :: (sqe_data <$> rest)) as Hdata.
  { unfold pending_data. by rewrite Hperm. }
  rewrite Hperm in Hsubs. apply Forall_cons in Hsubs as [Hsub Hrest].
  split; [|done]. constructor; cbn; try done.
  - cbn in Hnd. by rewrite Hdata in Hnd.
  - intros p. rewrite Hlive. cbn. by rewrite Hdata.
Qed.

Lemma inv_stored (p : ptr) (o : object) (s : state) :
  inv_with [p] s →
  inv_with [p] (stored p o s).
Proof.
  intros [Hlen Hwf Hnd Hlive Hsubs].
  assert (is_Some (heap s !! p)) as [o0 Ho0].
  { apply Hlive. apply elem_of_app. left. by apply list_elem_of_singleton. }
  apply NoDup_cons in Hnd as Hnd'. destruct Hnd' as [Hnotin _].
  constructor; cbn; try done.
  - intros q o' Hq. cbn in Hq |- *.
    destruct (decide (q = p)) as [->|Hne]; [exact (Hwf _ _ Ho0)|].
    rewrite lookup_insert_ne in Hq by done. exact (Hwf _ _ Hq).
  - intros q. rewrite <- Hlive.
    destruct (decide (q = p)) as [->|Hne].
    + rewrite lookup_insert_eq. split; eauto.
    + by rewrite lookup_insert_ne.
  - eapply Forall_sub_ok_agree; [|done]. intros q Hq.
    apply lookup_insert_ne. by intros <-.
Qed.

Lemma same_but_heap_refl (s : state) : same_but_heap s s.
Proof. by repeat split. Qed.

Lemma kernel_stores_spec (c : completion) (sub : submission) (s : state) :
  inv_with [sqe_data sub] s →
  sub_ok (heap s) sub →
  match kernel_stores sub (res (cqe c)) (effect c) s with
  | Ok (_, s1) =>
      inv_with [sqe_data sub] s1 ∧ sub_ok (heap s1) sub
      ∧ same_but_heap s s1 ∧ result_ok c sub
  | Fault f => env_fault f
  end.
Proof.
  intros Hinv Hsub. unfold kernel_stores, result_ok, check.
  pose proof Hsub as Hsub'. unfold sub_ok in Hsub'.
  destruct (sqe sub) as [fd addr|fd iovecs|fd iovecs|fd] eqn:Hsqe,
    (effect c) as [|bs|peer] eqn:Heff; try exact I.
  - (* accept, failed *)
    case_bool_decide; [|exact I]. cbn.
    split_and!; [done | done | apply same_but_heap_refl | done].
  - (* accept, peer address stored *)
    destruct Hsub' as (-> & areq & Hlive & Hhdr).
    unfold load_accept, load, store, mbind, M_bind, mret, M_ret, fail.
    case_bool_decide; [|exact I]. rewrite Hlive. cbn. rewrite Hlive.
    split_and!.
    + by apply inv_stored.
    + unfold sub_ok. rewrite Hsqe. split; [done|]. cbn.
      rewrite lookup_insert_eq. eauto.
    + repeat split. intros p. cbn.
      destruct (decide (p = sqe_data sub)) as [->|Hne].
      * by rewrite lookup_insert_eq, Hlive.
      * by rewrite lookup_insert_ne.
    + done.
  - (* read, nothing stored *)
    case_bool_decide; [|exact I]. cbn.
    split_and!; [done | done | apply same_but_heap_refl | done].
  - (* read, bytes stored *)
    destruct Hsub' as (-> & Hfd & rreq & Hlive & Hhdr & Hiov & Hbuf).
    unfold load_io, load, store, mbind, M_bind, mret, M_ret, fail.
    rewrite Hlive. cbn. rewrite Hiov. cbn.
    case_bool_decide as Hres; [|exact I]. cbn. rewrite Hlive. cbn.
    rewrite bool_decide_eq_true_2 by (unfold IOBUF_SIZE in *; lia).
    cbn. rewrite Hlive.
    refine (conj _ (conj _ (conj _ _))).
    + by apply inv_stored.
    + unfold sub_ok. rewrite Hsqe. split_and!; [done | done |]. cbn.
      rewrite lookup_insert_eq. eexists. split; [reflexivity|]. cbn.
      split_and!; [done | done |].
      rewrite length_app, length_fmap, length_drop.
      unfold IOBUF_SIZE in *. lia.
    + repeat split. intros p. cbn.
      destruct (decide (p = sqe_data sub)) as [->|Hne].
      * by rewrite lookup_insert_eq, Hlive.
      * by rewrite lookup_insert_ne.
    + lia.
  - (* write *)
    destruct Hsub' as (-> & Hfd & wreq & Hlive & _).
    unfold load_io, load, mbind, M_bind, mret, M_ret, fail.
    rewrite Hlive. cbn.
    case_bool_decide; [|exact I].
    split_and!; [done | done | apply same_but_heap_refl | done].
  - (* close *)
    case_bool_decide; [|exact I]. cbn.
    split_and!; [done | done | apply same_but_heap_refl | done].
Qed.

Lemma wait_cqe_spec (c : completion) (s : state) :
  inv s →
  match io_uring_wait_cqe c s with
  | Ok (e, s1) =>
      e = cqe c
      ∧ ∃ sub, sqe_data sub = user_data e ∧ sub ∈ ring_pending s
          ∧ inv_with [sqe_data sub] s1 ∧ sub_ok (heap s1) sub
          ∧ same_but_heap s s1 ∧ result_ok c sub
  | Fault f => env_fault f
  end.
Proof.
  intros Hinv. unfold io_uring_wait_cqe, get_state, set_pending.
  unfold mbind at 1, M_bind at 1.
  destruct (take_pending _ _) as [[sub rest]|] eqn:Htake; [|exact I].
  apply take_pending_Some in Htake as [Hdata Hperm].
  destruct (inv_completed s sub rest Hinv Hperm) as [Hmid Hsub].
  unfold mbind, M_bind, mret, M_ret.
  pose proof (kernel_stores_spec c sub (completed rest s) Hmid Hsub) as Hk.
  destruct (kernel_stores _ _ _ _) as [[[] s1]|f]; [|done].
  destruct Hk as (Hinv1 & Hsub1 & Hsame & Hres).
  split; [done|]. exists sub. split_and!; try done.
  rewrite Hperm. apply list_elem_of_here.
Qed.

(** One iteration, split at the point where the handler takes over. *)
Lemma iteration_split (c : completion) (s s' : state) :
  inv s →
  exec (iteration c) s = Ok s' →
  ∃ s1 sub, sqe_data sub = user_data (cqe c) ∧ sub ∈ ring_pending s
    ∧ inv_with [sqe_data sub] s1 ∧ sub_ok (heap s1) sub
    ∧ same_but_heap s s1 ∧ result_ok c sub
    ∧ dispatch (cqe c) s1 = Ok s'.
Proof.
  intros Hinv. unfold iteration, exec. rewrite bind_unfold.
  pose proof (wait_cqe_spec c s Hinv) as Hw.
  destruct (io_uring_wait_cqe c s) as [[e s1]|f]; [|done].
  destruct Hw as (-> & sub & Hdata & Hin & Hmid & Hsub & Hsame & Hres).
  intros Hrun. exists s1, sub. split_and!; try done.
  rewrite <- handle_cqe_dispatch by apply Hmid. exact Hrun.
Qed.

(** Every iteration keeps the invariant; the only faults are those of an
    environment that breaks the contract of the ring. *)
Lemma inv_iteration (c : completion) (s : state) :
  inv s → accept_in_range c →
  match exec (iteration c) s with
  | Ok s' => inv s'
  | Fault f => env_fault f
  end.
Proof.
  intros Hinv Hacc. unfold iteration, exec. rewrite bind_unfold.
  pose proof (wait_cqe_spec c s Hinv) as Hw.
  destruct (io_uring_wait_cqe c s) as [[e s1]|f]; [|done].
  destruct Hw as (-> & sub & Hdata & Hin & Hmid & Hsub & Hsame & Hres).
  unfold result_ok in Hres. unfold accept_in_range in Hacc.
  destruct (cqe c) as [p r] eqn:Hc. cbn in Hdata, Hres, Hacc. subst p.
  destruct (inv_dispatch sub r s1 Hmid Hsub) as (s' & Hd & Hinv').
  { destruct (sqe sub), (effect c); try done;
      rewrite ?NUM_CONNS_val; unfold IOBUF_SIZE in *; lia. }
  pose proof (handle_cqe_dispatch (mk_cqe (sqe_data sub) r) s1
                (inv_heap_wf _ _ Hmid)) as Heq.
  rewrite Hd in Heq. unfold exec in Heq.
  destruct (handle_cqe _ s1) as [[[] s'']|f]; by simplify_eq.
Qed.

Lemma inv_run (cs : list completion) (s : state) :
  inv s → Forall accept_in_range cs →
  match run cs s with
  | Ok s' => inv s'
  | Fault f => env_fault f
  end.
Proof.
  intros Hinv Hcs. revert s Hinv.
  induction Hcs as [|c cs Hc _ IH]; intros s Hinv; [done|].
  cbn. pose proof (inv_iteration c s Hinv Hc) as Hit.
  destruct (exec (iteration c) s) as [s'|f]; [by apply IH | done].
Qed.

Lemma inv_init (server_fd : Z) : ∃ s0, init server_fd = Ok s0 ∧ inv s0.
Proof.
  eexists. split; [reflexivity|]. cbn.
  constructor; cbn.
  - apply length_replicate.
  - intros p o Hp. cbn in Hp |- *.
    apply lookup_insert_Some in Hp as [[<- _]|[_ Hp]]; [lia | done].
  - apply NoDup_singleton.
  - intros p. rewrite list_elem_of_singleton.
    destruct (decide (p = 1%nat)) as [->|Hne].
    + rewrite lookup_insert_eq. split; eauto.
    + rewrite lookup_insert_ne by done. rewrite lookup_empty.
      split; [intros [? ?]; done | intros Heq; by destruct Hne].
  - apply Forall_singleton. unfold sub_ok. cbn. split; [done|].
    rewrite lookup_insert_eq. eauto.
Qed.

(** An iteration that did not fault keeps the invariant, whatever the
    environment delivered. *)
Lemma inv_iteration_Ok (c : completion) (s s' : state) :
  inv s → exec (iteration c) s = Ok s' → inv s'.
Proof.
  intros Hinv Hrun.
  destruct (iteration_split c s s' Hinv Hrun)
    as (s1 & sub & Hdata & Hin & Hmid & Hsub & Hsame & Hres & Hd).
  unfold result_ok in Hres.
  destruct (cqe c) as [p r] eqn:Hc. cbn in Hdata, Hres. subst p.
  assert (match sqe sub with
          | prep_accept _ _ => r < NUM_CONNS
          | prep_readv _ _ => r ≤ IOBUF_SIZE
          | _ => True
          end) as Hr.
  { destruct (sqe sub) as [fd addr| | |] eqn:Hsqe; [|by destruct (effect c); try (unfold IOBUF_SIZE in *; lia)|done..].
    destruct (decide (r < NUM_CONNS)) as [|Hbig]; [done|]. exfalso.
    unfold sub_ok in Hsub. rewrite Hsqe in Hsub.
    destruct Hsub as (-> & areq & Hlive & Hhdr).
    unfold dispatch in Hd. cbn in Hd. rewrite Hlive in Hd. cbn in Hd.
    rewrite Hhdr in Hd. cbn in Hd.
    rewrite bool_decide_eq_false_2 in Hd by (rewrite NUM_CONNS_val in Hbig; lia).
    destruct (in_bounds (conns s1) r) eqn:Hb; [|done].
    apply in_bounds_in_range in Hb. unfold in_range in Hb. lia. }
  destruct (inv_dispatch sub r s1 Hmid Hsub Hr) as (s'' & Hd' & Hinv').
  by replace s' with s'' by congruence.
Qed.

Lemma inv_run_Ok (cs : list completion) (s s' : state) :
  inv s → run cs s = Ok s' → inv s'.
Proof.
  revert s. induction cs as [|c cs IH]; intros s Hinv; cbn.
  - by intros [= <-].
  - destruct (exec (iteration c) s) as [s1|f] eqn:Hit; [|done].
    apply IH. by eapply inv_iteration_Ok.
Qed.

(** ** Submissions of one step *)

Lemma filter_none {A} (P : A → Prop) `{!∀ x, Decision (P x)} (l : list A) :
  Forall (λ x, ¬ P x) l → filter P l = [].
Proof.
  induction 1 as [|x l Hx _ IH]; [done|].
  by rewrite filter_cons_False.
Qed.

Lemma elem_of_write_subs (sub : submission) (nb : ptr) (dests : list Z) :
  sub ∈ write_subs nb dests →
  ∃ i d, dests !! i = Some d ∧ sub = write_sub d (nb + i).
Proof.
  unfold write_subs. intros [i Hi]%list_elem_of_lookup.
  apply lookup_zip_with_Some in Hi as (d & w & -> & Hd & Hw).
  apply lookup_seq in Hw as [-> _]. eauto.
Qed.

Lemma write_subs_not_accept (nb : ptr) (dests : list Z) :
  filter (λ sub, is_accept sub) (write_subs nb dests) = [].
Proof.
  apply filter_none, Forall_forall.
  intros sub (i & d & _ & ->)%elem_of_write_subs. cbn. tauto.
Qed.

Lemma write_subs_not_carrying (req nb : ptr) (dests : list Z) :
  (req < nb)%nat →
  filter (λ sub, sqe_data sub = req) (write_subs nb dests) = [].
Proof.
  intros Hlt. apply filter_none, Forall_forall.
  intros sub (i & d & _ & ->)%elem_of_write_subs. cbn. lia.
Qed.

Lemma expected_accepts (s : state) (req : ptr) (o : object) (r : Z) :
  length (filter (λ sub, is_accept sub) (expected_submissions s req o r))
  = if bool_decide (ycr_event (header o) = YCR_KIND_ACCEPT) then 1%nat else 0%nat.
Proof.
  unfold expected_submissions.
  destruct (ycr_event (header o)); repeat case_bool_decide; try done.
  by rewrite filter_app, write_subs_not_accept.
Qed.

Lemma header_lookup (h h1 : gmap nat object) (p : ptr) (o1 : object) :
  header <$> h1 !! p = header <$> h !! p →
  h1 !! p = Some o1 →
  ∃ o, h !! p = Some o ∧ header o = header o1.
Proof.
  intros Heq Ho1. rewrite Ho1 in Heq. cbn in Heq.
  destruct (h !! p) as [o|]; [|done]. exists o. by simplify_eq/=.
Qed.

(** One iteration seen from its start state [s]: the record completed,
    as it was in [s], and the handler's state [s1] after the kernel's
    stores. *)
Lemma iteration_table (c : completion) (s s' : state) :
  inv s →
  exec (iteration c) s = Ok s' →
  ∃ s1 o o1,
    heap s !! user_data (cqe c) = Some o
    ∧ heap s1 !! user_data (cqe c) = Some o1
    ∧ header o1 = header o
    ∧ same_but_heap s s1 ∧ heap_wf s1
    ∧ dispatch (cqe c) s1 = Ok s'.
Proof.
  intros Hinv Hrun.
  destruct (iteration_split c s s' Hinv Hrun)
    as (s1 & sub & Hdata & Hin & Hmid & Hsub & Hsame & Hres & Hd).
  destruct (dispatch_live _ _ _ Hd) as [o1 Ho1].
  destruct Hsame as (Hc & Hn & Hq & Hl & Hh).
  destruct (header_lookup _ _ _ _ (Hh _) Ho1) as (o & Ho & Hhdr).
  exists s1, o, o1. split_and!; try done. apply Hmid.
Qed.

Lemma dispatch_accept_bounds (c : io_uring_cqe) (s s' : state) (o : object) :
  dispatch c s = Ok s' →
  heap s !! user_data c = Some o →
  ycr_event (header o) = YCR_KIND_ACCEPT →
  0 ≤ res c →
  in_bounds (conns s) (res c) = true.
Proof.
  intros H Hlive Hk Hr. dispatch_cases H Hlive; congruence.
Qed.

Lemma is_active_marked (table : list Z) (fd v : Z) :
  in_bounds table fd = true →
  is_active (<[Z.to_nat fd := v]> table) fd = bool_decide (v ≠ 0).
Proof.
  unfold in_bounds, is_active.
  rewrite !andb_true_iff, bool_decide_eq_true. intros [_ Hlt].
  by rewrite list_lookup_insert_eq.
Qed.

Lemma is_active_cleared (table : list Z) (fd : Z) :
  is_active (<[Z.to_nat fd := 0]> table) fd = false.
Proof.
  unfold is_active.
  destruct (decide (Z.to_nat fd < length table)%nat) as [Hlt|Hge].
  - by rewrite list_lookup_insert_eq.
  - rewrite list_insert_ge by lia.
    by rewrite lookup_ge_None_2 by lia.
Qed.

(** ** The main loop *)

Lemma dispatch_console_negative (c : io_uring_cqe) (s s' : state) (o : object) :
  dispatch c s = Ok s' →
  heap s !! user_data c = Some o →
  res c < 0 →
  console s' = console s ++ error_line (header o) (res c).
Proof.
  intros H Hlive Hr. unfold error_line.
  dispatch_cases H Hlive; cbn; by rewrite ?app_nil_r.
Qed.

Lemma main_loop_exit (ws : list wait) (s : state) (code : Z) :
  main_loop ws s = Exit code
  ↔ code = 1
    ∧ ∃ ws1 w ws2 s',
        ws = ws1 ++ w :: ws2
        ∧ Forall (λ w, 0 ≤ wait_ret w) ws1
        ∧ run (wait_cqe <$> ws1) s = Ok s'
        ∧ wait_ret w < 0.
Proof.
  revert s. induction ws as [|w ws IH]; intros s; cbn.
  - split; [done|]. intros (_ & ws1 & w & ws2 & s' & Heq & _).
    by destruct ws1.
  - case_bool_decide as Hret.
    + destruct (exec (iteration (wait_cqe w)) s) as [s1|f] eqn:Hit.
      * rewrite IH. split.
        -- intros (-> & ws1 & w' & ws2 & s' & -> & Hall & Hrun & Hneg).
           split; [done|]. exists (w :: ws1), w', ws2, s'.
           split_and!; try done; [constructor; [lia | done]|].
           cbn. by rewrite Hit.
        -- intros (-> & ws1 & w' & ws2 & s' & Heq & Hall & Hrun & Hneg).
           split; [done|]. destruct ws1 as [|w1 ws1]; simplify_eq/=; [lia|].
           rewrite Hit in Hrun. apply Forall_cons in Hall as [_ Hall].
           by exists ws1, w', ws2, s'.
      * split; [done|].
        intros (_ & ws1 & w' & ws2 & s' & Heq & Hall & Hrun & Hneg).
        destruct ws1 as [|w1 ws1]; simplify_eq/=; [lia|].
        by rewrite Hit in Hrun.
    + split.
      * intros [= <-]. split; [done|]. exists [], w, ws, s.
        split_and!; try done. lia.
      * by intros (-> & _).
Qed.

Lemma main_setup_fails (env : environment) (ws : list wait) :
  setup_fails env → main env ws = Exit 1.
Proof.
  unfold setup_fails, main. intros H.
  repeat (case_bool_decide; [done|]). lia.
Qed.

Lemma main_setup_ok (env : environment) (ws : list wait) :
  ¬ setup_fails env →
  ∃ s0, init (socket_ret env) = Ok s0 ∧ main env ws = main_loop ws s0.
Proof.
  unfold setup_fails, main. intros H.
  repeat (case_bool_decide; [lia|]). eexists. split; reflexivity.
Qed.

(** ** Buffers of the fan-out writes *)

Lemma loop_fault_copy_fits (table : list Z) (fd r : Z) (src : list cell)
    (ds : list Z) :
  loop_fault table fd r src ds = None →
  targets_among table fd ds ≠ [] →
  copy_fits r src = true.
Proof.
  induction ds as [|d ds IH]; [done|].
  cbn [loop_fault]. rewrite targets_among_cons.
  destruct (in_bounds table d); [|done].
  destruct (is_active table d && bool_decide (d ≠ fd)); [|done].
  by destruct (copy_fits r src).
Qed.

Lemma dispatch_read_positive_inv (c : io_uring_cqe) (s s' : state)
    (rreq : yc_io_request_t) :
  dispatch c s = Ok s' →
  heap s !! user_data c = Some (ObjIo rreq) →
  ycr_event (ycr_req rreq) = YCR_KIND_READ →
  0 < res c →
  let fd := ycr_fd (ycr_req rreq) in
  let src := ycr_iobuf rreq in
  s' = pushed (read_sub fd (user_data c))
         (foldl (write_state (res c) src)
            (printed (stdout_read fd (precision_s (Z.to_nat (res c)) src)) s)
            (fanout_targets (conns s) fd))
  ∧ (fanout_targets (conns s) fd ≠ [] → copy_fits (res c) src = true).
Proof.
  intros H Hlive Hk Hr. unfold dispatch in H. rewrite Hlive in H.
  cbn [header] in H. rewrite Hk in H.
  rewrite !bool_decide_eq_false_2 in H by lia.
  destruct (loop_fault _ _ _ _ _) eqn:Hloop; [done|].
  injection H as <-. split; [done|].
  by apply loop_fault_copy_fits.
Qed.

Lemma transmitted_frame (h : gmap nat object) (sub : submission) (fd : Z)
    (w p : ptr) (wreq : yc_io_request_t) :
  sqe sub = prep_writev fd w →
  h !! w = Some (ObjIo wreq) →
  iov_base (ycr_iovec wreq) = w →
  p ≠ w →
  (∀ o, transmitted (<[p := o]> h) sub = transmitted h sub)
  ∧ transmitted (delete p h) sub = transmitted h sub.
Proof.
  intros Hsqe Hw Hbase Hne. unfold transmitted. rewrite Hsqe. split.
  - intros o. rewrite lookup_insert_ne, Hw by done. cbn.
    by rewrite Hbase, lookup_insert_ne, Hw.
  - rewrite lookup_delete_ne, Hw by done. cbn.
    by rewrite Hbase, lookup_delete_ne, Hw.
Qed.

Lemma NoDup_fmap_eq {A B} (f : A → B) (l : list A) (x y : A) :
  NoDup (f <$> l) → x ∈ l → y ∈ l → f x = f y → x = y.
Proof.
  induction l as [|a l IH]; cbn; [by intros _ ?%elem_of_nil|].
  intros [Hnotin Hnd]%NoDup_cons Hx Hy Hf.
  apply elem_of_cons in Hx as [->|Hx], Hy as [->|Hy]; try done.
  - exfalso. apply Hnotin. rewrite Hf. by apply list_elem_of_fmap_2.
  - exfalso. apply Hnotin. rewrite <- Hf. by apply list_elem_of_fmap_2.
  - by apply IH.
Qed.

(** * The claims *)

(** C1. When a Read on connection [fd] completes with a positive result
    [r], the dispatcher submits one Write for every other active
    connection and for no other handle, in ascending handle order, each
    sending exactly the first [r] bytes of the Read buffer, and after them
    one Read on [fd] that reuses the completed record. *)
Theorem read_completion_fans_out (s : state) (req : ptr)
    (rreq : yc_io_request_t) (fd r : Z) :
  heap_wf s →
  length (conns s) = Z.to_nat NUM_CONNS →
  heap s !! req = Some (ObjIo rreq) →
  ycr_req rreq = mk_req YCR_KIND_READ fd →
  0 < r ≤ IOBUF_SIZE →
  length (ycr_iobuf rreq) = Z.to_nat IOBUF_SIZE →
  ∃ s', handle_cqe (mk_cqe req r) s = Ok (tt, s')
    ∧ let dests := fanout_targets (conns s) fd in
      (∀ d, d ∈ dests ↔ 0 ≤ d < NUM_CONNS ∧ is_active (conns s) d ∧ d ≠ fd)
      ∧ StronglySorted Z.lt dests
      ∧ submitted_between s s'
        = write_subs (nextblock s) dests ++ [read_sub fd req]
      ∧ (∀ sub, sub ∈ write_subs (nextblock s) dests →
           transmitted (heap s') sub
           = Some (take (Z.to_nat r) (ycr_iobuf rreq)))
      ∧ heap s' !! req = Some (ObjIo rreq).
Proof.
  intros Hwf Hlen Hreq Hhdr Hr Hbuf.
  eexists. split.
  { apply exec_unit. rewrite handle_cqe_dispatch by done.
    by apply dispatch_read_positive. }
  cbn zeta.
  assert (req < nextblock s)%nat as Hlt by exact (Hwf req _ Hreq).
  split_and!.
  - apply elem_of_fanout_targets.
  - apply fanout_targets_sorted.
  - apply submitted_between_app. cbn.
    rewrite fanout_ring_sq. cbn. by rewrite <- app_assoc.
  - intros sub Hsub. unfold write_subs in Hsub.
    apply list_elem_of_lookup in Hsub as [i Hi].
    apply lookup_zip_with_Some in Hi as (d & w & -> & Hd & Hw).
    apply lookup_seq in Hw as [-> _]. cbn [heap pushed].
    apply transmitted_write_req; [lia | lia |].
    exact (fanout_heap_new _ _ _ (printed _ s) i d Hd).
  - cbn. by rewrite fanout_heap_old by done.
Qed.

Lemma read_completion_fans_out_witness :
  ∃ s', handle_cqe (mk_cqe 3%nat 2) three_clients = Ok (tt, s')
    ∧ submitted_between three_clients s'
      = [write_sub 5 5%nat; write_sub 7 6%nat; read_sub 6 3%nat].
Proof.
  destruct (read_completion_fans_out three_clients 3%nat
              (mk_io_req (mk_req YCR_KIND_READ 6) (mk_iovec 3%nat IOBUF_SIZE)
                 ([Some x68; Some x69] ++ drop 2 fresh_iobuf)) 6 2)
    as (s' & Hrun & _ & _ & Hsub & _).
  - apply (bool_decide_unpack (heap_wf three_clients)). vm_compute. exact I.
  - vm_compute. reflexivity.
  - vm_compute. reflexivity.
  - reflexivity.
  - unfold IOBUF_SIZE. lia.
  - vm_compute. reflexivity.
  - exists s'. split; [exact Hrun|]. rewrite Hsub. vm_compute. reflexivity.
Defined.

(** C2, as worded, fails: the read branch re-submits the Read on the
    completed handle without looking at [conns[fd]].  Here descriptor 5 is
    marked inactive by a failed Write; the Read that was outstanding on it
    then completes with two bytes, and is submitted again. *)
Lemma late_read_is_rearmed : ¬ quiet_once_inactive.
Proof.
  intros H.
  apply (H 3 [accepted 1 5; accepted 1 6]
           [received 3 [x68; x69]; finished 4 (-32)]
           (received 2 [x79; x6f])
           (state_after [])
           (state_after [accepted 1 5; accepted 1 6])
           (state_after [accepted 1 5; accepted 1 6;
                         received 3 [x68; x69]; finished 4 (-32)])
           (state_after [accepted 1 5; accepted 1 6;
                         received 3 [x68; x69]; finished 4 (-32);
                         received 2 [x79; x6f]])
           5 (read_sub 5 2%nat)); try (vm_compute; reflexivity).
  apply (bool_decide_unpack _). vm_compute. exact I.
Qed.

(** C2, amended. While a handle is marked inactive no Write is submitted
    against it: every Write submitted by a step is a fan-out Write of a
    Read completion with a positive result, and goes to a handle that is
    marked active when the step begins and is not the handle of that Read.
    A Read is submitted only for the handle just returned by a successful
    Accept, or to re-arm the Read that completed with a positive result;
    this re-arm does not consult the active flag. *)
Theorem writes_only_to_active_handles (listener : Z) (cs : list completion)
    (c : completion) (s0 s s' : state) (sub : submission) :
  init listener = Ok s0 →
  run cs s0 = Ok s →
  exec (iteration c) s = Ok s' →
  sub ∈ submitted_between s s' →
  ∃ o, heap s !! user_data (cqe c) = Some o
    ∧ let r := res (cqe c) in
      (∀ fd p, sqe sub = prep_writev fd p →
         is_active (conns s) fd = true
         ∧ ycr_event (header o) = YCR_KIND_READ ∧ 0 < r
         ∧ fd ≠ ycr_fd (header o))
      ∧ (∀ fd p, sqe sub = prep_readv fd p →
           (ycr_event (header o) = YCR_KIND_ACCEPT ∧ 0 ≤ r ∧ fd = r)
           ∨ (ycr_event (header o) = YCR_KIND_READ ∧ 0 < r
              ∧ fd = ycr_fd (header o) ∧ p = user_data (cqe c))).
Proof.
  intros Hinit Hrun Hit Hsub.
  destruct (inv_init listener) as (s0' & Hinit' & Hinv0).
  rewrite Hinit in Hinit'. injection Hinit' as <-.
  pose proof (inv_run_Ok _ _ _ Hinv0 Hrun) as Hinv.
  destruct (iteration_table c s s' Hinv Hit)
    as (s1 & o & o1 & Ho & Ho1 & Hhdr & Hsame & Hwf & Hd).
  destruct Hsame as (Hconns & Hnb & Hsq & _).
  exists o. split; [done|]. cbn zeta.
  pose proof (dispatch_submissions _ _ _ _ Hd Ho1) as Hs.
  rewrite Hsq in Hs. apply submitted_between_app in Hs. rewrite Hs in Hsub.
  unfold expected_submissions in Hsub. rewrite Hhdr, Hconns in Hsub.
  destruct (ycr_event (header o)) eqn:Hk; repeat case_bool_decide;
    rewrite ?elem_of_app, ?elem_of_cons, ?elem_of_nil in Hsub.
  - destruct Hsub as [->|[]]. split; intros fd p [=].
  - destruct Hsub as [->|[->|[]]]; split; intros fd p [=]; subst.
    left. split_and!; [done | lia | done].
  - destruct Hsub as [->|[]]. split; intros fd p [=].
  - destruct Hsub as [Hw|[->|[]]].
    + apply elem_of_write_subs in Hw as (i & d & Hd' & ->).
      assert (d ∈ fanout_targets (conns s) (ycr_fd (header o))) as Hin
        by (apply list_elem_of_lookup; eauto).
      apply elem_of_fanout_targets in Hin as (_ & Hact & Hne).
      split; intros fd p [=]; subst.
      split_and!; [by apply Is_true_true | done | lia | done].
    + split; intros fd p [=]; subst. right. split_and!; [done | lia | done | done].
  - destruct Hsub as [->|[]]. split; intros fd p [=].
  - done.
  - done.
Qed.

Lemma writes_only_to_active_handles_witness :
  let s := state_after [accepted 1 5; accepted 1 6;
                        received 3 [x68; x69]; finished 4 (-32)] in
  ∃ o, heap s !! 2%nat = Some o
    ∧ let r := 2 in
      (∀ fd p, sqe (write_sub 6 6%nat) = prep_writev fd p →
         is_active (conns s) fd = true
         ∧ ycr_event (header o) = YCR_KIND_READ ∧ 0 < r
         ∧ fd ≠ ycr_fd (header o))
      ∧ (∀ fd p, sqe (write_sub 6 6%nat) = prep_readv fd p →
           (ycr_event (header o) = YCR_KIND_ACCEPT ∧ 0 ≤ r ∧ fd = r)
           ∨ (ycr_event (header o) = YCR_KIND_READ ∧ 0 < r
              ∧ fd = ycr_fd (header o) ∧ p = 2%nat)).
Proof.
  apply (writes_only_to_active_handles 3
           [accepted 1 5; accepted 1 6;
            received 3 [x68; x69]; finished 4 (-32)]
           (received 2 [x79; x6f])
           (state_after [])
           (state_after [accepted 1 5; accepted 1 6;
                         received 3 [x68; x69]; finished 4 (-32)])
           (state_after [accepted 1 5; accepted 1 6;
                         received 3 [x68; x69]; finished 4 (-32);
                         received 2 [x79; x6f]])
           (write_sub 6 6%nat)); try (vm_compute; reflexivity).
  apply (bool_decide_unpack _). vm_compute. exact I.
Defined.

(** C3. After a run that processed [K] Accept completions, successful or
    not, exactly [K + 1] Accept operations have been submitted: the one
    submitted before the loop and one re-submission per completion. *)
Theorem accept_always_rearmed (listener : Z) (cs : list completion)
    (s0 s : state) :
  init listener = Ok s0 →
  run cs s0 = Ok s →
  accepts_submitted s = S (accept_completions cs s0).
Proof.
  intros Hinit Hrun.
  destruct (inv_init listener) as (s0' & Hinit' & Hinv).
  rewrite Hinit in Hinit'. injection Hinit' as <-.
  assert (accepts_submitted s0 = 1%nat) as H0.
  { unfold init in Hinit. cbn in Hinit. by injection Hinit as <-. }
  enough (accepts_submitted s
          = (accepts_submitted s0 + accept_completions cs s0)%nat) by lia.
  clear H0 Hinit. revert s0 Hinv Hrun.
  induction cs as [|c cs IH]; intros s0 Hinv Hrun; cbn in Hrun |- *.
  - injection Hrun as <-. lia.
  - destruct (exec (iteration c) s0) as [s1|f] eqn:Hit; [|done].
    rewrite (IH s1) by (done || by eapply inv_iteration_Ok).
    destruct (iteration_table c s0 s1 Hinv Hit)
      as (sm & o & o1 & Ho & Ho1 & Hhdr & Hsame & Hwf & Hd).
    destruct Hsame as (_ & _ & Hsq & _).
    unfold accepts_submitted at 1.
    rewrite (dispatch_submissions _ _ _ _ Hd Ho1), Hsq, filter_app, length_app.
    rewrite expected_accepts, Hhdr.
    unfold completes_accept. rewrite Ho. unfold accepts_submitted. lia.
Qed.

Lemma accept_always_rearmed_witness :
  let cs := [accepted 1 5; finished 1 (-24); accepted 1 6;
             received 2 [x68; x69]; finished 4 2] in
  accepts_submitted (state_after cs)
  = S (accept_completions cs (state_after []))
  ∧ accept_completions cs (state_after []) = 3%nat.
Proof.
  split.
  - apply (accept_always_rearmed 3); vm_compute; reflexivity.
  - vm_compute. reflexivity.
Defined.

(** C4. Along every execution, an entry of the connection table changes
    only in three ways: it becomes 1 as the effect of an Accept completion
    with a nonnegative result, for the accepted handle; it becomes 0 as the
    effect of a Read completion with a negative or zero result, for the
    handle of that Read; it becomes 0 as the effect of a Write completion
    with a negative result, for the handle of that Write. *)
Theorem active_flag_changes (listener : Z) (cs : list completion)
    (c : completion) (s0 s s' : state) (i : nat) (v : Z) :
  init listener = Ok s0 →
  run cs s0 = Ok s →
  exec (iteration c) s = Ok s' →
  conns s' !! i = Some v →
  conns s !! i ≠ Some v →
  ∃ o, heap s !! user_data (cqe c) = Some o
    ∧ let r := res (cqe c) in
      let fd := ycr_fd (header o) in
      (ycr_event (header o) = YCR_KIND_ACCEPT ∧ 0 ≤ r
       ∧ i = Z.to_nat r ∧ v = 1)
      ∨ (ycr_event (header o) = YCR_KIND_READ ∧ (r < 0 ∨ r = 0)
         ∧ i = Z.to_nat fd ∧ v = 0)
      ∨ (ycr_event (header o) = YCR_KIND_WRITE ∧ r < 0
         ∧ i = Z.to_nat fd ∧ v = 0).
Proof.
  intros Hinit Hrun Hit Hnew Hold.
  destruct (inv_init listener) as (s0' & Hinit' & Hinv0).
  rewrite Hinit in Hinit'. injection Hinit' as <-.
  pose proof (inv_run_Ok _ _ _ Hinv0 Hrun) as Hinv.
  destruct (iteration_table c s s' Hinv Hit)
    as (s1 & o & o1 & Ho & Ho1 & Hhdr & Hsame & Hwf & Hd).
  destruct Hsame as (Hconns & _).
  exists o. split; [done|]. cbn zeta.
  rewrite (dispatch_conns _ _ _ _ Hd Ho1) in Hnew.
  unfold expected_conns in Hnew. rewrite Hconns, Hhdr in Hnew.
  destruct (ycr_event (header o)); repeat case_bool_decide; try done;
    apply list_lookup_insert_Some in Hnew as [(<- & <- & _)|[_ Hnew]];
    try done; [left | right; left | right; right]; split_and!; try done; lia.
Qed.

Lemma active_flag_changes_witness :
  ∃ o, heap (state_after [accepted 1 5]) !! 2%nat = Some o
    ∧ let r := 0 in
      let fd := ycr_fd (header o) in
      (ycr_event (header o) = YCR_KIND_ACCEPT ∧ 0 ≤ r
       ∧ 5%nat = Z.to_nat r ∧ 0 = 1)
      ∨ (ycr_event (header o) = YCR_KIND_READ ∧ (r < 0 ∨ r = 0)
         ∧ 5%nat = Z.to_nat fd ∧ 0 = 0)
      ∨ (ycr_event (header o) = YCR_KIND_WRITE ∧ r < 0
         ∧ 5%nat = Z.to_nat fd ∧ 0 = 0).
Proof.
  apply (active_flag_changes 3 [accepted 1 5] (finished 2 0)
           (state_after []) (state_after [accepted 1 5])
           (state_after [accepted 1 5; finished 2 0]) 5 0).
  - vm_compute. reflexivity.
  - vm_compute. reflexivity.
  - vm_compute. reflexivity.
  - vm_compute. reflexivity.
  - vm_compute. discriminate.
Defined.

(** C5, as worded, fails in one respect: a Close completion with a
    negative result is not logged.  The close case of the dispatcher only
    frees the request. *)
Lemma close_failure_is_silent : ¬ negative_results_are_logged.
Proof.
  intros H.
  apply (H 3 [accepted 1 5; finished 2 0] (finished 3 (-5)) (state_after [])
           (state_after [accepted 1 5; finished 2 0])
           (state_after [accepted 1 5; finished 2 0; finished 3 (-5)]));
    vm_compute; reflexivity.
Qed.

(** C5, amended. The process exits only with code 1, and it does so
    exactly when a setup step fails (too few arguments, a port that is not
    positive, or a failure of socket, setsockopt, bind, listen or the
    initialisation of the ring) or when the wait for the next completion
    fails.  A completion with a negative result, of whatever kind, does not
    end the loop: the next completion is waited for, no table entry other
    than that of the request's handle changes, and the failure is written
    to [stderr] when the request is an Accept, a Read or a Write; a failed
    Close is not reported. *)
Theorem exit_status_and_negative_results (env : environment) (ws : list wait) :
  (∀ code, main env ws = Exit code → code = 1)
  ∧ (main env ws = Exit 1
     ↔ setup_fails env
       ∨ ∃ ws1 w ws2 s0 s,
           ws = ws1 ++ w :: ws2
           ∧ init (socket_ret env) = Ok s0
           ∧ Forall (λ w, 0 ≤ wait_ret w) ws1
           ∧ run (wait_cqe <$> ws1) s0 = Ok s
           ∧ wait_ret w < 0)
  ∧ (∀ cs s0 s w rest,
       init (socket_ret env) = Ok s0 →
       run cs s0 = Ok s →
       0 ≤ wait_ret w →
       res (cqe (wait_cqe w)) < 0 →
       match exec (iteration (wait_cqe w)) s with
       | Ok s' =>
           main_loop (w :: rest) s = main_loop rest s'
           ∧ ∃ o, heap s !! user_data (cqe (wait_cqe w)) = Some o
               ∧ console s'
                 = console s ++ error_line (header o) (res (cqe (wait_cqe w)))
               ∧ ∀ i, i ≠ Z.to_nat (ycr_fd (header o)) →
                      conns s' !! i = conns s !! i
       | Fault f => env_fault f
       end).
Proof.
  split_and!.
  - intros code. destruct (decide (setup_fails env)) as [Hf|Hok].
    + rewrite main_setup_fails by done. by intros [= <-].
    + destruct (main_setup_ok env ws Hok) as (s0 & _ & ->).
      by intros (-> & _)%main_loop_exit.
  - destruct (decide (setup_fails env)) as [Hf|Hok].
    + rewrite main_setup_fails by done. split; [by left | done].
    + destruct (main_setup_ok env ws Hok) as (s0 & Hinit & ->).
      rewrite main_loop_exit. split.
      * intros (_ & ws1 & w & ws2 & s & Hrest). right.
        exists ws1, w, ws2, s0, s. tauto.
      * intros [Hf|(ws1 & w & ws2 & s0' & s & Heq & Hinit' & Hrest)]; [done|].
        split; [done|]. rewrite Hinit in Hinit'. injection Hinit' as <-.
        by exists ws1, w, ws2, s.
  - intros cs s0 s w rest Hinit Hrun Hret Hneg.
    destruct (inv_init (socket_ret env)) as (s0' & Hinit' & Hinv0).
    rewrite Hinit in Hinit'. injection Hinit' as <-.
    pose proof (inv_run_Ok _ _ _ Hinv0 Hrun) as Hinv.
    assert (accept_in_range (wait_cqe w)) as Hacc.
    { unfold accept_in_range. destruct (effect _); try done.
      rewrite NUM_CONNS_val. lia. }
    pose proof (inv_iteration _ _ Hinv Hacc) as Hit.
    destruct (exec (iteration (wait_cqe w)) s) as [s'|f] eqn:Hexec; [|done].
    split.
    { cbn. rewrite bool_decide_eq_true_2 by lia. by rewrite Hexec. }
    destruct (iteration_table _ s s' Hinv Hexec)
      as (s1 & o & o1 & Ho & Ho1 & Hhdr & Hsame & Hwf & Hd).
    destruct Hsame as (Hconns & _ & _ & Hconsole & _).
    exists o. split_and!; [done | |].
    + rewrite (dispatch_console_negative _ _ _ _ Hd Ho1 Hneg).
      by rewrite Hconsole, Hhdr.
    + intros i Hi. rewrite (dispatch_conns _ _ _ _ Hd Ho1).
      unfold expected_conns. rewrite Hhdr, Hconns.
      destruct (ycr_event (header o)); repeat case_bool_decide;
        try done; try lia; by rewrite list_lookup_insert_ne.
Qed.

Lemma exit_status_and_negative_results_witness :
  let s := state_after [accepted 1 5; accepted 1 6; received 3 [x68; x69]] in
  let w := mk_wait 0 (finished 4 (-32)) in
  main good_env [w; mk_wait (-4) (finished 1 0)] ≠ Exit 0
  ∧ match exec (iteration (wait_cqe w)) s with
    | Ok s' =>
        main_loop [w] s = main_loop [] s'
        ∧ ∃ o, heap s !! user_data (cqe (wait_cqe w)) = Some o
            ∧ console s'
              = console s ++ error_line (header o) (res (cqe (wait_cqe w)))
            ∧ ∀ i, i ≠ Z.to_nat (ycr_fd (header o)) →
                   conns s' !! i = conns s !! i
    | Fault f => env_fault f
    end.
Proof.
  destruct (exit_status_and_negative_results good_env
              [mk_wait 0 (finished 4 (-32)); mk_wait (-4) (finished 1 0)])
    as (Hcode & _ & Hneg).
  split.
  - intros Hexit. by apply Hcode in Hexit.
  - apply (Hneg [accepted 1 5; accepted 1 6; received 3 [x68; x69]]
             (state_after [])).
    + vm_compute. reflexivity.
    + vm_compute. reflexivity.
    + cbn. lia.
    + cbn. lia.
Defined.

(** C6, as worded, fails: the Accept completion sets [conns[res] = 1]
    before any Read on the new connection has completed, so a connection
    whose first Read returns zero has been active in between. *)
Lemma zero_byte_connection_was_active : ¬ zero_bytes_never_active.
Proof.
  intros H.
  specialize (H 3 [] (state_after []) (state_after [])
                (state_after [accepted 1 5])
                (state_after [accepted 1 5; finished 2 0])
                1%nat 5 (mk_sockaddr_in 2130706433 40000)).
  vm_compute in H. by specialize (H eq_refl eq_refl eq_refl eq_refl).
Qed.

Lemma run_split (pre post : list completion) (s s' : state) :
  run (pre ++ post) s = Ok s' →
  ∃ sp, run pre s = Ok sp ∧ run post sp = Ok s'.
Proof.
  revert s. induction pre as [|c pre IH]; intros s Hrun.
  - by exists s.
  - cbn in Hrun |- *. destruct (exec (iteration c) s) as [s1|f]; [|done].
    by apply IH.
Qed.

Lemma tally_split (f : state → completion → bool)
    (pre post : list completion) (s sp : state) :
  run pre s = Ok sp →
  tally f (pre ++ post) s = (tally f pre s + tally f post sp)%nat.
Proof.
  revert s. induction pre as [|c pre IH]; intros s Hrun; cbn in Hrun |- *.
  - by injection Hrun as <-.
  - destruct (exec (iteration c) s) as [s1|e]; [|done].
    rewrite (IH s1 Hrun). lia.
Qed.

Lemma dispatch_disconnect_bounds (c : io_uring_cqe) (s s' : state)
    (o : object) :
  dispatch c s = Ok s' →
  heap s !! user_data c = Some o →
  (ycr_event (header o) = YCR_KIND_READ ∧ res c ≤ 0)
  ∨ (ycr_event (header o) = YCR_KIND_WRITE ∧ res c < 0) →
  in_bounds (conns s) (ycr_fd (header o)) = true.
Proof.
  intros Hd Ho Hcase. unfold dispatch in Hd. rewrite Ho in Hd.
  destruct Hcase as [[Hk Hr]|[Hk Hr]]; rewrite Hk in Hd.
  - destruct (decide (res c < 0)) as [Hneg|Hzero].
    + rewrite bool_decide_eq_true_2 in Hd by done.
      unfold disconnect in Hd.
      by destruct (in_bounds (conns s) (ycr_fd (header o))).
    + rewrite bool_decide_eq_false_2 in Hd by done.
      rewrite bool_decide_eq_true_2 in Hd by lia.
      unfold disconnect in Hd.
      by destruct (in_bounds (conns s) (ycr_fd (header o))).
  - rewrite bool_decide_eq_true_2 in Hd by done.
    unfold disconnect in Hd.
    by destruct (in_bounds (conns s) (ycr_fd (header o))).
Qed.

Lemma is_active_other (table : list Z) (d fd v : Z) :
  0 ≤ d → 0 ≤ fd → d ≠ fd →
  is_active (<[Z.to_nat d := v]> table) fd = is_active table fd.
Proof.
  intros Hd Hfd Hne. unfold is_active.
  by rewrite list_lookup_insert_ne by lia.
Qed.

(** A handle stays active over a completion that does not disconnect it. *)
Lemma active_step (fd : Z) (c : completion) (s s' : state) :
  inv s →
  exec (iteration c) s = Ok s' →
  in_range fd →
  disconnects_handle fd s c = false →
  is_active (conns s) fd = true →
  is_active (conns s') fd = true.
Proof.
  intros Hinv Hit Hfd Hquiet Hact.
  destruct (iteration_table c s s' Hinv Hit)
    as (s1 & o & o1 & Ho & Ho1 & Hhdr & Hsame & Hwf & Hd).
  destruct Hsame as (Hconns & _).
  rewrite (dispatch_conns _ _ _ _ Hd Ho1). unfold expected_conns.
  unfold disconnects_handle, disconnects, completed_kind in Hquiet.
  rewrite Ho in Hquiet. cbn in Hquiet.
  rewrite Hhdr, Hconns. unfold in_range in Hfd.
  destruct (ycr_event (header o)) eqn:Hk.
  - destruct (bool_decide (res (cqe c) < 0)) eqn:Hr; [done|].
    apply bool_decide_eq_false in Hr.
    assert (in_bounds (conns s1) (res (cqe c)) = true) as Hb.
    { apply (dispatch_accept_bounds _ _ _ _ Hd Ho1); [congruence | lia]. }
    destruct (decide (res (cqe c) = fd)) as [Heq|Hne].
    + rewrite Hconns, Heq in Hb. rewrite Heq, is_active_marked by exact Hb.
      by apply bool_decide_eq_true_2.
    + apply in_bounds_in_range in Hb. unfold in_range in Hb.
      by rewrite is_active_other by lia.
  - destruct (bool_decide (res (cqe c) ≤ 0)) eqn:Hr; [|done].
    apply bool_decide_eq_true in Hr. cbn in Hquiet.
    apply bool_decide_eq_false in Hquiet.
    assert (in_bounds (conns s1) (ycr_fd (header o1)) = true) as Hb.
    { apply (dispatch_disconnect_bounds _ _ _ _ Hd Ho1). left.
      split; [congruence | done]. }
    apply in_bounds_in_range in Hb. unfold in_range in Hb.
    rewrite Hhdr in Hb. by rewrite is_active_other by lia.
  - destruct (bool_decide (res (cqe c) < 0)) eqn:Hr; [|done].
    apply bool_decide_eq_true in Hr. cbn in Hquiet.
    apply bool_decide_eq_false in Hquiet.
    assert (in_bounds (conns s1) (ycr_fd (header o1)) = true) as Hb.
    { apply (dispatch_disconnect_bounds _ _ _ _ Hd Ho1). right.
      split; [congruence | done]. }
    apply in_bounds_in_range in Hb. unfold in_range in Hb.
    rewrite Hhdr in Hb. by rewrite is_active_other by lia.
  - done.
Qed.

Lemma active_run (fd : Z) (cs : list completion) (s s' : state) :
  inv s →
  in_range fd →
  run cs s = Ok s' →
  tally (disconnects_handle fd) cs s = 0%nat →
  is_active (conns s) fd = true →
  is_active (conns s') fd = true.
Proof.
  intros Hinv Hfd. revert s Hinv.
  induction cs as [|c cs IH]; intros s Hinv Hrun Hquiet Hact;
    cbn in Hrun, Hquiet.
  - by injection Hrun as <-.
  - destruct (exec (iteration c) s) as [s1|e] eqn:Hit; [|done].
    destruct (disconnects_handle fd s c) eqn:Hc; [lia|].
    apply (IH s1); [by eapply inv_iteration_Ok | done | lia |].
    by apply (active_step fd c s s1).
Qed.

Lemma write_subs_lookup (nb : ptr) (dests : list Z) (i : nat) (d : Z) :
  dests !! i = Some d → write_sub d (nb + i) ∈ write_subs nb dests.
Proof.
  intros Hi. unfold write_subs. apply list_elem_of_lookup. exists i.
  rewrite lookup_zip_with, Hi. cbn.
  rewrite lookup_seq_lt by (by eapply lookup_lt_Some). done.
Qed.

(** A chunk read from another handle is sent to every active handle. *)
Lemma chunk_reaches (fd : Z) (c : completion) (s s' : state) (o : object) :
  inv s →
  exec (iteration c) s = Ok s' →
  heap s !! user_data (cqe c) = Some o →
  ycr_event (header o) = YCR_KIND_READ →
  ycr_fd (header o) ≠ fd →
  0 < res (cqe c) →
  in_range fd →
  is_active (conns s) fd = true →
  ∃ w, write_sub fd w ∈ submitted_between s s'.
Proof.
  intros Hinv Hit Ho Hk Hne Hr Hfd Hact.
  destruct (iteration_table c s s' Hinv Hit)
    as (s1 & o' & o1 & Ho' & Ho1 & Hhdr & Hsame & Hwf & Hd).
  rewrite Ho in Ho'. injection Ho' as <-.
  destruct Hsame as (Hconns & Hnb & Hsq & _).
  pose proof (dispatch_submissions _ _ _ _ Hd Ho1) as Hs.
  rewrite Hsq in Hs. apply submitted_between_app in Hs. rewrite Hs.
  unfold expected_submissions. rewrite Hhdr, Hk.
  rewrite bool_decide_eq_false_2 by lia.
  assert (fd ∈ fanout_targets (conns s1) (ycr_fd (header o))) as Hin.
  { apply elem_of_fanout_targets. rewrite Hconns.
    split; [exact Hfd|]. split; [by apply Is_true_true | done]. }
  apply list_elem_of_lookup in Hin as [i Hi].
  exists (nextblock s1 + i)%nat. apply elem_of_app. left.
  by apply write_subs_lookup.
Qed.

(** C6, amended. A connection is marked active by its Accept completion,
    which also submits its first Read.  It stays active as long as no
    completion disconnects its handle (a Read on it with result zero or
    negative, a Write to it with negative result), and as long as it is,
    every chunk read from another handle is written to it.  When a Read
    on it completes with result zero, the handle is marked inactive by
    that completion, the Read record is released and a Close is submitted
    for the handle. *)
Theorem zero_byte_connection_lifecycle (listener : Z)
    (cs cs' : list completion) (s0 s s1 s' s'' : state)
    (areq rreq : ptr) (fd : Z) (peer : sockaddr_in) :
  init listener = Ok s0 →
  run cs s0 = Ok s →
  exec (iteration (mk_completion (mk_cqe areq fd) (stored_peer peer))) s
  = Ok s1 →
  run cs' s1 = Ok s' →
  tally (disconnects_handle fd) cs' s1 = 0%nat →
  header <$> heap s' !! rreq = Some (mk_req YCR_KIND_READ fd) →
  exec (iteration (mk_completion (mk_cqe rreq 0) no_effect)) s' = Ok s'' →
  (is_active (conns s1) fd = true
   ∧ read_sub fd (nextblock s) ∈ submitted_between s s1)
  ∧ (∀ pre post sp,
       cs' = pre ++ post → run pre s1 = Ok sp →
       is_active (conns sp) fd = true)
  ∧ (∀ pre c post sp sp' o,
       cs' = pre ++ c :: post → run pre s1 = Ok sp →
       exec (iteration c) sp = Ok sp' →
       heap sp !! user_data (cqe c) = Some o →
       ycr_event (header o) = YCR_KIND_READ →
       ycr_fd (header o) ≠ fd →
       0 < res (cqe c) →
       ∃ w, write_sub fd w ∈ submitted_between sp sp')
  ∧ (is_active (conns s'') fd = false
     ∧ submitted_between s' s'' = [close_sub fd (nextblock s')]
     ∧ heap s'' !! rreq = None).
Proof.
  intros Hinit Hrun Hacc Hrun' Hquiet Hrreq Hzero.
  destruct (inv_init listener) as (s0' & Hinit' & Hinv0).
  rewrite Hinit in Hinit'. injection Hinit' as <-.
  pose proof (inv_run_Ok _ _ _ Hinv0 Hrun) as Hinv.
  pose proof (inv_iteration_Ok _ _ _ Hinv Hacc) as Hinv1.
  pose proof (inv_run_Ok _ _ _ Hinv1 Hrun') as Hinv'.
  assert (in_range fd ∧ is_active (conns s1) fd = true
          ∧ read_sub fd (nextblock s) ∈ submitted_between s s1)
    as (Hfd & Hact1 & Hread).
  { destruct (iteration_split _ s s1 Hinv Hacc)
      as (sm & sub & Hdata & Hin & Hmid & Hsub & Hsame & Hres & Hd).
    destruct Hsame as (Hconns & Hnb & Hsq & _).
    destruct (dispatch_live _ _ _ Hd) as [o1 Ho1].
    unfold result_ok in Hres. unfold sub_ok in Hsub.
    cbn in Hdata, Hres, Hd, Ho1.
    (* only an accept stores a peer address *)
    destruct (sqe sub) as [lfd addr| | |]; try done.
    destruct Hsub as (-> & areq' & Hlive & Hhdr).
    rewrite Hdata, Ho1 in Hlive. injection Hlive as ->.
    assert (ycr_event (header (ObjAccept areq')) = YCR_KIND_ACCEPT) as Hk
      by (cbn; by rewrite Hhdr).
    pose proof (dispatch_accept_bounds _ _ _ _ Hd Ho1 Hk Hres) as Hb.
    split; [by apply in_bounds_in_range in Hb|]. split.
    + rewrite (dispatch_conns _ _ _ _ Hd Ho1). unfold expected_conns.
      rewrite Hk. cbn [res]. rewrite bool_decide_eq_false_2 by lia.
      by rewrite is_active_marked.
    + pose proof (dispatch_submissions _ _ _ _ Hd Ho1) as Hs.
      rewrite Hsq in Hs. apply submitted_between_app in Hs. rewrite Hs.
      unfold expected_submissions. rewrite Hk. cbn [res].
      rewrite bool_decide_eq_false_2 by lia. rewrite Hnb.
      apply list_elem_of_here. }
  assert (∀ pre post sp,
            cs' = pre ++ post → run pre s1 = Ok sp →
            inv sp ∧ is_active (conns sp) fd = true) as Hstays.
  { intros pre post sp -> Hpre.
    split; [by apply (inv_run_Ok pre s1)|].
    apply (active_run fd pre s1 sp); [done | done | done | | done].
    rewrite (tally_split _ pre post s1 sp Hpre) in Hquiet. lia. }
  split; [done|]. split; [|split].
  - intros pre post sp Hcs Hpre. by apply (Hstays pre post sp).
  - intros pre c post sp sp' o Hcs Hpre Hit Ho Hk Hne Hr.
    destruct (Hstays pre (c :: post) sp Hcs Hpre) as [Hinvp Hactp].
    by apply (chunk_reaches fd c sp sp' o).
  - destruct (iteration_table _ s' s'' Hinv' Hzero)
      as (sm & o & o1 & Ho & Ho1 & Hhdr & Hsame & Hwf & Hd).
    destruct Hsame as (Hconns & Hnb & Hsq & _).
    cbn in Ho, Ho1, Hd. rewrite Ho in Hrreq. injection Hrreq as Hrreq.
    rewrite Hrreq in Hhdr.
    split_and!.
    + rewrite (dispatch_conns _ _ _ _ Hd Ho1). unfold expected_conns.
      rewrite Hhdr. cbn. apply is_active_cleared.
    + pose proof (dispatch_submissions _ _ _ _ Hd Ho1) as Hs.
      rewrite Hsq in Hs. apply submitted_between_app in Hs. rewrite Hs.
      unfold expected_submissions. rewrite Hhdr. cbn. by rewrite Hnb.
    + pose proof (dispatch_record _ _ _ _ Hwf Hd Ho1) as Hrec.
      unfold rearms in Hrec. rewrite Hhdr in Hrec. exact Hrec.
Qed.

Lemma zero_byte_connection_lifecycle_witness :
  let s := state_after [] in
  let s1 := state_after [accepted 1 5] in
  let sp := state_after [accepted 1 5; accepted 1 6] in
  let s' := state_after [accepted 1 5; accepted 1 6; received 3 [x68; x69]] in
  let s'' := state_after [accepted 1 5; accepted 1 6; received 3 [x68; x69];
                          finished 2 0] in
  (is_active (conns s1) 5 = true
   ∧ read_sub 5 (nextblock s) ∈ submitted_between s s1)
  ∧ (is_active (conns sp) 5 = true ∧ is_active (conns s') 5 = true)
  ∧ (∃ w, write_sub 5 w ∈ submitted_between sp s')
  ∧ (is_active (conns s'') 5 = false
     ∧ submitted_between s' s'' = [close_sub 5 (nextblock s')]
     ∧ heap s'' !! 2%nat = None).
Proof.
  destruct (zero_byte_connection_lifecycle 3 []
              [accepted 1 6; received 3 [x68; x69]]
              (state_after [])
              (state_after [])
              (state_after [accepted 1 5])
              (state_after [accepted 1 5; accepted 1 6;
                            received 3 [x68; x69]])
              (state_after [accepted 1 5; accepted 1 6;
                            received 3 [x68; x69]; finished 2 0])
              1%nat 2%nat 5 (mk_sockaddr_in 2130706433 40000))
    as (Hfirst & Hstays & Hchunk & Hlast);
    [vm_compute; reflexivity ..|].
  split; [exact Hfirst|]. split; [|split; [|exact Hlast]].
  - split.
    + apply (Hstays [accepted 1 6] [received 3 [x68; x69]]);
        vm_compute; reflexivity.
    + apply (Hstays [accepted 1 6; received 3 [x68; x69]] []);
        vm_compute; reflexivity.
  - apply (Hchunk [accepted 1 6] (received 3 [x68; x69]) []
             (state_after [accepted 1 5; accepted 1 6])
             (state_after [accepted 1 5; accepted 1 6;
                           received 3 [x68; x69]])
             (read_req 6 3%nat)).
    + reflexivity.
    + vm_compute. reflexivity.
    + vm_compute. reflexivity.
    + vm_compute. reflexivity.
    + reflexivity.
    + discriminate.
    + vm_compute. reflexivity.
Defined.

(** C7. Every Write submitted by a fan-out has a record of its own,
    allocated by that step.  Its [iovec] points at the buffer inside that
    record and has length [r]; the buffer holds a copy of the first [r]
    bytes of the buffer of the Read that completed.  No other pending
    record is the same block, so storing into or releasing the record of
    any other pending request leaves what this Write sends unchanged. *)
Theorem fanout_write_owns_its_buffer (listener : Z) (cs : list completion)
    (c : completion) (s0 s s' : state) (sub : submission) (fd : Z) (w : ptr) :
  init listener = Ok s0 →
  run cs s0 = Ok s →
  exec (iteration c) s = Ok s' →
  sub ∈ submitted_between s s' →
  sqe sub = prep_writev fd w →
  let r := res (cqe c) in
  let req := user_data (cqe c) in
  (heap s !! w = None ∧ sqe_data sub = w ∧ w ≠ req)
  ∧ (∃ wreq rreq,
       heap s' !! w = Some (ObjIo wreq)
       ∧ heap s' !! req = Some (ObjIo rreq)
       ∧ ycr_req wreq = mk_req YCR_KIND_WRITE fd
       ∧ ycr_iovec wreq = mk_iovec w r
       ∧ take (Z.to_nat r) (ycr_iobuf wreq)
         = take (Z.to_nat r) (ycr_iobuf rreq)
       ∧ transmitted (heap s') sub = Some (take (Z.to_nat r) (ycr_iobuf rreq)))
  ∧ (∀ other, other ∈ ring_pending s' → other ≠ sub →
       sqe_data other ≠ w
       ∧ (∀ o, transmitted (<[sqe_data other := o]> (heap s')) sub
               = transmitted (heap s') sub)
       ∧ transmitted (delete (sqe_data other) (heap s')) sub
         = transmitted (heap s') sub).
Proof.
  intros Hinit Hrun Hit Hsub Hsqe r req.
  destruct (inv_init listener) as (s0' & Hinit' & Hinv0).
  rewrite Hinit in Hinit'. injection Hinit' as <-.
  pose proof (inv_run_Ok _ _ _ Hinv0 Hrun) as Hinv.
  pose proof (inv_iteration_Ok _ _ _ Hinv Hit) as Hinv'.
  destruct (iteration_table c s s' Hinv Hit)
    as (s1 & o & o1 & Ho & Ho1 & Hhdr & Hsame & Hwf & Hd).
  destruct Hsame as (Hconns & Hnb & Hsq & _ & Hheaders).
  fold req in Ho, Ho1. fold r.
  (* the step is the read branch with a positive result *)
  pose proof (dispatch_submissions _ _ _ _ Hd Ho1) as Hs.
  rewrite Hsq in Hs. apply submitted_between_app in Hs.
  pose proof Hsub as Hsub'. rewrite Hs in Hsub'.
  unfold expected_submissions in Hsub'. fold req r in Hsub'.
  assert (ycr_event (header o1) = YCR_KIND_READ ∧ 0 < r
          ∧ sub ∈ write_subs (nextblock s1)
                    (fanout_targets (conns s1) (ycr_fd (header o1))))
    as (Hk & Hr & Hw).
  { destruct (ycr_event (header o1)); repeat case_bool_decide;
      rewrite ?elem_of_app, ?elem_of_cons, ?elem_of_nil in Hsub';
      destruct_or?; subst; try done; try discriminate.
    split_and!; [done | lia | done]. }
  apply elem_of_write_subs in Hw as (i & d & Hdest & ->).
  cbn in Hsqe. injection Hsqe as -> <-.
  destruct o1 as [q|rreq|q];
    [unfold dispatch in Hd; fold req in Hd; rewrite Ho1 in Hd; cbn in Hd, Hk;
     rewrite Hk in Hd; by rewrite !bool_decide_eq_false_2 in Hd by lia
    | | unfold dispatch in Hd; fold req in Hd; rewrite Ho1 in Hd; cbn in Hd, Hk;
     rewrite Hk in Hd; by rewrite !bool_decide_eq_false_2 in Hd by lia].
  cbn [header] in Hk, Hdest.
  destruct (dispatch_read_positive_inv _ _ _ _ Hd Ho1 Hk Hr) as [Hs' Hfits].
  cbn zeta in Hs', Hfits. fold req r in Hs', Hfits.
  assert (copy_fits r (ycr_iobuf rreq) = true) as Hfit.
  { apply Hfits. intros Hnil. by rewrite Hnil in Hdest. }
  unfold copy_fits in Hfit. rewrite !andb_true_iff, !Z.leb_le in Hfit.
  assert (req < nextblock s1)%nat as Hlt by exact (Hwf _ _ Ho1).
  assert (heap s' !! (nextblock s1 + i)%nat
          = Some (write_req r (ycr_iobuf rreq) fd (nextblock s1 + i))) as Hnew.
  { rewrite Hs'. cbn [heap pushed].
    exact (fanout_heap_new _ _ _ (printed _ s1) i fd Hdest). }
  assert (heap s' !! req = Some (ObjIo rreq)) as Hold.
  { rewrite Hs'. cbn [heap pushed]. by rewrite fanout_heap_old. }
  split_and!.
  - destruct (heap s !! (nextblock s1 + i)%nat) as [o'|] eqn:Ho'; [|done].
    pose proof (inv_heap_wf _ _ Hinv _ _ Ho') as Hlt'. cbn in Hlt'. lia.
  - done.
  - lia.
  - eexists _, rreq. split_and!; [exact Hnew | done | done | done | |].
    + cbn. apply take_memcpy_cells. lia.
    + apply transmitted_write_req; [lia | lia | done].
  - intros other Hother Hne.
    assert (write_sub fd (nextblock s1 + i) ∈ ring_pending s') as Hpend.
    { rewrite Hs'. cbn [ring_pending pushed]. rewrite fanout_ring_pending.
      rewrite !elem_of_app. left. right. unfold write_subs.
      apply list_elem_of_lookup. exists i.
      apply lookup_zip_with_Some. exists fd, (nextblock s1 + i)%nat.
      split_and!; [done | done |]. apply lookup_seq. split; [done|].
      by eapply lookup_lt_Some. }
    assert (sqe_data other ≠ (nextblock s1 + i)%nat) as Hdiff.
    { intros Heq. apply Hne.
      eapply (NoDup_fmap_eq sqe_data); [apply Hinv' | done | done | done]. }
    split; [done|].
    by apply (transmitted_frame _ _ fd (nextblock s1 + i) _
                (mk_io_req (mk_req YCR_KIND_WRITE fd)
                   (mk_iovec (nextblock s1 + i) r)
                   (memcpy_cells fresh_iobuf (ycr_iobuf rreq) (Z.to_nat r)))).
Qed.

Lemma fanout_write_owns_its_buffer_witness :
  let s' := state_after [accepted 1 5; accepted 1 6; accepted 1 7;
                         received 3 [x68; x69]] in
  sqe_data (write_sub 7 6%nat) ≠ 5%nat
  ∧ (∀ o, transmitted (<[sqe_data (write_sub 7 6%nat) := o]> (heap s'))
            (write_sub 5 5%nat)
          = transmitted (heap s') (write_sub 5 5%nat))
  ∧ transmitted (delete (sqe_data (write_sub 7 6%nat)) (heap s'))
      (write_sub 5 5%nat)
    = transmitted (heap s') (write_sub 5 5%nat).
Proof.
  destruct (fanout_write_owns_its_buffer 3
              [accepted 1 5; accepted 1 6; accepted 1 7]
              (received 3 [x68; x69])
              (state_after [])
              (state_after [accepted 1 5; accepted 1 6; accepted 1 7])
              (state_after [accepted 1 5; accepted 1 6; accepted 1 7;
                            received 3 [x68; x69]])
              (write_sub 5 5%nat) 5 5%nat) as (_ & _ & Hothers).
  - vm_compute. reflexivity.
  - vm_compute. reflexivity.
  - vm_compute. reflexivity.
  - apply (bool_decide_unpack _). vm_compute. exact I.
  - reflexivity.
  - apply (Hothers (write_sub 7 6%nat)).
    + apply (bool_decide_unpack _). vm_compute. exact I.
    + discriminate.
Defined.

(** C8, as worded, fails: nothing in the dispatcher compares an accepted
    descriptor with [NUM_CONNS].  When 124 clients connect one after the
    other and the kernel hands out the descriptors 5, 6, ..., 128, the
    last Accept completion makes [conns[res] = 1] index past the end of
    the table. *)
Lemma accept_beyond_capacity : ¬ table_access_always_in_range.
Proof.
  intros H.
  apply (H 3 (accepted 1 <$> seqZ 5 124) (state_after []) 128);
    vm_compute; reflexivity.
Qed.

(** C8, amended. In an execution in which every successful Accept
    returns a descriptor below [NUM_CONNS], every access to the connection
    table is within its bounds: the execution never indexes outside
    [0, 128), meets no other undefined behaviour, and the table keeps its
    128 entries. *)
Theorem table_access_in_range_if_accepts_are (listener : Z)
    (cs : list completion) (s0 : state) :
  init listener = Ok s0 →
  Forall accept_in_range cs →
  (∀ i, run cs s0 ≠ Fault (OutOfBounds i))
  ∧ match run cs s0 with
    | Ok s => length (conns s) = Z.to_nat NUM_CONNS
    | Fault f => env_fault f
    end.
Proof.
  intros Hinit Hcs.
  destruct (inv_init listener) as (s0' & Hinit' & Hinv0).
  rewrite Hinit in Hinit'. injection Hinit' as <-.
  pose proof (inv_run cs s0 Hinv0 Hcs) as Hrun.
  destruct (run cs s0) as [s|f]; split; try done.
  - apply Hrun.
  - intros i [= ->]. exact Hrun.
Qed.

Lemma table_access_in_range_if_accepts_are_witness :
  (∀ i, run [accepted 1 127; finished 2 (-104)] (state_after [])
        ≠ Fault (OutOfBounds i))
  ∧ match run [accepted 1 127; finished 2 (-104)] (state_after []) with
    | Ok s => length (conns s) = Z.to_nat NUM_CONNS
    | Fault f => env_fault f
    end.
Proof.
  apply (table_access_in_range_if_accepts_are 3).
  - vm_compute. reflexivity.
  - repeat constructor.
Defined.

(** C9. Every completion disposes of its record in exactly one of two
    ways.  An Accept record (whatever the result) and a Read record whose
    result is positive are re-armed: the record stays allocated and
    exactly one of the step's submissions carries it, of the same kind and
    on the same handle.  A Read record whose result is zero or negative, a
    Write record and a Close record are released: the record is freed and
    no submission of the step carries it.  The two are exclusive, and
    afterwards the allocated records are exactly the pending ones. *)
Theorem record_rearmed_or_released (listener : Z) (cs : list completion)
    (c : completion) (s0 s s' : state) :
  init listener = Ok s0 →
  run cs s0 = Ok s →
  exec (iteration c) s = Ok s' →
  let req := user_data (cqe c) in
  let r := res (cqe c) in
  ∃ o, heap s !! req = Some o
    ∧ let fd := ycr_fd (header o) in
      let new := carrying req (submitted_between s s') in
      ((ycr_event (header o) = YCR_KIND_ACCEPT
        ∧ new = [accept_sub fd req] ∧ is_Some (heap s' !! req))
       ∨ (ycr_event (header o) = YCR_KIND_READ ∧ 0 < r
          ∧ new = [read_sub fd req] ∧ is_Some (heap s' !! req))
       ∨ (ycr_event (header o) = YCR_KIND_READ ∧ r ≤ 0
          ∧ new = [] ∧ heap s' !! req = None)
       ∨ (ycr_event (header o) = YCR_KIND_WRITE
          ∧ new = [] ∧ heap s' !! req = None)
       ∨ (ycr_event (header o) = YCR_KIND_CLOSE
          ∧ new = [] ∧ heap s' !! req = None))
      ∧ ∀ p, is_Some (heap s' !! p) ↔ p ∈ pending_data s'.
Proof.
  intros Hinit Hrun Hit req r.
  destruct (inv_init listener) as (s0' & Hinit' & Hinv0).
  rewrite Hinit in Hinit'. injection Hinit' as <-.
  pose proof (inv_run_Ok _ _ _ Hinv0 Hrun) as Hinv.
  pose proof (inv_iteration_Ok _ _ _ Hinv Hit) as Hinv'.
  destruct (iteration_table c s s' Hinv Hit)
    as (s1 & o & o1 & Ho & Ho1 & Hhdr & Hsame & Hwf & Hd).
  destruct Hsame as (_ & Hnb & Hsq & _).
  assert (req < nextblock s)%nat as Hlt.
  { rewrite <- Hnb. exact (Hwf _ _ Ho1). }
  exists o. split; [done|]. cbn zeta. split; [|apply Hinv'].
  pose proof (dispatch_record _ _ _ _ Hwf Hd Ho1) as Hrec.
  pose proof (dispatch_submissions _ _ _ _ Hd Ho1) as Hsub.
  rewrite Hsq in Hsub. apply submitted_between_app in Hsub.
  rewrite Hsub. fold req r in Hrec |- *.
  unfold rearms in Hrec. unfold expected_submissions.
  rewrite Hhdr in Hrec |- *. rewrite Hnb.
  unfold carrying.
  destruct (ycr_event (header o)); repeat case_bool_decide; try lia;
    rewrite Hrec; rewrite ?filter_app, ?write_subs_not_carrying by done;
    cbn; rewrite ?(decide_True (P := req = req)) by done;
    rewrite ?(decide_False (P := nextblock s = req)) by lia.
  - left. split_and!; [done | done | by eexists].
  - left. split_and!; [done | done | by eexists].
  - right; left. split_and!; [done | done | done | by eexists].
  - right; right; left. by split_and!.
  - right; right; right; left. by split_and!.
  - right; right; right; left. by split_and!.
  - right; right; right; right. by split_and!.
Qed.

Lemma record_rearmed_or_released_witness :
  let s := state_after [accepted 1 5; accepted 1 6] in
  let s' := state_after [accepted 1 5; accepted 1 6; received 3 [x68; x69]] in
  carrying 3%nat (submitted_between s s') = [read_sub 6 3%nat]
  ∧ is_Some (heap s' !! 3%nat)
  ∧ ∀ p, is_Some (heap s' !! p) ↔ p ∈ pending_data s'.
Proof.
  destruct (record_rearmed_or_released 3 [accepted 1 5; accepted 1 6]
              (received 3 [x68; x69]) (state_after [])
              (state_after [accepted 1 5; accepted 1 6])
              (state_after [accepted 1 5; accepted 1 6;
                            received 3 [x68; x69]]))
    as (o & Ho & Hcases & Hlive).
  - vm_compute. reflexivity.
  - vm_compute. reflexivity.
  - vm_compute. reflexivity.
  - cbn zeta. split_and!; [vm_compute; reflexivity | | exact Hlive].
    vm_compute. eexists. reflexivity.
Defined.

(** C10. A Write completion with a positive result, be it smaller than
    the length that was submitted, is handled as a complete write: the
    Write record is released and that is all.  Nothing is submitted (the
    rest of the chunk is not sent again, no Close is issued) and the
    connection table is left as it was. *)
Theorem short_write_is_not_resumed (s : state) (req : ptr)
    (wreq : yc_io_request_t) (fd r : Z) :
  heap s !! req = Some (ObjIo wreq) →
  ycr_req wreq = mk_req YCR_KIND_WRITE fd →
  0 < r →
  ∃ s', handle_cqe (mk_cqe req r) s = Ok (tt, s')
    ∧ heap s' = delete req (heap s)
    ∧ submitted_between s s' = []
    ∧ ring_pending s' = ring_pending s
    ∧ conns s' = conns s.
Proof.
  intros Hreq Hhdr Hr. eexists. split.
  - unfold handle_cqe, load. rewrite bind_unfold. cbn [user_data res].
    rewrite Hreq. cbn [header]. rewrite Hhdr. cbn [ycr_event ycr_fd].
    unfold case_write. rewrite bool_decide_eq_false_2 by lia.
    unfold yc_req_free, free. rewrite Hreq. reflexivity.
  - cbn. split_and!; try done.
    unfold submitted_between. cbn. apply drop_all.
Qed.

(** Descriptor 6 sent two bytes; the write of them to descriptor 5
    (block 4) completes with one byte only. *)
Lemma short_write_is_not_resumed_witness :
  let s := state_after [accepted 1 5; accepted 1 6; received 3 [x68; x69]] in
  ∃ s', handle_cqe (mk_cqe 4%nat 1) s = Ok (tt, s')
    ∧ heap s' = delete 4%nat (heap s)
    ∧ submitted_between s s' = []
    ∧ ring_pending s' = ring_pending s
    ∧ conns s' = conns s.
Proof.
  apply (short_write_is_not_resumed _ 4%nat
           (mk_io_req (mk_req YCR_KIND_WRITE 5) (mk_iovec 4%nat 2)
              (memcpy_cells fresh_iobuf
                 ([Some x68; Some x69] ++ drop 2 fresh_iobuf) 2)) 5 1).
  - vm_compute. reflexivity.
  - reflexivity.
  - lia.
Defined.

(** * Further properties of the dispatcher *)

(** ** One iteration in detail *)

Lemma take_pending_elem (p : ptr) (l rest : list submission)
    (sub x : submission) :
  take_pending p l = Some (sub, rest) →
  x ∈ l → x ≠ sub → x ∈ rest.
Proof.
  intros [_ Hperm]%take_pending_Some Hx Hne.
  rewrite Hperm in Hx. by apply elem_of_cons in Hx as [->|Hx].
Qed.

(** What the kernel's stores leave alone, and what a read leaves in the
    buffer. *)
Lemma kernel_stores_frame (sub : submission) (r : Z) (eff : kernel_effect)
    (s s1 : state) :
  sub_ok (heap s) sub →
  kernel_stores sub r eff s = Ok (tt, s1) →
  ring_pending s1 = ring_pending s
  ∧ (∀ p, p ≠ sqe_data sub → heap s1 !! p = heap s !! p)
  ∧ (∀ bs, eff = stored_bytes bs →
       ∃ b, heap s1 !! sqe_data sub = Some (ObjIo b)
            ∧ take (length bs) (ycr_iobuf b) = Some <$> bs).
Proof.
  intros Hsub. unfold kernel_stores, check. unfold sub_ok in Hsub.
  destruct (sqe sub) as [fd addr|fd iovecs|fd iovecs|fd] eqn:Hsqe,
    eff as [|bs|peer]; try done.
  - case_bool_decide; [|done]. intros [= <-]. by split_and!.
  - destruct Hsub as (-> & areq & Hlive & Hhdr).
    unfold load_accept, load, store, mbind, M_bind, mret, M_ret, fail.
    case_bool_decide; [|done]. rewrite Hlive. cbn. rewrite Hlive.
    intros [= <-]. cbn. split_and!; [done | | done].
    intros p Hp. by rewrite lookup_insert_ne.
  - case_bool_decide; [|done]. intros [= <-]. by split_and!.
  - destruct Hsub as (-> & Hfd & rreq & Hlive & Hhdr & Hiov & Hbuf).
    unfold load_io, load, store, mbind, M_bind, mret, M_ret, fail.
    rewrite Hlive. cbn. rewrite Hiov. cbn.
    case_bool_decide as Hres; [|done]. cbn. rewrite Hlive. cbn.
    case_bool_decide as Hroom; [|done]. cbn. rewrite Hlive.
    intros [= <-]. cbn. split_and!; [done | |].
    + intros p Hp. by rewrite lookup_insert_ne.
    + intros bs' [= <-]. rewrite lookup_insert_eq. eexists. split; [done|].
      cbn. by rewrite take_app_length' by (by rewrite length_fmap).
  - destruct Hsub as (-> & Hfd & wreq & Hlive & _).
    unfold load_io, load, mbind, M_bind, mret, M_ret, fail.
    rewrite Hlive. cbn.
    case_bool_decide; [|done]. intros [= <-]. by split_and!.
  - case_bool_decide; [|done]. intros [= <-]. by split_and!.
Qed.

(** One iteration from a state that satisfies the invariant: the pending
    submission [sub] that completed, the pending list [rest] without it,
    the state [s1] the handler starts from and the record [o1] it finds. *)
Lemma iteration_detail (c : completion) (s s' : state) :
  inv s →
  exec (iteration c) s = Ok s' →
  ∃ sub rest s1 o1,
    take_pending (user_data (cqe c)) (ring_pending s) = Some (sub, rest)
    ∧ sqe_data sub = user_data (cqe c)
    ∧ ring_pending s1 = rest
    ∧ inv_with [sqe_data sub] s1
    ∧ sub_ok (heap s1) sub
    ∧ result_ok c sub
    ∧ same_but_heap s s1
    ∧ (∀ p, p ≠ sqe_data sub → heap s1 !! p = heap s !! p)
    ∧ (∀ bs, effect c = stored_bytes bs →
         ∃ b, heap s1 !! sqe_data sub = Some (ObjIo b)
              ∧ take (length bs) (ycr_iobuf b) = Some <$> bs)
    ∧ heap s1 !! sqe_data sub = Some o1
    ∧ dispatch (cqe c) s1 = Ok s'.
Proof.
  intros Hinv Hrun.
  pose proof Hrun as Hrun'. unfold iteration, exec in Hrun'.
  rewrite bind_unfold in Hrun'.
  destruct (io_uring_wait_cqe c s) as [[e s1]|f] eqn:Hwait; [|done].
  pose proof (wait_cqe_spec c s Hinv) as Hw. rewrite Hwait in Hw.
  destruct Hw as (-> & sub' & Hdata' & Hin' & Hmid' & Hsub' & Hsame & Hres').
  unfold io_uring_wait_cqe, get_state, set_pending in Hwait.
  unfold mbind at 1, M_bind at 1 in Hwait.
  destruct (take_pending _ _) as [[sub rest]|] eqn:Htake; [|done].
  pose proof (take_pending_Some _ _ _ _ Htake) as [Hdata Hperm].
  assert (sub' = sub) as ->.
  { eapply (NoDup_fmap_eq sqe_data (ring_pending s)); [apply Hinv | done | |congruence].
    rewrite Hperm. apply list_elem_of_here. }
  destruct (inv_completed s sub rest Hinv Hperm) as [Hmid0 Hsub0].
  unfold mbind, M_bind, mret, M_ret in Hwait.
  destruct (kernel_stores sub (res (cqe c)) (effect c) (completed rest s))
    as [[[] s1']|f] eqn:Hk; [|done].
  injection Hwait as <-.
  destruct (kernel_stores_frame sub _ _ (completed rest s) s1' Hsub0 Hk)
    as (Hpend & Hframe & Hbytes).
  cbn in Hpend, Hframe.
  assert (dispatch (cqe c) s1' = Ok s') as Hd.
  { rewrite <- handle_cqe_dispatch by apply Hmid'.
    unfold exec. by destruct (handle_cqe (cqe c) s1') as [[[] ?]|]. }
  destruct (dispatch_live _ _ _ Hd) as [o1 Ho1]. rewrite <- Hdata in Ho1.
  exists sub, rest, s1', o1. by split_and!.
Qed.

Lemma dispatch_pending (c : io_uring_cqe) (s s' : state) (o : object) :
  dispatch c s = Ok s' →
  heap s !! user_data c = Some o →
  ring_pending s'
  = ring_pending s ++ expected_submissions s (user_data c) o (res c).
Proof.
  intros H Hlive. unfold expected_submissions.
  dispatch_cases H Hlive; cbn;
    rewrite ?bool_decide_eq_true_2, ?bool_decide_eq_false_2 by lia;
    rewrite <- ?app_assoc, ?app_nil_r; try done.
  rewrite fanout_ring_pending. cbn. by rewrite <- app_assoc.
Qed.

(** The header found by the handler is the one the submission was made
    for. *)
Lemma sub_ok_header (h : gmap nat object) (sub : submission) (o : object) :
  sub_ok h sub →
  h !! sqe_data sub = Some o →
  match sqe sub with
  | prep_accept fd _ => header o = mk_req YCR_KIND_ACCEPT fd
  | prep_readv fd _ => header o = mk_req YCR_KIND_READ fd
  | prep_writev fd _ => header o = mk_req YCR_KIND_WRITE fd
  | prep_close fd => header o = mk_req YCR_KIND_CLOSE fd
  end.
Proof.
  unfold sub_ok. intros Hsub Ho.
  destruct (sqe sub); destruct_and?; subst;
    repeat match goal with H : ∃ _, _ |- _ => destruct H as [? ?] end;
    destruct_and?; simplify_eq/=; done.
Qed.

Lemma reachable_inv (listener : Z) (cs : list completion) (s0 s : state) :
  init listener = Ok s0 → run cs s0 = Ok s → inv s.
Proof.
  intros Hinit Hrun.
  destruct (inv_init listener) as (s0' & Hinit' & Hinv0).
  rewrite Hinit in Hinit'. injection Hinit' as <-.
  by eapply inv_run_Ok.
Qed.

(** ** Invariants of the pending list *)

Lemma run_invariant (P : state → Prop) :
  (∀ c s s', inv s → P s → exec (iteration c) s = Ok s' → P s') →
  ∀ listener cs s0 s,
    (∀ s0, init listener = Ok s0 → P s0) →
    init listener = Ok s0 → run cs s0 = Ok s → P s.
Proof.
  intros Hstep listener cs s0 s Hbase Hinit Hrun.
  pose proof (reachable_inv listener [] s0 s0 Hinit eq_refl) as Hinv.
  specialize (Hbase s0 Hinit). clear Hinit.
  revert s0 Hinv Hbase Hrun.
  induction cs as [|c cs IH]; intros s0 Hinv Hbase Hrun; cbn in Hrun.
  - by injection Hrun as <-.
  - destruct (exec (iteration c) s0) as [s1|f] eqn:Hit; [|done].
    apply (IH s1); [by eapply inv_iteration_Ok | by eapply Hstep | done].
Qed.

Lemma expected_not_accept (s : state) (req : ptr) (o : object) (r : Z) :
  ycr_event (header o) ≠ YCR_KIND_ACCEPT →
  filter (λ sub, is_accept sub) (expected_submissions s req o r) = [].
Proof.
  intros Hk. apply nil_length_inv. rewrite expected_accepts.
  by rewrite bool_decide_eq_false_2.
Qed.

(** X1. Between two iterations exactly one Accept is pending, and it is
    always the same one: on the listening descriptor, with the accept
    record allocated before the loop. *)
Theorem one_accept_pending (listener : Z) (cs : list completion)
    (s0 s : state) :
  init listener = Ok s0 →
  run cs s0 = Ok s →
  filter (λ sub, is_accept sub) (ring_pending s)
  = [accept_sub listener 1%nat].
Proof.
  apply (run_invariant
           (λ s, filter (λ sub, is_accept sub) (ring_pending s)
                 = [accept_sub listener 1%nat])).
  - clear. intros c s s' Hinv HP Hit.
    destruct (iteration_detail c s s' Hinv Hit)
      as (sub & rest & s1 & o1 & Htake & Hdata & Hrest & Hmid & Hsub & Hres
          & Hsame & _ & _ & Ho1 & Hd).
    apply take_pending_Some in Htake as [_ Hperm].
    pose proof (sub_ok_header _ _ _ Hsub Ho1) as Hhdr.
    rewrite Hdata in Ho1.
    rewrite (dispatch_pending _ _ _ _ Hd Ho1), Hrest, filter_app.
    assert (filter (λ sub, is_accept sub) (sub :: rest)
            = [accept_sub listener 1%nat]) as Hold.
    { symmetry. apply Permutation_singleton_l. by rewrite <- HP, Hperm. }
    rewrite filter_cons in Hold.
    destruct (decide (is_accept sub)) as [Hacc|Hacc].
    + injection Hold as -> ->. cbn in Hhdr, Hdata. rewrite <- Hdata.
      unfold expected_submissions. rewrite Hhdr. cbn [ycr_event ycr_fd].
      by destruct (bool_decide (res (cqe c) < 0)).
    + rewrite Hold, expected_not_accept; [done|].
      unfold is_accept in Hacc. by destruct (sqe sub); rewrite Hhdr.
  - intros s0' Hinit. unfold init in Hinit. cbn in Hinit.
    by injection Hinit as <-.
Qed.

Lemma one_accept_pending_witness :
  filter (λ sub, is_accept sub)
    (ring_pending (state_after [accepted 1 5; finished 1 (-24);
                                received 2 [x68; x69]; finished 2 0]))
  = [accept_sub 3 1%nat].
Proof.
  apply (one_accept_pending 3 [accepted 1 5; finished 1 (-24);
                               received 2 [x68; x69]; finished 2 0]
           (state_after [])); vm_compute; reflexivity.
Defined.

Lemma is_active_insert_ne (table : list Z) (i : nat) (v fd : Z) :
  Z.to_nat fd ≠ i →
  is_active (<[i := v]> table) fd = is_active table fd.
Proof.
  intros Hne. unfold is_active. by rewrite list_lookup_insert_ne.
Qed.

Lemma is_active_replicate (n : nat) (fd : Z) :
  is_active (replicate n 0) fd = false.
Proof.
  unfold is_active.
  destruct (replicate n 0 !! Z.to_nat fd) as [v|] eqn:Hv; [|done].
  apply lookup_replicate in Hv as [-> _]. done.
Qed.

(** X2. Every connection that is marked active has a Read pending on its
    descriptor. *)
Theorem active_connection_has_pending_read (listener : Z)
    (cs : list completion) (s0 s : state) (fd : Z) :
  init listener = Ok s0 →
  run cs s0 = Ok s →
  0 ≤ fd →
  is_active (conns s) fd = true →
  ∃ req, read_sub fd req ∈ ring_pending s.
Proof.
  intros Hinit Hrun Hfd. revert Hinit Hrun.
  apply (run_invariant
           (λ s, is_active (conns s) fd = true →
                 ∃ req, read_sub fd req ∈ ring_pending s)).
  - intros c s1 s' Hinv HP Hit Hact.
    destruct (iteration_detail c s1 s' Hinv Hit)
      as (sub & rest & sm & o1 & Htake & Hdata & Hrest & Hmid & Hsub & Hres
          & Hsame & _ & _ & Ho1 & Hd).
    destruct Hsame as (Hconns & Hnb & _).
    pose proof (sub_ok_header _ _ _ Hsub Ho1) as Hhdr.
    rewrite Hdata in Ho1.
    rewrite (dispatch_pending _ _ _ _ Hd Ho1), Hrest.
    rewrite (dispatch_conns _ _ _ _ Hd Ho1) in Hact.
    unfold expected_conns in Hact. unfold expected_submissions.
    rewrite Hconns in Hact |- *.
    assert (∀ q, read_sub fd q ∈ ring_pending s1 → read_sub fd q ≠ sub →
                 read_sub fd q ∈ rest) as Hkeep.
    { intros q Hq Hne. by eapply take_pending_elem. }
    unfold sub_ok in Hsub.
    destruct (sqe sub) as [fd0 addr|fd0 iovecs|fd0 iovecs|fd0] eqn:Hsqe;
      rewrite Hhdr in Hact |- *; cbn [ycr_event ycr_fd] in Hact |- *.
    + (* accept *)
      case_bool_decide as Hneg.
      * destruct (HP Hact) as [q Hq]. exists q.
        apply elem_of_app. left. apply Hkeep; [done|].
        intros <-. done.
      * destruct (decide (fd = res (cqe c))) as [->|Hne].
        -- eexists. apply elem_of_app. right. apply list_elem_of_here.
        -- rewrite is_active_insert_ne in Hact by lia.
           destruct (HP Hact) as [q Hq]. exists q.
           apply elem_of_app. left. apply Hkeep; [done|]. intros <-. done.
    + (* read *)
      destruct Hsub as (-> & Hin0 & _). unfold in_range in Hin0.
      case_bool_decide as Hle.
      * destruct (decide (fd = fd0)) as [->|Hne].
        { by rewrite is_active_cleared in Hact. }
        rewrite is_active_insert_ne in Hact by lia.
        destruct (HP Hact) as [q Hq]. exists q.
        apply elem_of_app. left. apply Hkeep; [done|].
        intros <-. cbn in Hsqe. congruence.
      * destruct (HP Hact) as [q Hq].
        destruct (decide (read_sub fd q = sub)) as [<-|Hne].
        -- cbn in Hsqe. injection Hsqe as <-. exists q. cbn in Hdata.
           rewrite <- Hdata. rewrite !elem_of_app. right. right.
           apply list_elem_of_here.
        -- exists q. apply elem_of_app. left. by apply Hkeep.
    + (* write *)
      destruct Hsub as (-> & Hin0 & _). unfold in_range in Hin0.
      assert (∀ q, read_sub fd q ≠ sub) as Hdiff.
      { intros q <-. done. }
      case_bool_decide as Hneg.
      * destruct (decide (fd = fd0)) as [->|Hne].
        { by rewrite is_active_cleared in Hact. }
        rewrite is_active_insert_ne in Hact by lia.
        destruct (HP Hact) as [q Hq]. exists q.
        apply elem_of_app. left. by apply Hkeep.
      * destruct (HP Hact) as [q Hq]. exists q.
        apply elem_of_app. left. by apply Hkeep.
    + (* close *)
      destruct (HP Hact) as [q Hq]. exists q.
      apply elem_of_app. left. apply Hkeep; [done|]. intros <-. done.
  - intros s0' Hinit. unfold init in Hinit. cbn in Hinit.
    injection Hinit as <-. cbn. by rewrite is_active_replicate.
Qed.

Lemma active_connection_has_pending_read_witness :
  ∃ req, read_sub 6 req
         ∈ ring_pending (state_after [accepted 1 5; accepted 1 6;
                                      received 3 [x68; x69]; finished 4 (-32)]).
Proof.
  apply (active_connection_has_pending_read 3
           [accepted 1 5; accepted 1 6; received 3 [x68; x69]; finished 4 (-32)]
           (state_after [])); try (vm_compute; reflexivity).
  lia.
Defined.

(** ** What one iteration does *)

Lemma expected_same (s s1 : state) (req : ptr) (o o1 : object) (r : Z) :
  same_but_heap s s1 → header o1 = header o →
  expected_submissions s1 req o1 r = expected_submissions s req o r
  ∧ expected_conns s1 o1 r = expected_conns s o r.
Proof.
  intros (Hconns & Hnb & _) Hhdr.
  unfold expected_submissions, expected_conns.
  by rewrite Hhdr, Hconns, Hnb.
Qed.

(** X3. The whole reaction of the loop to one completion, kind by kind:
    the operations submitted (in order) and the connection table
    afterwards are those of the table of reactions.  An Accept that fails
    only re-arms the Accept; one that succeeds marks the new descriptor,
    submits its first Read and then re-arms the Accept.  A Read or a Write
    that fails, and a Read at end of stream, clear the descriptor's entry
    and submit one Close.  A Read with data submits the fan-out Writes and
    then the Read again.  A successful Write and a Close submit nothing
    and change no entry. *)
Theorem iteration_follows_table (listener : Z) (cs : list completion)
    (c : completion) (s0 s s' : state) :
  init listener = Ok s0 →
  run cs s0 = Ok s →
  exec (iteration c) s = Ok s' →
  ∃ o, heap s !! user_data (cqe c) = Some o
    ∧ submitted_between s s'
      = expected_submissions s (user_data (cqe c)) o (res (cqe c))
    ∧ conns s' = expected_conns s o (res (cqe c)).
Proof.
  intros Hinit Hrun Hit.
  pose proof (reachable_inv _ _ _ _ Hinit Hrun) as Hinv.
  destruct (iteration_table c s s' Hinv Hit)
    as (s1 & o & o1 & Ho & Ho1 & Hhdr & Hsame & Hwf & Hd).
  destruct (expected_same s s1 (user_data (cqe c)) o o1 (res (cqe c)) Hsame Hhdr)
    as [Hes Hec].
  exists o. split_and!; [done | |].
  - apply submitted_between_app.
    rewrite (dispatch_submissions _ _ _ _ Hd Ho1), Hes.
    by destruct Hsame as (_ & _ & -> & _).
  - by rewrite (dispatch_conns _ _ _ _ Hd Ho1).
Qed.

Lemma iteration_follows_table_witness :
  let s := state_after [accepted 1 5; accepted 1 6; received 3 [x68; x69]] in
  let s' := state_after [accepted 1 5; accepted 1 6; received 3 [x68; x69];
                         finished 4 (-32)] in
  ∃ o, heap s !! 4%nat = Some o
    ∧ submitted_between s s' = expected_submissions s 4%nat o (-32)
    ∧ conns s' = expected_conns s o (-32).
Proof.
  apply (iteration_follows_table 3
           [accepted 1 5; accepted 1 6; received 3 [x68; x69]]
           (finished 4 (-32)) (state_after [])); vm_compute; reflexivity.
Defined.

(** X4. The bytes relayed are the bytes received: when the kernel
    completes a Read with the bytes [bs], every Write submitted in that
    iteration sends exactly [bs]. *)
Theorem relay_is_verbatim (listener : Z) (cs : list completion)
    (s0 s s' : state) (req : ptr) (r : Z) (bs : list byte)
    (sub : submission) (fd : Z) (w : ptr) :
  init listener = Ok s0 →
  run cs s0 = Ok s →
  exec (iteration (mk_completion (mk_cqe req r) (stored_bytes bs))) s = Ok s' →
  sub ∈ submitted_between s s' →
  sqe sub = prep_writev fd w →
  transmitted (heap s') sub = Some (Some <$> bs).
Proof.
  intros Hinit Hrun Hit Hin Hsqe.
  pose proof (reachable_inv _ _ _ _ Hinit Hrun) as Hinv.
  destruct (iteration_detail _ s s' Hinv Hit)
    as (done_sub & rest & s1 & o1 & Htake & Hdata & Hrest & Hmid & Hsub & Hres
        & Hsame & _ & Hbytes & Ho1 & Hd).
  cbn [cqe effect user_data res] in *.
  destruct (Hbytes bs eq_refl) as (b & Hb & Hbuf).
  rewrite Hb in Ho1. injection Ho1 as <-.
  (* only a read stores bytes *)
  unfold result_ok in Hres. unfold sub_ok in Hsub. cbn in Hres.
  destruct (sqe done_sub) as [|rfd iovecs| |] eqn:Hdone; try done.
  destruct Hres as [Hr Hlen].
  destruct Hsub as (-> & Hrfd & rreq & Hlive & Hhdr & Hiov & Hsize).
  rewrite Hb in Hlive. injection Hlive as <-.
  rewrite Hdata in Hb.
  assert (ycr_event (ycr_req b) = YCR_KIND_READ) as Hk by (by rewrite Hhdr).
  destruct (dispatch_read_positive_inv _ _ _ _ Hd Hb Hk ltac:(cbn; lia))
    as [Hs' _].
  cbn [res user_data] in Hs'.
  destruct Hsame as (_ & _ & Hsq & _).
  assert (ring_sq s' = ring_sq s ++
            write_subs (nextblock s1)
              (fanout_targets (conns s1) (ycr_fd (ycr_req b)))
            ++ [read_sub (ycr_fd (ycr_req b)) req]) as Hnew.
  { rewrite Hs'. cbn. rewrite fanout_ring_sq. cbn.
    by rewrite Hsq, <- app_assoc. }
  apply submitted_between_app in Hnew. rewrite Hnew in Hin.
  apply elem_of_app in Hin as [Hin|Hin];
    [|apply list_elem_of_singleton in Hin; by subst].
  apply elem_of_write_subs in Hin as (i & d & Hd' & ->).
  rewrite <- Hbuf, Hs'. cbn [heap pushed].
  replace (length bs) with (Z.to_nat r) by lia.
  apply transmitted_write_req; [lia | unfold IOBUF_SIZE in *; lia |].
  exact (fanout_heap_new _ _ _ (printed _ s1) i d Hd').
Qed.

Lemma relay_is_verbatim_witness :
  transmitted
    (heap (state_after [accepted 1 5; accepted 1 6; received 3 [x68; x00; x69]]))
    (write_sub 5 4%nat)
  = Some [Some x68; Some x00; Some x69].
Proof.
  apply (relay_is_verbatim 3 [accepted 1 5; accepted 1 6] (state_after [])
           (state_after [accepted 1 5; accepted 1 6])
           (state_after [accepted 1 5; accepted 1 6; received 3 [x68; x00; x69]])
           3%nat 3 [x68; x00; x69] (write_sub 5 4%nat) 5 4%nat);
    try (vm_compute; reflexivity).
  apply (bool_decide_unpack _). vm_compute. exact I.
Defined.

Lemma dispatch_frame (c : io_uring_cqe) (s s' : state) (p : ptr) (o : object) :
  heap_wf s →
  dispatch c s = Ok s' →
  p ≠ user_data c →
  heap s !! p = Some o →
  heap s' !! p = Some o.
Proof.
  intros Hwf H Hne Hp.
  assert (p < nextblock s)%nat as Hlt by exact (Hwf _ _ Hp).
  destruct (dispatch_live _ _ _ H) as [o0 Hlive].
  dispatch_cases H Hlive; cbn;
    rewrite ?lookup_insert_ne, ?lookup_delete_ne by (done || lia); try done.
  by rewrite fanout_heap_old.
Qed.

(** X5. Handling a completion touches no record but the completed one:
    every other allocated record, with its header, its [iovec] and its
    buffer, is the same after the iteration, whatever the kind and the
    result of the completion. *)
Theorem other_records_untouched (listener : Z) (cs : list completion)
    (c : completion) (s0 s s' : state) (p : ptr) (o : object) :
  init listener = Ok s0 →
  run cs s0 = Ok s →
  exec (iteration c) s = Ok s' →
  p ≠ user_data (cqe c) →
  heap s !! p = Some o →
  heap s' !! p = Some o.
Proof.
  intros Hinit Hrun Hit Hne Hp.
  pose proof (reachable_inv _ _ _ _ Hinit Hrun) as Hinv.
  destruct (iteration_detail _ s s' Hinv Hit)
    as (sub & rest & s1 & o1 & Htake & Hdata & Hrest & Hmid & Hsub & Hres
        & Hsame & Hframe & _ & Ho1 & Hd).
  apply (dispatch_frame (cqe c) s1); [apply Hmid | done | done |].
  rewrite Hframe; [done | congruence].
Qed.

Lemma other_records_untouched_witness :
  let s := state_after [accepted 1 5; accepted 1 6; received 3 [x68; x69]] in
  let s' := state_after [accepted 1 5; accepted 1 6; received 3 [x68; x69];
                         received 3 [x79; x6f; x21]] in
  heap s' !! 4%nat
  = Some (write_req 2 ([Some x68; Some x69] ++ drop 2 fresh_iobuf) 5 4%nat).
Proof.
  apply (other_records_untouched 3
           [accepted 1 5; accepted 1 6; received 3 [x68; x69]]
           (received 3 [x79; x6f; x21]) (state_after [])
           (state_after [accepted 1 5; accepted 1 6; received 3 [x68; x69]]));
    try (vm_compute; reflexivity).
  cbn. lia.
Defined.

(** ** Accounting of the submissions *)

Lemma write_subs_filter_nil (k : submission → bool) (nb : ptr)
    (dests : list Z) :
  (∀ d w, k (write_sub d w) = false) →
  filter (λ sub, k sub) (write_subs nb dests) = [].
Proof.
  intros Hk. apply filter_none, Forall_forall.
  intros sub (i & d & _ & ->)%elem_of_write_subs. rewrite Hk. tauto.
Qed.

Lemma run_tally (k : submission → bool) (f : state → completion → bool) :
  (∀ c s s', inv s → exec (iteration c) s = Ok s' →
     length (filter (λ sub, k sub) (ring_sq s'))
     = (length (filter (λ sub, k sub) (ring_sq s))
        + if f s c then 1 else 0)%nat) →
  ∀ cs s s', inv s → run cs s = Ok s' →
    length (filter (λ sub, k sub) (ring_sq s'))
    = (length (filter (λ sub, k sub) (ring_sq s)) + tally f cs s)%nat.
Proof.
  intros Hstep cs. induction cs as [|c cs IH]; intros s s' Hinv Hrun;
    cbn in Hrun |- *.
  - injection Hrun as <-. lia.
  - destruct (exec (iteration c) s) as [s1|f'] eqn:Hit; [|done].
    rewrite (IH s1 s') by (done || by eapply inv_iteration_Ok).
    rewrite (Hstep c s s1) by done. lia.
Qed.

Lemma iteration_count (k : submission → bool) (c : completion)
    (s s' : state) :
  inv s → exec (iteration c) s = Ok s' →
  ∃ o, heap s !! user_data (cqe c) = Some o
    ∧ length (filter (λ sub, k sub) (ring_sq s'))
      = (length (filter (λ sub, k sub) (ring_sq s))
         + length (filter (λ sub, k sub)
                     (expected_submissions s (user_data (cqe c)) o
                        (res (cqe c)))))%nat.
Proof.
  intros Hinv Hit.
  destruct (iteration_table c s s' Hinv Hit)
    as (s1 & o & o1 & Ho & Ho1 & Hhdr & Hsame & Hwf & Hd).
  destruct (expected_same s s1 (user_data (cqe c)) o o1 (res (cqe c)) Hsame Hhdr)
    as [Hes _].
  exists o. split; [done|].
  rewrite (dispatch_submissions _ _ _ _ Hd Ho1), Hes.
  destruct Hsame as (_ & _ & -> & _).
  by rewrite filter_app, length_app.
Qed.

(** X6. A Close is submitted once for every Read completion with a
    negative or zero result and for every Write completion with a negative
    result, and at no other time: the number of Close operations submitted
    in a run is the number of such completions.  (A descriptor whose Write
    fails and whose Read then fails is therefore closed twice.) *)
Theorem one_close_per_disconnect (listener : Z) (cs : list completion)
    (s0 s : state) :
  init listener = Ok s0 →
  run cs s0 = Ok s →
  length (filter (λ sub, is_close sub) (ring_sq s)) = tally disconnects cs s0.
Proof.
  intros Hinit Hrun.
  pose proof (reachable_inv listener [] s0 s0 Hinit eq_refl) as Hinv.
  rewrite (run_tally is_close disconnects) with (s := s0) (cs := cs);
    [| |done..].
  - unfold init in Hinit. cbn in Hinit. by injection Hinit as <-.
  - clear. intros c s s' Hinv Hit.
    destruct (iteration_count is_close c s s' Hinv Hit) as (o & Ho & ->).
    f_equal. unfold disconnects, completed_kind. rewrite Ho. cbn.
    unfold expected_submissions.
    destruct (ycr_event (header o)); repeat case_bool_decide; try done;
      try lia.
    rewrite filter_app, write_subs_filter_nil; done.
Qed.

Lemma one_close_per_disconnect_witness :
  let cs := [accepted 1 5; accepted 1 6; received 3 [x68; x69];
             finished 4 (-32); finished 2 (-104)] in
  length (filter (λ sub, is_close sub) (ring_sq (state_after cs)))
  = tally disconnects cs (state_after [])
  ∧ filter (λ sub, is_close sub) (ring_sq (state_after cs))
    = [close_sub 5 5%nat; close_sub 5 6%nat].
Proof.
  split.
  - apply (one_close_per_disconnect 3); vm_compute; reflexivity.
  - vm_compute. reflexivity.
Defined.

(** X7. A Read is submitted once for every Accept completion with a
    nonnegative result and once for every Read completion with a positive
    result, and at no other time. *)
Theorem reads_submitted_count (listener : Z) (cs : list completion)
    (s0 s : state) :
  init listener = Ok s0 →
  run cs s0 = Ok s →
  length (filter (λ sub, is_read sub) (ring_sq s)) = tally arms_read cs s0.
Proof.
  intros Hinit Hrun.
  pose proof (reachable_inv listener [] s0 s0 Hinit eq_refl) as Hinv.
  rewrite (run_tally is_read arms_read) with (s := s0) (cs := cs);
    [| |done..].
  - unfold init in Hinit. cbn in Hinit. by injection Hinit as <-.
  - clear. intros c s s' Hinv Hit.
    destruct (iteration_count is_read c s s' Hinv Hit) as (o & Ho & ->).
    f_equal. unfold arms_read, completed_kind. rewrite Ho. cbn.
    unfold expected_submissions.
    destruct (ycr_event (header o)); repeat case_bool_decide; try done;
      try lia.
    rewrite filter_app, write_subs_filter_nil; done.
Qed.

Lemma reads_submitted_count_witness :
  let cs := [accepted 1 5; finished 1 (-24); accepted 1 6;
             received 3 [x68; x69]; finished 2 0] in
  length (filter (λ sub, is_read sub) (ring_sq (state_after cs)))
  = tally arms_read cs (state_after [])
  ∧ tally arms_read cs (state_after []) = 3%nat.
Proof.
  split.
  - apply (reads_submitted_count 3); vm_compute; reflexivity.
  - vm_compute. reflexivity.
Defined.

(** ** Further invariants *)

(** X8. Every pending Read or Write hands the kernel an [iovec] that
    lies inside the buffer of its own record: the base is the record's own
    buffer and the length is positive and at most the size of that buffer;
    for a Read it is the whole buffer. *)
Theorem pending_iovec_in_buffer (listener : Z) (cs : list completion)
    (s0 s : state) (sub : submission) (fd : Z) (v : ptr) :
  init listener = Ok s0 →
  run cs s0 = Ok s →
  sub ∈ ring_pending s →
  sqe sub = prep_readv fd v ∨ sqe sub = prep_writev fd v →
  ∃ rq, heap s !! v = Some (ObjIo rq)
    ∧ sqe_data sub = v
    ∧ ycr_fd (ycr_req rq) = fd
    ∧ iov_base (ycr_iovec rq) = v
    ∧ 0 < iov_len (ycr_iovec rq) ≤ Z.of_nat (length (ycr_iobuf rq))
    ∧ (sqe sub = prep_readv fd v →
       iov_len (ycr_iovec rq) = Z.of_nat (length (ycr_iobuf rq))).
Proof.
  intros Hinit Hrun Hin Hsqe.
  pose proof (reachable_inv _ _ _ _ Hinit Hrun) as Hinv.
  pose proof (inv_subs _ _ Hinv) as Hsubs.
  eapply Forall_forall in Hsubs; [|done]. unfold sub_ok in Hsubs.
  destruct Hsqe as [Hsqe|Hsqe]; rewrite Hsqe in Hsubs.
  - destruct Hsubs as (-> & _ & rq & Hlive & Hhdr & Hiov & Hsize).
    exists rq. rewrite Hhdr, Hiov, Hsize. cbn [ycr_fd iov_base iov_len].
    rewrite Z2Nat.id by done. unfold IOBUF_SIZE.
    split_and!; try done; lia.
  - destruct Hsubs as (-> & _ & rq & Hlive & Hhdr & Hbase & Hlen & Hsize).
    exists rq. rewrite Hhdr, Hsize. cbn [ycr_fd].
    rewrite Z2Nat.id by done. unfold IOBUF_SIZE in *.
    split_and!; try done; try lia. intros Hread. congruence.
Qed.

Lemma pending_iovec_in_buffer_witness :
  ∃ rq, heap (state_after [accepted 1 5; accepted 1 6; received 3 [x68; x69]])
          !! 4%nat = Some (ObjIo rq)
    ∧ sqe_data (write_sub 5 4%nat) = 4%nat
    ∧ ycr_fd (ycr_req rq) = 5
    ∧ iov_base (ycr_iovec rq) = 4%nat
    ∧ 0 < iov_len (ycr_iovec rq) ≤ Z.of_nat (length (ycr_iobuf rq))
    ∧ (sqe (write_sub 5 4%nat) = prep_readv 5 4%nat →
       iov_len (ycr_iovec rq) = Z.of_nat (length (ycr_iobuf rq))).
Proof.
  apply (pending_iovec_in_buffer 3
           [accepted 1 5; accepted 1 6; received 3 [x68; x69]]
           (state_after []) _ (write_sub 5 4%nat) 5 4%nat).
  - vm_compute. reflexivity.
  - vm_compute. reflexivity.
  - apply (bool_decide_unpack _). vm_compute. exact I.
  - right. reflexivity.
Defined.

(** X9. The connection table keeps its 128 entries and every entry is 0
    or 1. *)
Theorem table_entries_are_flags (listener : Z) (cs : list completion)
    (s0 s : state) :
  init listener = Ok s0 →
  run cs s0 = Ok s →
  length (conns s) = Z.to_nat NUM_CONNS
  ∧ Forall (λ v, v = 0 ∨ v = 1) (conns s).
Proof.
  intros Hinit Hrun. split.
  { apply (reachable_inv _ _ _ _ Hinit Hrun). }
  revert Hinit Hrun.
  apply (run_invariant (λ s, Forall (λ v, v = 0 ∨ v = 1) (conns s))).
  - clear. intros c s s' Hinv HP Hit.
    destruct (iteration_table c s s' Hinv Hit)
      as (s1 & o & o1 & Ho & Ho1 & Hhdr & Hsame & Hwf & Hd).
    rewrite (dispatch_conns _ _ _ _ Hd Ho1). unfold expected_conns.
    destruct Hsame as (-> & _).
    destruct (ycr_event (header o1)); repeat case_bool_decide; try done;
      apply Forall_insert; auto.
  - intros s0' Hinit. unfold init in Hinit. cbn in Hinit.
    injection Hinit as <-. cbn. apply Forall_replicate. by left.
Qed.

Lemma table_entries_are_flags_witness :
  let s := state_after [accepted 1 5; accepted 1 5; finished 2 0] in
  length (conns s) = Z.to_nat NUM_CONNS
  ∧ Forall (λ v, v = 0 ∨ v = 1) (conns s).
Proof.
  apply (table_entries_are_flags 3 [accepted 1 5; accepted 1 5; finished 2 0]
           (state_after [])); vm_compute; reflexivity.
Defined.

(** ** Progress *)

Lemma take_pending_found (l : list submission) (sub : submission) :
  NoDup (sqe_data <$> l) → sub ∈ l →
  ∃ rest, take_pending (sqe_data sub) l = Some (sub, rest).
Proof.
  induction l as [|x l IH]; [by intros _ ?%elem_of_nil|].
  cbn. intros [Hnotin Hnd]%NoDup_cons Hin.
  case_bool_decide as Hx.
  - apply elem_of_cons in Hin as [->|Hin]; [by eexists|].
    exfalso. apply Hnotin. rewrite Hx. by apply list_elem_of_fmap_2.
  - apply elem_of_cons in Hin as [->|Hin]; [done|].
    destruct (IH Hnd Hin) as [rest ->]. by eexists.
Qed.

Lemma kernel_stores_ok (sub : submission) (c : completion) (s : state) :
  sub_ok (heap s) sub →
  reportable (heap s) sub c →
  ∃ s1, kernel_stores sub (res (cqe c)) (effect c) s = Ok (tt, s1).
Proof.
  unfold sub_ok, reportable, kernel_stores, check. intros Hsub Hrep.
  destruct (sqe sub) as [fd addr|fd iovecs|fd iovecs|fd] eqn:Hsqe,
    (effect c) as [|bs|peer]; try done.
  - rewrite bool_decide_eq_true_2 by done. by eexists.
  - destruct Hsub as (-> & areq & Hlive & Hhdr).
    unfold load_accept, load, store, mbind, M_bind, mret, M_ret, fail.
    rewrite bool_decide_eq_true_2 by done. rewrite Hlive. cbn. rewrite Hlive.
    by eexists.
  - rewrite bool_decide_eq_true_2 by done. by eexists.
  - destruct Hsub as (-> & Hfd & rreq & Hlive & Hhdr & Hiov & Hbuf).
    unfold load_io, load, store, mbind, M_bind, mret, M_ret, fail.
    rewrite Hlive. cbn. rewrite Hiov. cbn.
    rewrite bool_decide_eq_true_2 by lia. cbn. rewrite Hlive. cbn.
    rewrite bool_decide_eq_true_2 by (unfold IOBUF_SIZE in *; lia).
    cbn. rewrite Hlive. by eexists.
  - destruct Hsub as (-> & Hfd & wreq & Hlive & _).
    unfold load_io, load, mbind, M_bind, mret, M_ret, fail.
    rewrite Hlive in Hrep |- *. cbn.
    rewrite bool_decide_eq_true_2 by done. by eexists.
  - rewrite bool_decide_eq_true_2 by done. by eexists.
Qed.

(** Delivery of the completion of a pending submission, and the state in
    which the handler starts. *)
Lemma wait_cqe_ok (c : completion) (sub : submission) (s : state) :
  inv s →
  sub ∈ ring_pending s →
  user_data (cqe c) = sqe_data sub →
  reportable (heap s) sub c →
  ∃ s1, io_uring_wait_cqe c s = Ok (cqe c, s1)
    ∧ inv_with [sqe_data sub] s1 ∧ sub_ok (heap s1) sub
    ∧ same_but_heap s s1 ∧ result_ok c sub.
Proof.
  intros Hinv Hin Hdata Hrep.
  destruct (take_pending_found (ring_pending s) sub) as [rest Htake];
    [apply Hinv | done |].
  pose proof (take_pending_Some _ _ _ _ Htake) as [_ Hperm].
  destruct (inv_completed s sub rest Hinv Hperm) as [Hmid Hsub].
  destruct (kernel_stores_ok sub c (completed rest s) Hsub Hrep) as [s1 Hk].
  pose proof (kernel_stores_spec c sub (completed rest s) Hmid Hsub) as Hspec.
  rewrite Hk in Hspec. destruct Hspec as (Hinv1 & Hsub1 & Hsame & Hres).
  exists s1. split; [|done].
  unfold io_uring_wait_cqe, get_state, set_pending.
  unfold mbind at 1, M_bind at 1. rewrite Hdata, Htake.
  unfold mbind, M_bind, mret, M_ret. by rewrite Hk.
Qed.

Lemma iteration_progress (c : completion) (s : state) (sub : submission) :
  inv s →
  sub ∈ ring_pending s →
  user_data (cqe c) = sqe_data sub →
  reportable (heap s) sub c →
  accept_in_range c →
  ∃ s', exec (iteration c) s = Ok s'.
Proof.
  intros Hinv Hin Hdata Hrep Hacc.
  destruct (wait_cqe_ok c sub s Hinv Hin Hdata Hrep)
    as (s1 & Hwait & Hmid & Hsub & Hsame & Hres).
  destruct (inv_dispatch sub (res (cqe c)) s1 Hmid Hsub) as (s' & Hd & _).
  { unfold result_ok in Hres. unfold accept_in_range in Hacc.
    destruct (sqe sub), (effect c); try done;
      rewrite ?NUM_CONNS_val; unfold IOBUF_SIZE in *; lia. }
  exists s'. unfold iteration, exec. rewrite bind_unfold, Hwait.
  pose proof (handle_cqe_dispatch (cqe c) s1 (inv_heap_wf _ _ Hmid)) as Heq.
  unfold exec in Heq. rewrite Heq.
  destruct (cqe c) as [p r]. cbn in Hdata, Hd. by rewrite Hdata, Hd.
Qed.

(** X10. The loop never gets stuck on a completion the ring can deliver.
    For every pending submission and every result the kernel can report
    for it, provided a successful Accept returns a descriptor below
    [NUM_CONNS], the iteration runs to its end without undefined
    behaviour. *)
Theorem iteration_completes (listener : Z) (cs : list completion)
    (c : completion) (s0 s : state) (sub : submission) :
  init listener = Ok s0 →
  run cs s0 = Ok s →
  sub ∈ ring_pending s →
  user_data (cqe c) = sqe_data sub →
  reportable (heap s) sub c →
  accept_in_range c →
  ∃ s', exec (iteration c) s = Ok s'.
Proof.
  intros Hinit Hrun. apply iteration_progress.
  exact (reachable_inv _ _ _ _ Hinit Hrun).
Qed.

Lemma iteration_completes_witness :
  ∃ s', exec (iteration (finished 4 1))
          (state_after [accepted 1 5; accepted 1 6; received 3 [x68; x69]])
        = Ok s'.
Proof.
  apply (iteration_completes 3
           [accepted 1 5; accepted 1 6; received 3 [x68; x69]]
           (finished 4 1) (state_after []) _ (write_sub 5 4%nat)).
  - vm_compute. reflexivity.
  - vm_compute. reflexivity.
  - apply (bool_decide_unpack _). vm_compute. exact I.
  - reflexivity.
  - vm_compute. discriminate.
  - exact I.
Defined.

(** X11. The one unchecked index.  When the kernel completes the pending
    Accept with a descriptor [r]: if [r] is below [NUM_CONNS] the
    iteration succeeds and marks [r] active; if [r] is [NUM_CONNS] or more
    the statement [conns[res] = 1] indexes outside the table. *)
Theorem accepted_descriptor_bound (listener : Z) (cs : list completion)
    (s0 s : state) (sub : submission) (lfd : Z) (addr : ptr) (r : Z)
    (peer : sockaddr_in) :
  init listener = Ok s0 →
  run cs s0 = Ok s →
  sub ∈ ring_pending s →
  sqe sub = prep_accept lfd addr →
  0 ≤ r →
  let c := mk_completion (mk_cqe (sqe_data sub) r) (stored_peer peer) in
  (r < NUM_CONNS →
   ∃ s', exec (iteration c) s = Ok s' ∧ is_active (conns s') r = true)
  ∧ (NUM_CONNS ≤ r → exec (iteration c) s = Fault (OutOfBounds r)).
Proof.
  intros Hinit Hrun Hin Hsqe Hr c.
  pose proof (reachable_inv _ _ _ _ Hinit Hrun) as Hinv.
  assert (reportable (heap s) sub c) as Hrep.
  { unfold reportable. by rewrite Hsqe. }
  destruct (wait_cqe_ok c sub s Hinv Hin eq_refl Hrep)
    as (s1 & Hwait & Hmid & Hsub & Hsame & Hres).
  assert (exec (iteration c) s = dispatch (cqe c) s1) as Hexec.
  { unfold iteration, exec at 1. rewrite bind_unfold, Hwait.
    by rewrite <- handle_cqe_dispatch by apply Hmid. }
  rewrite Hexec. pose proof Hsub as Hsub'. unfold sub_ok in Hsub'.
  rewrite Hsqe in Hsub'. destruct Hsub' as (-> & areq & Hlive & Hhdr).
  destruct Hsame as (Hconns & _).
  assert (length (conns s1) = Z.to_nat NUM_CONNS) as Hlen by apply Hmid.
  split; intros Hbound.
  - destruct (inv_dispatch sub r s1 Hmid Hsub) as (s' & Hd & _).
    { by rewrite Hsqe. }
    exists s'. split; [done|].
    rewrite (dispatch_conns _ _ _ _ Hd Hlive). unfold expected_conns.
    cbn [header res]. rewrite Hhdr. cbn [ycr_event].
    rewrite bool_decide_eq_false_2 by lia.
    rewrite is_active_marked; [done|].
    apply in_range_in_bounds; [done | unfold in_range; lia].
  - unfold dispatch. cbn [cqe user_data res c]. rewrite Hlive.
    cbn [header]. rewrite Hhdr. cbn [ycr_event].
    rewrite bool_decide_eq_false_2 by lia.
    destruct (in_bounds (conns s1) r) eqn:Hb; [|done].
    apply in_bounds_in_range in Hb. unfold in_range in Hb. lia.
Qed.

Lemma accepted_descriptor_bound_witness :
  let s := state_after [accepted 1 5] in
  (127 < NUM_CONNS →
   ∃ s', exec (iteration (accepted 1 127)) s = Ok s'
         ∧ is_active (conns s') 127 = true)
  ∧ (NUM_CONNS ≤ 127 →
     exec (iteration (accepted 1 127)) s = Fault (OutOfBounds 127)).
Proof.
  apply (accepted_descriptor_bound 3 [accepted 1 5] (state_after []) _
           (accept_sub 3 1%nat) 3 1%nat 127
           (mk_sockaddr_in 2130706433 40000)).
  - vm_compute. reflexivity.
  - vm_compute. reflexivity.
  - apply (bool_decide_unpack _). vm_compute. exact I.
  - reflexivity.
  - lia.
Defined.

(** ** No bound on the writes in flight *)

Lemma run_app (cs1 cs2 : list completion) (s : state) :
  run (cs1 ++ cs2) s
  = match run cs1 s with
    | Ok s1 => run cs2 s1
    | Fault f => Fault f
    end.
Proof.
  revert s. induction cs1 as [|c cs1 IH]; intros s; cbn; [done|].
  by destruct (exec (iteration c) s).
Qed.

(** One more chunk from descriptor 6 while nothing else completes: one
    more Write to descriptor 5 is pending afterwards. *)
Lemma one_more_write (s : state) :
  inv s →
  conns s = conns two_clients →
  read_sub 6 3%nat ∈ ring_pending s →
  ∃ s', exec (iteration (received 3 [x68])) s = Ok s'
    ∧ inv s'
    ∧ conns s' = conns two_clients
    ∧ read_sub 6 3%nat ∈ ring_pending s'
    ∧ length (filter (λ sub, is_write sub) (ring_pending s'))
      = S (length (filter (λ sub, is_write sub) (ring_pending s))).
Proof.
  intros Hinv Hconns Hin.
  destruct (iteration_progress (received 3 [x68]) s (read_sub 6 3%nat))
    as [s' Hit]; [done | done | done | | done |].
  { cbn. unfold IOBUF_SIZE. lia. }
  exists s'. split; [done|].
  split; [by eapply inv_iteration_Ok|].
  destruct (iteration_detail _ s s' Hinv Hit)
    as (sub & rest & s1 & o1 & Htake & Hdata & Hrest & Hmid & Hsub & Hres
        & Hsame & _ & _ & Ho1 & Hd).
  pose proof (take_pending_Some _ _ _ _ Htake) as [_ Hperm].
  assert (sub = read_sub 6 3%nat) as ->.
  { eapply (NoDup_fmap_eq sqe_data (ring_pending s));
      [apply Hinv | | done | done].
    rewrite Hperm. apply list_elem_of_here. }
  pose proof (sub_ok_header _ _ _ Hsub Ho1) as Hhdr. cbn in Hhdr, Ho1.
  destruct Hsame as (Hc1 & _).
  assert (fanout_targets (conns s1) 6 = [5]) as Htargets.
  { rewrite Hc1, Hconns. vm_compute. reflexivity. }
  split_and!.
  - rewrite (dispatch_conns _ _ _ _ Hd Ho1). unfold expected_conns.
    rewrite Hhdr. cbn [ycr_event ycr_fd].
    rewrite bool_decide_eq_false_2 by (cbn; lia). congruence.
  - rewrite (dispatch_pending _ _ _ _ Hd Ho1). unfold expected_submissions.
    rewrite Hhdr. cbn [ycr_event ycr_fd].
    rewrite bool_decide_eq_false_2 by (cbn; lia).
    rewrite !elem_of_app. right. right. apply list_elem_of_here.
  - rewrite (dispatch_pending _ _ _ _ Hd Ho1), Hrest.
    unfold expected_submissions. rewrite Hhdr. cbn [ycr_event ycr_fd].
    rewrite bool_decide_eq_false_2 by (cbn; lia).
    rewrite Htargets, Hperm, !filter_app, !length_app. cbn.
    rewrite decide_True by done. rewrite !decide_False by tauto. cbn.
    by rewrite Nat.add_1_r.
Qed.

Lemma many_writes (n : nat) (s : state) :
  inv s →
  conns s = conns two_clients →
  read_sub 6 3%nat ∈ ring_pending s →
  ∃ s', run (replicate n (received 3 [x68])) s = Ok s'
    ∧ length (filter (λ sub, is_write sub) (ring_pending s'))
      = (n + length (filter (λ sub, is_write sub) (ring_pending s)))%nat.
Proof.
  revert s. induction n as [|n IH]; intros s Hinv Hconns Hin; cbn.
  - by exists s.
  - destruct (one_more_write s Hinv Hconns Hin)
      as (s1 & -> & Hinv1 & Hconns1 & Hin1 & Hlen).
    destruct (IH s1 Hinv1 Hconns1 Hin1) as (s' & Hrun & Hlen').
    exists s'. split; [done|]. lia.
Qed.

(** X12. Nothing limits the Writes in flight.  For every [n] there is an
    execution after which at least [n] Writes are pending: two clients,
    one of which keeps sending while no Write to the other completes.  In
    particular the pending operations can outnumber [QUEUE_DEPTH]. *)
Theorem pending_writes_unbounded (n : nat) :
  ∃ cs s0 s,
    init 3 = Ok s0 ∧ run cs s0 = Ok s
    ∧ (n ≤ length (filter (λ sub, is_write sub) (ring_pending s)))%nat.
Proof.
  assert (init 3 = Ok (state_after [])) as Hinit by (vm_compute; reflexivity).
  assert (run [accepted 1 5; accepted 1 6] (state_after []) = Ok two_clients)
    as Hrun by (vm_compute; reflexivity).
  pose proof (reachable_inv _ _ _ _ Hinit Hrun) as Hinv.
  destruct (many_writes n two_clients Hinv eq_refl) as (s & Hrun' & Hlen).
  { apply (bool_decide_unpack _). vm_compute. exact I. }
  exists ([accepted 1 5; accepted 1 6] ++ replicate n (received 3 [x68])),
    (state_after []), s.
  split_and!; [done | by rewrite run_app, Hrun | lia].
Qed.

(** ** Records and log lines *)

(** X13. A record never changes kind or descriptor: a block that is
    allocated before and after an iteration holds a request with the same
    header. *)
Theorem record_header_is_immutable (listener : Z) (cs : list completion)
    (c : completion) (s0 s s' : state) (p : ptr) (o o' : object) :
  init listener = Ok s0 →
  run cs s0 = Ok s →
  exec (iteration c) s = Ok s' →
  heap s !! p = Some o →
  heap s' !! p = Some o' →
  header o' = header o.
Proof.
  intros Hinit Hrun Hit Hp Hp'.
  pose proof (reachable_inv _ _ _ _ Hinit Hrun) as Hinv.
  destruct (iteration_detail _ s s' Hinv Hit)
    as (sub & rest & s1 & o1 & Htake & Hdata & Hrest & Hmid & Hsub & Hres
        & Hsame & Hframe & _ & Ho1 & Hd).
  destruct (decide (p = user_data (cqe c))) as [->|Hne].
  - rewrite Hdata in Ho1.
    pose proof (dispatch_record _ _ _ _ (inv_heap_wf _ _ Hmid) Hd Ho1) as Hrec.
    rewrite Hp' in Hrec. destruct (rearms o1 (res (cqe c))); [|done].
    injection Hrec as ->.
    destruct Hsame as (_ & _ & _ & _ & Hh). specialize (Hh (user_data (cqe c))).
    rewrite Ho1, Hp in Hh. by injection Hh.
  - assert (heap s' !! p = Some o) as Hsame'.
    { apply (dispatch_frame (cqe c) s1); [apply Hmid | done | done |].
      rewrite Hframe; [done | congruence]. }
    congruence.
Qed.

Lemma record_header_is_immutable_witness :
  header (ObjIo (mk_io_req (mk_req YCR_KIND_READ 5) (mk_iovec 2%nat IOBUF_SIZE)
                   ((Some <$> [x68; x69]) ++ drop 2 fresh_iobuf)))
  = header (read_req 5 2%nat).
Proof.
  apply (record_header_is_immutable 3 [accepted 1 5] (received 2 [x68; x69])
           (state_after []) (state_after [accepted 1 5])
           (state_after [accepted 1 5; received 2 [x68; x69]]) 2%nat);
    vm_compute; reflexivity.
Defined.

Lemma kernel_stores_peer (sub : submission) (r : Z) (peer : sockaddr_in)
    (s s1 : state) :
  sub_ok (heap s) sub →
  kernel_stores sub r (stored_peer peer) s = Ok (tt, s1) →
  ∃ areq, heap s1 !! sqe_data sub = Some (ObjAccept areq)
          ∧ ycr_addr areq = Some peer ∧ 0 ≤ r
          ∧ console s1 = console s.
Proof.
  intros Hsub. unfold kernel_stores, check. unfold sub_ok in Hsub.
  destruct (sqe sub) as [fd addr|fd iovecs|fd iovecs|fd] eqn:Hsqe; try done.
  destruct Hsub as (-> & areq & Hlive & Hhdr).
  unfold load_accept, load, store, mbind, M_bind, mret, M_ret, fail.
  case_bool_decide; [|done]. rewrite Hlive. cbn. rewrite Hlive.
  intros [= <-]. cbn. rewrite lookup_insert_eq. by eexists.
Qed.

Lemma wait_cqe_unfold (c : completion) (s : state) :
  io_uring_wait_cqe c s
  = match take_pending (user_data (cqe c)) (ring_pending s) with
    | None => Fault (NotPending (user_data (cqe c)))
    | Some (sub, rest) =>
        match kernel_stores sub (res (cqe c)) (effect c) (completed rest s) with
        | Ok (_, s1) => Ok (cqe c, s1)
        | Fault f => Fault f
        end
    end.
Proof.
  unfold io_uring_wait_cqe, get_state, set_pending.
  unfold mbind at 1, M_bind at 1.
  destruct (take_pending _ _) as [[sub rest]|]; [|done].
  unfold mbind, M_bind, mret, M_ret.
  by destruct (kernel_stores _ _ _ _) as [[[] ?]|].
Qed.

Lemma precision_s_app (n : nat) (l1 l2 : list cell) :
  n = length l1 → precision_s n (l1 ++ l2) = precision_s n l1.
Proof.
  intros ->. induction l1 as [|x l1 IH]; cbn; [by destruct l2|].
  destruct (is_nul x); [done|]. by rewrite IH.
Qed.

(** X14. What the dispatcher prints on success.  A successful Accept
    prints the descriptor with the address of the peer that connected (the
    one the kernel stored for this completion, although the accept record
    is reused).  A Read that returned the bytes [bs] prints them up to the
    first NUL. *)
Theorem success_log_lines (listener : Z) (cs : list completion)
    (s0 s s' : state) (req : ptr) (r : Z) :
  init listener = Ok s0 →
  run cs s0 = Ok s →
  (∀ peer,
     exec (iteration (mk_completion (mk_cqe req r) (stored_peer peer))) s
     = Ok s' →
     console s' = console s ++ [stdout_connect r (Some peer)])
  ∧ (∀ bs o,
       exec (iteration (mk_completion (mk_cqe req r) (stored_bytes bs))) s
       = Ok s' →
       heap s !! req = Some o →
       console s'
       = console s ++ [stdout_read (ycr_fd (header o))
                         (precision_s (length bs) (Some <$> bs))]).
Proof.
  intros Hinit Hrun.
  pose proof (reachable_inv _ _ _ _ Hinit Hrun) as Hinv.
  split.
  - intros peer Hit.
    pose proof Hit as Hit'. unfold iteration, exec in Hit'.
    rewrite bind_unfold, wait_cqe_unfold in Hit'.
    cbn [cqe user_data effect res] in Hit'.
    destruct (take_pending req (ring_pending s)) as [[sub rest]|] eqn:Htake;
      [|done].
    pose proof (take_pending_Some _ _ _ _ Htake) as [Hdata Hperm].
    destruct (inv_completed s sub rest Hinv Hperm) as [Hmid0 Hsub0].
    destruct (kernel_stores sub r (stored_peer peer) (completed rest s))
      as [[[] s1]|f] eqn:Hk; [|done].
    destruct (kernel_stores_peer sub r peer (completed rest s) s1 Hsub0 Hk)
      as (areq & Hlive & Haddr & Hr & Hconsole).
    pose proof (kernel_stores_spec
                  (mk_completion (mk_cqe req r) (stored_peer peer)) sub
                  (completed rest s) Hmid0 Hsub0) as Hspec.
    cbn [cqe effect res] in Hspec. rewrite Hk in Hspec.
    destruct Hspec as (Hmid & Hsub & _ & _).
    assert (dispatch (mk_cqe req r) s1 = Ok s') as Hd.
    { rewrite <- handle_cqe_dispatch by apply Hmid.
      unfold exec. by destruct (handle_cqe _ s1) as [[[] ?]|]. }
    pose proof (sub_ok_header _ _ _ Hsub Hlive) as Hhdr.
    unfold sub_ok in Hsub.
    destruct (sqe sub) as [lfd addr| | |] eqn:Hsqe;
      [|by destruct Hsub as (-> & _ & ? & ? & _); simplify_eq..
       |by destruct Hsub as [_ ?]; simplify_eq].
    rewrite Hdata in Hlive.
    unfold dispatch in Hd. cbn [user_data res] in Hd. rewrite Hlive in Hd.
    rewrite Hhdr in Hd. cbn [ycr_event ycr_fd] in Hd.
    rewrite bool_decide_eq_false_2 in Hd by lia.
    destruct (in_bounds (conns s1) r); [|done].
    injection Hd as <-. cbn. by rewrite Hconsole, Haddr.
  - intros bs o Hit Ho.
    destruct (iteration_detail _ s s' Hinv Hit)
      as (sub & rest & s1 & o1 & Htake & Hdata & Hrest & Hmid & Hsub & Hres
          & Hsame & _ & Hbytes & Ho1 & Hd).
    cbn [cqe effect user_data res] in *.
    destruct (Hbytes bs eq_refl) as (b & Hb & Hbuf).
    rewrite Hb in Ho1. injection Ho1 as <-.
    unfold result_ok in Hres. unfold sub_ok in Hsub. cbn in Hres.
    destruct (sqe sub) as [|rfd iovecs| |] eqn:Hsqe; try done.
    destruct Hres as [Hr Hlen].
    destruct Hsub as (-> & Hrfd & rreq & Hlive & Hhdr & Hiov & Hsize).
    rewrite Hb in Hlive. injection Hlive as <-.
    rewrite Hdata in Hb.
    assert (ycr_event (ycr_req b) = YCR_KIND_READ) as Hk by (by rewrite Hhdr).
    destruct (dispatch_read_positive_inv _ _ _ _ Hd Hb Hk ltac:(cbn; lia))
      as [Hs' _].
    cbn [res user_data] in Hs'.
    destruct Hsame as (_ & _ & _ & Hconsole & Hh).
    specialize (Hh req). rewrite Hb, Ho in Hh. injection Hh as Hh.
    rewrite Hs'. cbn [console pushed]. rewrite fanout_console. cbn.
    rewrite Hconsole. do 3 f_equal; [by rewrite <- Hh|].
    replace (Z.to_nat r) with (length bs) by lia.
    rewrite <- (take_drop (length bs) (ycr_iobuf b)), Hbuf.
    apply precision_s_app. by rewrite length_fmap.
Qed.

Lemma success_log_lines_witness :
  console (state_after [accepted 1 5; received 2 [x68; x00; x69]])
  = console (state_after [accepted 1 5]) ++ [stdout_read 5 [Some x68]].
Proof.
  destruct (success_log_lines 3 [accepted 1 5] (state_after [])
              (state_after [accepted 1 5])
              (state_after [accepted 1 5; received 2 [x68; x00; x69]])
              2%nat 3) as [_ Hread].
  - vm_compute. reflexivity.
  - vm_compute. reflexivity.
  - apply (Hread [x68; x00; x69] (read_req 5 2%nat));
      vm_compute; reflexivity.
Defined.

(** * Properties of the readiness-loop variants *)

Section sys_lemmas.
Import Sys.
Context {L : Type}.
Implicit Types m : machine L.

Lemma sys_bind_unfold {A B} (c : M L A) (f : A → M L B) m :
  (c ≫= f) m = match c m with Done (a, m') => f a m' | Trap t => Trap t end.
Proof. reflexivity. Qed.

Lemma sys_bind_Done {A B} (c : M L A) (f : A → M L B) m b m' :
  (c ≫= f) m = Done (b, m')
  ↔ ∃ a m1, c m = Done (a, m1) ∧ f a m1 = Done (b, m').
Proof.
  rewrite sys_bind_unfold. destruct (c m) as [[a m1]|t]; split.
  - intros H. by exists a, m1.
  - by intros (? & ? & [= <- <-] & ?).
  - done.
  - by intros (? & ? & ? & ?).
Qed.

(** A loop establishes what its body maintains: [I done] is the
    invariant after the body ran for the indices [done]. *)
Lemma for_each_ind (I : list Z → machine L → Prop) (ds : list Z)
    (body : Z → M L unit) :
  (∀ done d rest m m',
     ds = done ++ d :: rest → I done m → body d m = Done (tt, m') →
     I (done ++ [d]) m') →
  ∀ m m', I [] m → for_each ds body m = Done (tt, m') → I ds m'.
Proof.
  intros Hbody.
  assert (∀ rest done m m',
            ds = done ++ rest → I done m →
            for_each rest body m = Done (tt, m') → I ds m') as Hgen.
  { induction rest as [|d rest IH]; intros done m m' Hds HI Hrun.
    - cbn in Hrun. injection Hrun as <-. by rewrite Hds, app_nil_r.
    - cbn [for_each] in Hrun. apply sys_bind_Done in Hrun
        as ([] & m1 & Hd & Hrest).
      apply (IH (done ++ [d]) m1 m'); [by rewrite <- app_assoc | | done].
      by apply (Hbody done d rest m m1). }
  intros m m'. by apply (Hgen ds []).
Qed.

(** The same without the indices. *)
Lemma for_each_inv (P : machine L → Prop) (ds : list Z)
    (body : Z → M L unit) :
  (∀ d m m', d ∈ ds → P m → body d m = Done (tt, m') → P m') →
  ∀ m m', P m → for_each ds body m = Done (tt, m') → P m'.
Proof.
  intros Hbody. apply (for_each_ind (λ _, P)).
  intros done d rest m m' -> HP Hd. apply (Hbody d m m'); [|done|done].
  rewrite elem_of_app, elem_of_cons. auto.
Qed.

(** A loop runs to its end when its body does, under an invariant. *)
Lemma for_each_Done (P : machine L → Prop) (ds : list Z)
    (body : Z → M L unit) :
  (∀ d m, d ∈ ds → P m → ∃ m', body d m = Done (tt, m') ∧ P m') →
  ∀ m, P m → ∃ m', for_each ds body m = Done (tt, m') ∧ P m'.
Proof.
  induction ds as [|d ds IH]; intros Hbody m HP.
  - by exists m.
  - destruct (Hbody d m) as (m1 & Hd & HP1); [left | done |].
    destruct IH with (m := m1) as (m' & Hrest & HP'); [|done|].
    { intros d' m2 Hin. apply Hbody. by right. }
    exists m'. split; [|done]. cbn [for_each].
    apply sys_bind_Done. by exists tt, m1.
Qed.

Lemma for_each_app (ds1 ds2 : list Z) (body : Z → M L unit) m :
  for_each (ds1 ++ ds2) body m
  = (for_each ds1 body;; for_each ds2 body) m.
Proof.
  revert m. induction ds1 as [|d ds1 IH]; intros m; cbn [for_each app].
  - done.
  - rewrite !sys_bind_unfold. destruct (body d m) as [[[] m1]|t]; [|done].
    rewrite IH. by rewrite sys_bind_unfold.
Qed.

End sys_lemmas.

(** Runs the binds of the hypothesis [H] as far as they are determined. *)
Ltac sys_run H :=
  repeat first
    [ rewrite sys_bind_unfold in H
    | progress cbn beta iota in H ].

(** ** [yc_epoll.c] *)

Section epoll.
Import Sys yc_epoll.
Context (k : kernel) (server_fd : Z).
Implicit Types m : machine locals.

Lemma targets_among_insert (table : list Z) (fd d v : Z) (ds : list Z) :
  0 ≤ d → Forall (λ x, 0 ≤ x) ds → d ∉ ds →
  targets_among (<[Z.to_nat d := v]> table) fd ds = targets_among table fd ds.
Proof.
  intros Hd. induction ds as [|x ds IH]; intros Hpos Hnotin; [done|].
  apply Forall_cons in Hpos as [Hx Hpos].
  apply not_elem_of_cons in Hnotin as [Hne Hnotin].
  rewrite !targets_among_cons, IH by done.
  rewrite is_active_insert_ne by lia. done.
Qed.

Lemma fanout_loop (fd : Z) (buf : list cell) (n : Z) (ds : list Z) m m' :
  length (conns (vars m)) = Z.to_nat NUM_CONNS →
  NoDup ds → Forall (λ d, 0 ≤ d < NUM_CONNS) ds →
  for_each ds (fanout_body k fd buf n) m = Done (tt, m') →
  let dests := targets_among (conns (vars m)) fd ds in
  trace m' = trace m ++ fanout_calls k buf n (length (trace m)) dests
  ∧ conns (vars m')
    = cleared (fanout_failures k (length (trace m)) dests) (conns (vars m))
  ∧ events (vars m') = events (vars m).
Proof.
  revert m. induction ds as [|d ds IH]; intros m Hlen Hnodup Hrange Hrun.
  - cbn in Hrun. injection Hrun as <-. cbn. by rewrite app_nil_r.
  - apply NoDup_cons in Hnodup as [Hnotin Hnodup].
    apply Forall_cons in Hrange as [Hd Hrange].
    cbn [for_each] in Hrun. apply sys_bind_Done in Hrun
      as ([] & m1 & Hbody & Hrest).
    cbn zeta. rewrite targets_among_cons.
    unfold fanout_body, conns_get, get, index in Hbody.
    rewrite sys_bind_unfold in Hbody. cbn beta iota in Hbody.
    rewrite sys_bind_unfold in Hbody. cbn beta iota in Hbody.
    assert ((0 <=? d) && (d <? NUM_CONNS) = true) as Hin.
    { apply andb_true_iff. split; [apply Z.leb_le | apply Z.ltb_lt]; lia. }
    assert (Z.to_nat d < length (conns (vars m)))%nat as Hlt.
    { rewrite Hlen. unfold NUM_CONNS in *. lia. }
    rewrite Hin in Hbody.
    destruct (lookup_lt_is_Some_2 (conns (vars m)) (Z.to_nat d) Hlt)
      as [c Hc].
    rewrite Hc in Hbody. cbn in Hbody.
    assert (is_active (conns (vars m)) d = bool_decide (c ≠ 0)) as ->.
    { unfold is_active. by rewrite Hc. }
    destruct (bool_decide (c ≠ 0) && bool_decide (d ≠ fd)).
    + unfold write, call, print, disconnect, epoll_ctl, close, call,
        conns_set, get, assign, put in Hbody.
      unfold mbind, M_bind, mret, M_ret in Hbody. cbn in Hbody.
      cbn [fanout_calls fanout_failures cleared foldl].
      destruct (bool_decide (on_write (sys k) (length (trace m)) < 0)).
      * rewrite Hin in Hbody.
        rewrite bool_decide_eq_true_2 in Hbody by done.
        cbn in Hbody. injection Hbody as Hm1.
        assert (length (conns (vars m1)) = Z.to_nat NUM_CONNS) as Hlen1.
        { rewrite <- Hm1. cbn [vars conns]. by rewrite length_insert. }
        destruct (IH _ Hlen1 Hnodup Hrange Hrest) as (Htr & Hconns & Hev).
        rewrite <- Hm1 in Htr, Hconns, Hev.
        cbn in Htr, Hconns, Hev.
        assert (targets_among (<[Z.to_nat d := 0]> (conns (vars m))) fd ds
                = targets_among (conns (vars m)) fd ds) as Hta.
        { apply targets_among_insert; [lia | | done].
          eapply Forall_impl; [done|]. intros x Hx. cbn in Hx. lia. }
        rewrite Hta in Htr, Hconns.
        rewrite !length_app in Htr, Hconns. cbn in Htr, Hconns.
        replace (length (trace m) + 1 + 1 + 1)%nat
          with (length (trace m) + 3)%nat in Htr, Hconns by lia.
        split; [|split]; [|done|done].
        rewrite Htr, <- !app_assoc. done.
      * injection Hbody as Hm1.
        assert (length (conns (vars m1)) = Z.to_nat NUM_CONNS) as Hlen1.
        { by rewrite <- Hm1. }
        destruct (IH _ Hlen1 Hnodup Hrange Hrest) as (Htr & Hconns & Hev).
        rewrite <- Hm1 in Htr, Hconns, Hev.
        cbn in Htr, Hconns, Hev.
        rewrite !length_app in Htr, Hconns. cbn in Htr, Hconns.
        split; [|split]; [|done|done].
        rewrite Htr, <- !app_assoc. done.
    + unfold mret, M_ret in Hbody. injection Hbody as <-.
      by apply IH.
Qed.

Lemma received_nonneg (count : Z) (bs : list byte) : 0 ≤ received count bs.
Proof. unfold received. lia. Qed.

Lemma NoDup_seqZ' (a n : Z) : NoDup (seqZ a n).
Proof. apply NoDup_seqZ. Qed.

Lemma seqZ_range (n : Z) : Forall (λ d, 0 ≤ d < n) (seqZ 0 n).
Proof. apply Forall_forall. intros d Hd. apply elem_of_seqZ in Hd. lia. Qed.

Lemma on_client_spec (fd : Z) m m' :
  sized m →
  on_client k fd m = Done (tt, m') →
  trace m' = trace m ++ client_calls k (conns (vars m)) fd (length (trace m))
  ∧ conns (vars m') = client_conns k (conns (vars m)) fd (length (trace m))
  ∧ events (vars m') = events (vars m).
Proof.
  intros [Hlen Hlen'] Hrun.
  unfold on_client, print, read, call in Hrun.
  unfold client_calls, client_conns.
  sys_run Hrun.
  cbn [trace] in Hrun.
  destruct (on_read (sys k) (length (trace m))) as [bs|].
  - unfold mret at 1, M_ret at 1 in Hrun. cbn beta iota in Hrun.
    rewrite bool_decide_eq_false_2 in Hrun
      by (pose proof (received_nonneg BUF_SIZE bs); lia).
    destruct (bool_decide (received BUF_SIZE bs > 0)).
    + sys_run Hrun.
      apply fanout_loop in Hrun;
        [|done | apply NoDup_seqZ' | apply seqZ_range].
      cbn [vars trace conns] in Hrun. destruct Hrun as (Htr & Hconns & Hev).
      rewrite length_app in Htr, Hconns. cbn [length] in Htr, Hconns.
      split; [|done]. by rewrite Htr, <- app_assoc.
    + unfold disconnect, epoll_ctl, close, call, conns_set, get, assign, put
        in Hrun.
      unfold mbind, M_bind, mret, M_ret in Hrun. cbn in Hrun.
      destruct ((0 <=? fd) && (fd <? NUM_CONNS)
                && bool_decide (Z.to_nat fd < length (conns (vars m)))%nat);
        [|done].
      injection Hrun as <-. cbn. by rewrite <- !app_assoc.
  - unfold mret at 1, M_ret at 1 in Hrun. cbn beta iota in Hrun.
    rewrite bool_decide_eq_true_2 in Hrun by lia.
    unfold disconnect, epoll_ctl, close, call, conns_set, get, assign, put
      in Hrun.
    unfold mbind, M_bind, mret, M_ret in Hrun. cbn in Hrun.
    destruct ((0 <=? fd) && (fd <? NUM_CONNS)
              && bool_decide (Z.to_nat fd < length (conns (vars m)))%nat);
      [|done].
    injection Hrun as <-. cbn. by rewrite <- !app_assoc.
Qed.

Lemma on_server_spec m m' :
  sized m →
  on_server k server_fd m = Done (tt, m') →
  trace m' = trace m ++ server_calls k server_fd (length (trace m))
  ∧ conns (vars m') = server_conns k (conns (vars m)) (length (trace m))
  ∧ length (events (vars m')) = length (events (vars m))
  ∧ ∀ j, (0 < j)%nat → events (vars m') !! j = events (vars m) !! j.
Proof.
  intros [Hlen Hlen'] Hrun.
  unfold on_server, accept, call in Hrun.
  unfold server_calls, server_conns.
  sys_run Hrun.
  unfold mret at 1, M_ret at 1 in Hrun. cbn beta iota in Hrun.
  destruct (on_accept (sys k) (length (trace m))) as [new_fd sin].
  cbn [fst].
  destruct (bool_decide (new_fd < 0)).
  { injection Hrun as <-. done. }
  unfold print, ioctl_FIONBIO, call in Hrun.
  sys_run Hrun.
  unfold mret at 1, M_ret at 1 in Hrun. cbn beta iota in Hrun.
  cbn [trace] in Hrun. rewrite length_app in Hrun. cbn [length] in Hrun.
  destruct (bool_decide (on_ioctl (sys k) (length (trace m) + 1) < 0)).
  { unfold close, call in Hrun.
    unfold mbind, M_bind, mret, M_ret in Hrun. cbn in Hrun.
    injection Hrun as <-. cbn. by rewrite <- !app_assoc. }
  unfold events_set, epoll_ctl, get, assign, put, call in Hrun.
  sys_run Hrun. cbn [vars events conns trace tty] in Hrun.
  assert ((0 <=? 0) && (0 <? NUM_EVENTS)
          && bool_decide (Z.to_nat 0 < length (events (vars m)))%nat = true)
    as Hin.
  { rewrite bool_decide_eq_true_2; [done|].
    rewrite Hlen'. unfold NUM_EVENTS. lia. }
  rewrite Hin in Hrun. unfold mret at 1, M_ret at 1 in Hrun.
  sys_run Hrun. cbn [vars events conns trace tty] in Hrun.
  unfold mret at 1, M_ret at 1 in Hrun. sys_run Hrun.
  rewrite !length_app in Hrun. cbn [length] in Hrun.
  replace (length (trace m) + 1 + 1)%nat with (length (trace m) + 2)%nat
    in Hrun by lia.
  change (Z.to_nat 0) with 0%nat in Hrun.
  assert (<[0%nat := Some (mk_epoll_event EPOLLIN new_fd)]>
            (events (vars m)) !!! 0%nat
          = Some (mk_epoll_event EPOLLIN new_fd)) as Hev0.
  { apply list_lookup_total_insert_eq. rewrite Hlen'. unfold NUM_EVENTS. lia. }
  rewrite Hev0 in Hrun.
  destruct (bool_decide (on_epoll_ctl k (length (trace m) + 2) < 0)).
  { unfold print, close, call in Hrun. sys_run Hrun.
    unfold mret, M_ret in Hrun. injection Hrun as <-.
    cbn [vars events conns trace tty].
    rewrite <- !app_assoc. rewrite length_insert.
    split; [done | split; [done | split; [done|]]].
    intros j Hj. by rewrite list_lookup_insert_ne by lia. }
  unfold conns_set, get, assign, put in Hrun. sys_run Hrun.
  cbn [vars events conns trace tty] in Hrun.
  destruct ((0 <=? new_fd) && (new_fd <? NUM_CONNS)
            && bool_decide (Z.to_nat new_fd < length (conns (vars m)))%nat);
    [|done].
  unfold mret at 1, M_ret at 1 in Hrun. sys_run Hrun.
  injection Hrun as <-. cbn [vars events conns trace tty].
  rewrite <- !app_assoc. rewrite length_insert.
  split; [done | split; [done | split; [done|]]].
  intros j Hj. by rewrite list_lookup_insert_ne by lia.
Qed.

End epoll.

Section epoll_batch.
Import Sys yc_epoll.
Context (k : kernel) (server_fd : Z).
Implicit Types m : machine locals.

Lemma length_cleared (ds : list Z) (table : list Z) :
  length (cleared ds table) = length table.
Proof.
  revert table. induction ds as [|d ds IH]; intros table; [done|].
  cbn. unfold cleared in IH. by rewrite IH, length_insert.
Qed.

Lemma length_event_conns (table : list Z) (fd : Z) (t : nat) :
  length (event_conns k server_fd table fd t) = length table.
Proof.
  unfold event_conns, server_conns, client_conns.
  repeat case_bool_decide; repeat case_match;
    rewrite ?length_insert, ?length_cleared; done.
Qed.

Lemma handle_event_spec (n : Z) (e : epoll_event) m m' :
  sized m →
  events (vars m) !! Z.to_nat n = Some (Some e) →
  0 ≤ n →
  handle_event k server_fd n m = Done (tt, m') →
  trace m'
  = trace m
    ++ event_calls k server_fd (conns (vars m)) (data_fd e) (length (trace m))
  ∧ conns (vars m')
    = event_conns k server_fd (conns (vars m)) (data_fd e) (length (trace m))
  ∧ sized m'
  ∧ ∀ j, (0 < j)%nat → events (vars m') !! j = events (vars m) !! j.
Proof.
  intros Hsized He Hn Hrun.
  assert (Z.to_nat n < length (events (vars m)))%nat as Hlt.
  { apply lookup_lt_is_Some. by eexists. }
  unfold handle_event, events_get, get, index, determinate in Hrun.
  sys_run Hrun.
  assert ((0 <=? n) && (n <? NUM_EVENTS) = true) as Hin.
  { destruct Hsized as [_ Hlen']. rewrite Hlen' in Hlt.
    apply andb_true_iff. split; [apply Z.leb_le | apply Z.ltb_lt]; lia. }
  rewrite Hin, He in Hrun. unfold mret at 1 2, M_ret at 1 2 in Hrun.
  sys_run Hrun.
  unfold event_calls, event_conns.
  destruct (bool_decide (data_fd e = server_fd)).
  - destruct (on_server_spec k server_fd m m' Hsized Hrun)
      as (Htr & Hconns & Hlen & Hev).
    split; [done | split; [done | split; [|done]]].
    destruct Hsized as [Hs1 Hs2]. split; [|congruence].
    rewrite Hconns. unfold server_conns.
    repeat case_bool_decide; rewrite ?length_insert; done.
  - destruct (on_client_spec k (data_fd e) m m' Hsized Hrun)
      as (Htr & Hconns & Hev).
    split; [done | split; [done | split]].
    + destruct Hsized as [Hs1 Hs2]. split; [|congruence].
      rewrite Hconns.
      pose proof (length_event_conns (conns (vars m)) (data_fd e)
                    (length (trace m))) as Hl.
      unfold event_conns in Hl. 
      destruct (decide (data_fd e = server_fd)) as [Heq|Hne].
      * unfold client_conns. repeat case_match;
          rewrite ?length_insert, ?length_cleared; done.
      * rewrite bool_decide_eq_false_2 in Hl by done. congruence.
    + intros j _. by rewrite Hev.
Qed.

Lemma batch_spec (evs : list epoll_event) (n0 : Z) m m' :
  sized m →
  0 ≤ n0 →
  (∀ i e, evs !! i = Some e →
          events (vars m) !! (Z.to_nat n0 + i)%nat = Some (Some e)) →
  for_each (seqZ n0 (Z.of_nat (length evs))) (handle_event k server_fd) m
  = Done (tt, m') →
  trace m'
  = trace m ++ batch_calls k server_fd (conns (vars m)) (length (trace m))
                 (data_fd <$> evs)
  ∧ conns (vars m')
    = batch_conns k server_fd (conns (vars m)) (length (trace m))
        (data_fd <$> evs)
  ∧ sized m'.
Proof.
  revert n0 m. induction evs as [|e evs IH]; intros n0 m Hsized Hn0 Hevs Hrun.
  - cbn in Hrun. injection Hrun as <-. cbn. by rewrite app_nil_r.
  - rewrite seqZ_cons in Hrun by (cbn [length]; lia).
    cbn [for_each] in Hrun.
    apply sys_bind_Done in Hrun as ([] & m1 & Hhead & Hrest).
    destruct (handle_event_spec n0 e m m1 Hsized) as (Htr & Hconns & Hs1 & Hev);
      [|done|done|].
    { specialize (Hevs 0%nat e eq_refl). by rewrite Nat.add_0_r in Hevs. }
    replace (Z.pred (Z.of_nat (length (e :: evs))))
      with (Z.of_nat (length evs)) in Hrest by (cbn [length]; lia).
    destruct (IH (Z.succ n0) m1 Hs1) as (Htr' & Hconns' & Hs'); [lia| |done|].
    { intros i e' Hi. rewrite Hev by lia.
      replace (Z.to_nat (Z.succ n0) + i)%nat with (Z.to_nat n0 + S i)%nat
        by lia.
      by apply Hevs. }
    cbn [fmap list_fmap batch_calls batch_conns].
    rewrite Htr', Hconns', Htr, Hconns, length_app, <- app_assoc.
    split; [reflexivity | split; [reflexivity | exact Hs']].
Qed.

Lemma iteration_spec m m' (b : bool) :
  sized m →
  iteration k server_fd m = Done (b, m') →
  match on_epoll_wait k (length (trace m)) with
  | None =>
      b = false ∧ trace m' = trace m ++ [sys_epoll_wait NUM_EVENTS]
      ∧ conns (vars m') = conns (vars m) ∧ sized m'
  | Some ready =>
      let fds := data_fd <$> take (Z.to_nat NUM_EVENTS) ready in
      b = true
      ∧ trace m'
        = trace m ++ sys_epoll_wait NUM_EVENTS
            :: batch_calls k server_fd (conns (vars m))
                 (S (length (trace m))) fds
      ∧ conns (vars m')
        = batch_conns k server_fd (conns (vars m)) (S (length (trace m))) fds
      ∧ sized m'
  end.
Proof.
  intros Hsized Hrun.
  unfold iteration, epoll_wait, call in Hrun. sys_run Hrun.
  cbn [trace vars tty] in Hrun.
  destruct (on_epoll_wait k (length (trace m))) as [ready|].
  - unfold get, put in Hrun. sys_run Hrun. cbn [trace vars tty] in Hrun.
    unfold mret at 1, M_ret at 1 in Hrun. sys_run Hrun.
    rewrite bool_decide_eq_true_2 in Hrun by lia.
    set (got := take (Z.to_nat NUM_EVENTS) ready) in *.
    assert (length got ≤ Z.to_nat NUM_EVENTS)%nat as Hgot.
    { unfold got. rewrite length_take. lia. }
    set (m1 := mk_machine _ _ _) in Hrun.
    assert (sized m1) as Hs1.
    { destruct Hsized as [Hs Hs']. split; [done|]. unfold m1. cbn [vars events].
      rewrite length_app, length_fmap, length_drop. lia. }
    cbn zeta.
    case_bool_decide as Hz.
    + unfold mret, M_ret in Hrun. sys_run Hrun. injection Hrun as <- <-.
      assert (got = []) as -> by (apply nil_length_inv; lia).
      cbn. done.
    + apply sys_bind_Done in Hrun as ([] & m2 & Hloop & Hret).
      unfold mret, M_ret in Hret. injection Hret as <- <-.
      apply batch_spec in Hloop as (Htr & Hconns & Hs2);
        [| exact Hs1 | lia |].
      * unfold m1 in Htr, Hconns. cbn [vars trace conns] in Htr, Hconns.
        rewrite length_app in Htr, Hconns. cbn [length] in Htr, Hconns.
        rewrite Nat.add_1_r in Htr, Hconns.
        rewrite Htr, Hconns, <- app_assoc. done.
      * intros i e Hi. unfold m1. cbn [vars events].
        change (Z.to_nat 0 + i)%nat with i.
        rewrite lookup_app_l
          by (rewrite length_fmap; by eapply lookup_lt_Some).
        by rewrite list_lookup_fmap, Hi.
  - unfold mret at 1, M_ret at 1 in Hrun. sys_run Hrun.
    rewrite bool_decide_eq_false_2 in Hrun by lia.
    unfold mret, M_ret in Hrun. injection Hrun as <- <-. done.
Qed.

End epoll_batch.

Section epoll_properties.
Import Sys yc_epoll.
Context (k : kernel) (server_fd : Z).
Implicit Types m : machine locals.

Lemma filter_input_fanout (buf : list cell) (n : Z) (t : nat)
    (dests : list Z) :
  filter is_input (fanout_calls k buf n t dests) = [].
Proof.
  revert t. induction dests as [|d dests IH]; intros t; [done|].
  cbn [fanout_calls]. case_bool_decide.
  - rewrite !filter_cons_False by (cbn; tauto). apply IH.
  - rewrite filter_cons_False by (cbn; tauto). apply IH.
Qed.

Lemma filter_input_event (table : list Z) (fd : Z) (t : nat) :
  filter is_input (event_calls k server_fd table fd t)
  = [input_call server_fd fd].
Proof.
  unfold event_calls, input_call. case_bool_decide.
  - unfold server_calls. rewrite filter_cons_True by done. f_equal.
    repeat case_bool_decide;
      rewrite ?filter_cons_False by (cbn; tauto); done.
  - unfold client_calls. rewrite filter_cons_True by done. f_equal.
    repeat case_match; rewrite ?filter_input_fanout;
      rewrite ?filter_cons_False by (cbn; tauto); done.
Qed.

Lemma filter_input_batch (table : list Z) (t : nat) (fds : list Z) :
  filter is_input (batch_calls k server_fd table t fds)
  = input_call server_fd <$> fds.
Proof.
  revert table t. induction fds as [|fd fds IH]; intros table t; [done|].
  cbn [batch_calls]. rewrite filter_app, filter_input_event, IH. done.
Qed.

(** X15. [yc_epoll.c]: every event of a batch returned by [epoll_wait] is
    answered by exactly one [accept] (event on the listening socket) or
    one [read] of 1024 bytes (any other descriptor), in the order of the
    batch and on the descriptor the event names.  [conns] is not
    consulted, so a descriptor that was closed earlier in the same batch
    is read all the same; and overwriting [events[0]] in the accept branch
    does not disturb the events still to be handled. *)
Theorem epoll_events_answered_in_order (ready : list epoll_event)
    (go_on : bool) m m' :
  sized m →
  on_epoll_wait k (length (trace m)) = Some ready →
  iteration k server_fd m = Done (go_on, m') →
  filter is_input (drop (length (trace m)) (trace m'))
  = input_call server_fd
      <$> (data_fd <$> take (Z.to_nat NUM_EVENTS) ready).
Proof.
  intros Hsized Hready Hrun.
  pose proof (iteration_spec k server_fd m m' go_on Hsized Hrun) as Hspec.
  rewrite Hready in Hspec. destruct Hspec as (_ & Htr & _).
  rewrite Htr, drop_app_length.
  rewrite filter_cons_False by (cbn; tauto).
  apply filter_input_batch.
Qed.

Lemma closes_ok_app (t : nat) (cs1 cs2 : list syscall) :
  closes_ok k t cs1 →
  closes_ok k (t + length cs1) cs2 →
  (∀ fd, head cs2 ≠ Some (sys_close fd)) →
  closes_ok k t (cs1 ++ cs2).
Proof.
  intros H1 H2 Hhead i fd Hi.
  destruct (decide (i < length cs1)%nat) as [Hlt|Hge].
  - rewrite lookup_app_l in Hi by done.
    destruct (H1 i fd Hi) as (j & -> & Hj). exists j. split; [done|].
    rewrite lookup_app_l by lia. done.
  - rewrite lookup_app_r in Hi by lia.
    destruct (H2 _ fd Hi) as (j & Hij & Hj).
    exists (length cs1 + j)%nat. split; [lia|].
    rewrite lookup_app_r by lia.
    replace (length cs1 + j - length cs1)%nat with j by lia.
    replace (t + (length cs1 + j))%nat with (t + length cs1 + j)%nat by lia.
    done.
Qed.

Lemma closes_ok_nil (t : nat) : closes_ok k t [].
Proof. intros i fd Hi. done. Qed.

Lemma closes_ok_fanout (buf : list cell) (n : Z) (t : nat) (dests : list Z) :
  closes_ok k t (fanout_calls k buf n t dests).
Proof.
  revert t. induction dests as [|d dests IH]; intros t; [apply closes_ok_nil|].
  cbn [fanout_calls]. case_bool_decide.
  - apply (closes_ok_app t [_; _; _]); [| apply IH |].
    + intros [|[|[|i]]] fd Hi; try done.
      injection Hi as <-. exists 1%nat. split; [done|]. by left.
    + intros fd. by destruct dests; cbn; [|case_bool_decide].
  - apply (closes_ok_app t [_]); [| apply IH |].
    + by intros [|i] fd Hi.
    + intros fd. by destruct dests; cbn; [|case_bool_decide].
Qed.

Lemma closes_ok_event (table : list Z) (fd : Z) (t : nat) :
  closes_ok k t (event_calls k server_fd table fd t).
Proof.
  unfold event_calls. case_bool_decide.
  - unfold server_calls. repeat case_bool_decide.
    + by intros [|i] fd' Hi.
    + intros [|[|[|i]]] fd' Hi; try done.
      injection Hi as <-. exists 1%nat. split; [done|]. right. left. done.
    + intros [|[|[|[|i]]]] fd' Hi; try done.
      injection Hi as <-. exists 2%nat. split; [done|]. right. right. done.
    + by intros [|[|[|i]]] fd' Hi.
  - unfold client_calls.
    assert (closes_ok k t [sys_read fd BUF_SIZE;
                           sys_epoll_ctl EPOLL_CTL_DEL fd None;
                           sys_close fd]) as Hdisc.
    { intros [|[|[|i]]] fd' Hi; try done.
      injection Hi as <-. exists 1%nat. split; [done|]. by left. }
    destruct (on_read (sys k) t) as [bs|]; [|done].
    case_bool_decide; [|done].
    apply (closes_ok_app t [_]); [| apply closes_ok_fanout |].
    + by intros [|i] fd' Hi.
    + intros fd'.
      by destruct (fanout_targets table fd); cbn; [|case_bool_decide].
Qed.

Lemma head_event_calls (table : list Z) (fd fd' : Z) (t : nat) :
  head (event_calls k server_fd table fd t) ≠ Some (sys_close fd').
Proof.
  unfold event_calls, server_calls, client_calls. by case_bool_decide.
Qed.

Lemma closes_ok_batch (table : list Z) (t : nat) (fds : list Z) :
  closes_ok k t (batch_calls k server_fd table t fds).
Proof.
  revert table t. induction fds as [|fd fds IH]; intros table t;
    [apply closes_ok_nil|].
  cbn [batch_calls]. apply closes_ok_app; [apply closes_ok_event | apply IH |].
  intros fd'. destruct fds as [|fd2 fds]; [done|]. cbn [batch_calls].
  destruct (event_calls k server_fd _ fd2 _) as [|c cs] eqn:Hcs.
  - unfold event_calls, server_calls, client_calls in Hcs.
    by case_bool_decide.
  - pose proof (head_event_calls
                  (event_conns k server_fd table fd t) fd2 fd'
                  (t + length (event_calls k server_fd table fd t))) as Hh.
    rewrite Hcs in Hh. done.
Qed.

Lemma iteration_closes_ok (go_on : bool) m m' :
  sized m →
  closes_ok k 0 (trace m) →
  iteration k server_fd m = Done (go_on, m') →
  sized m' ∧ closes_ok k 0 (trace m').
Proof.
  intros Hsized Hok Hrun.
  pose proof (iteration_spec k server_fd m m' go_on Hsized Hrun) as Hspec.
  destruct (on_epoll_wait k (length (trace m))) as [ready|].
  - destruct Hspec as (_ & Htr & _ & Hs). split; [done|]. rewrite Htr.
    apply closes_ok_app; [done | | done].
    apply (closes_ok_app _ [_]); [by intros [|i] fd Hi | |].
    + cbn [length]. rewrite Nat.add_0_l, Nat.add_1_r. apply closes_ok_batch.
    + intros fd. 
      destruct (data_fd <$> take (Z.to_nat NUM_EVENTS) ready) as [|fd2 fds];
        [done|].
      cbn [batch_calls].
      destruct (event_calls k server_fd _ fd2 _) as [|c cs] eqn:Hcs.
      * unfold event_calls, server_calls, client_calls in Hcs.
        by case_bool_decide.
      * pose proof (head_event_calls (conns (vars m)) fd2 fd
                      (S (length (trace m)))) as Hh.
        rewrite Hcs in Hh. done.
  - destruct Hspec as (_ & Htr & _ & Hs). split; [done|]. rewrite Htr.
    apply closes_ok_app; [done | by intros [|i] fd Hi | done].
Qed.

Lemma loop_invariant (P : machine locals → Prop) :
  (∀ m l, P m → P (mk_machine (vars m) (trace m) (tty m ++ [l]))) →
  (∀ m go_on m', P m → iteration k server_fd m = Done (go_on, m') → P m') →
  ∀ turns m st m', P m → loop k server_fd turns m = Done (st, m') → P m'.
Proof.
  intros Hprint Hstep. induction turns as [|turns IH]; intros m st m' HP Hrun.
  - cbn in Hrun. by injection Hrun as <- <-.
  - cbn [loop] in Hrun.
    apply sys_bind_Done in Hrun as (go_on & m1 & Hit & Hrest).
    pose proof (Hstep _ _ _ HP Hit) as HP1.
    destruct go_on.
    + by apply (IH m1 st m').
    + unfold print in Hrest. sys_run Hrest.
      unfold mret, M_ret in Hrest. injection Hrest as <- <-.
      by apply Hprint.
Qed.

Lemma main_unfold (turns : nat) :
  main k server_fd turns boot
  = if bool_decide (on_epoll_ctl k 0 ≠ 0) then
      Done (Exit 1,
            mk_machine (vars (started server_fd)) (trace (started server_fd))
              [perror_epoll_ctl])
    else loop k server_fd turns (started server_fd).
Proof.
  unfold main, events_set, get, assign, put, epoll_ctl, call, print.
  unfold mbind, M_bind, mret, M_ret. cbn.
  rewrite bool_decide_eq_true_2
    by (rewrite length_replicate; unfold NUM_EVENTS; lia).
  cbn. case_bool_decide; reflexivity.
Qed.

End epoll_properties.

Section epoll_main.
Import Sys yc_epoll.
Context (k : kernel) (server_fd : Z).
Implicit Types m : machine locals.

Lemma sized_started : sized (started server_fd).
Proof.
  split; cbn [started vars conns events boot].
  - by rewrite length_replicate.
  - by rewrite length_insert, length_replicate.
Qed.

Lemma main_invariant (P : machine locals → Prop) (turns : nat) (st : stop)
    m :
  (∀ m l, P m → P (mk_machine (vars m) (trace m) (tty m ++ [l]))) →
  (∀ m go_on m', P m → iteration k server_fd m = Done (go_on, m') → P m') →
  P (started server_fd) →
  main k server_fd turns boot = Done (st, m) →
  P m.
Proof.
  intros Hprint Hstep Hstart Hrun. rewrite main_unfold in Hrun.
  case_bool_decide.
  - injection Hrun as <- <-. by apply (Hprint (started server_fd)).
  - by apply (loop_invariant k server_fd P Hprint Hstep turns _ st m Hstart).
Qed.

(** X16. [yc_epoll.c]: in every execution of [main], each [close(fd)] comes
    immediately after [epoll_ctl(EPOLL_CTL_DEL, fd)], or, for a descriptor
    that was just accepted, immediately after the [ioctl] or the
    [epoll_ctl(EPOLL_CTL_ADD, fd)] that failed on it: a descriptor is
    never closed while it is in the epoll set. *)
Theorem epoll_close_follows_removal (turns : nat) (st : stop) m :
  main k server_fd turns boot = Done (st, m) →
  closes_ok k 0 (trace m).
Proof.
  intros Hrun.
  apply (main_invariant (λ m, sized m ∧ closes_ok k 0 (trace m))
           turns st m); [| | |done].
  - intros m0 l [Hs Hok]. done.
  - intros m0 go_on m' [Hs Hok] Hit.
    by apply (iteration_closes_ok k server_fd go_on m0 m').
  - split; [apply sized_started|]. by intros [|i] fd Hi.
Qed.

Lemma filter_write_fanout (buf : list cell) (n : Z) (t : nat)
    (dests : list Z) :
  filter is_write (fanout_calls k buf n t dests)
  = (λ d, sys_write d buf n) <$> dests.
Proof.
  revert t. induction dests as [|d dests IH]; intros t; [done|].
  cbn [fanout_calls]. case_bool_decide.
  - rewrite filter_cons_True by done.
    rewrite !filter_cons_False by (cbn; tauto). by rewrite IH.
  - rewrite filter_cons_True by done. by rewrite IH.
Qed.

Lemma take_filled (count : Z) (bs : list byte) :
  take (Z.to_nat (received count bs)) (filled count bs)
  = Some <$> take (Z.to_nat count) bs.
Proof.
  unfold received, filled. rewrite Nat2Z.id.
  rewrite take_app_length'; [done|]. by rewrite length_fmap.
Qed.

(** X17. [yc_epoll.c]: when [read] on [fd] returns data, [write] is called
    exactly once for every descriptor other than [fd] that is marked in
    [conns] at that moment, in ascending order, each time with the buffer
    and the count of the [read]; the bytes handed over are the bytes
    received. *)
Theorem epoll_relays_to_other_connections (fd : Z) (bs : list byte) m m' :
  sized m →
  on_read (sys k) (length (trace m)) = Some bs →
  bs ≠ [] →
  on_client k fd m = Done (tt, m') →
  let buf := filled BUF_SIZE bs in
  let nread := received BUF_SIZE bs in
  filter is_write (drop (length (trace m)) (trace m'))
  = (λ d, sys_write d buf nread) <$> fanout_targets (conns (vars m)) fd
  ∧ take (Z.to_nat nread) buf = Some <$> take (Z.to_nat BUF_SIZE) bs.
Proof.
  intros Hsized Hread Hbs Hrun. cbn zeta.
  destruct (on_client_spec k fd m m' Hsized Hrun) as (Htr & _ & _).
  split; [|apply take_filled].
  rewrite Htr, drop_app_length. unfold client_calls. rewrite Hread.
  rewrite bool_decide_eq_true_2.
  - rewrite filter_cons_False by (cbn; tauto). apply filter_write_fanout.
  - unfold received, BUF_SIZE. destruct bs as [|b bs]; [done|].
    rewrite length_take. cbn [length]. lia.
Qed.

Lemma is_active_cleared_stays (F : list Z) (table : list Z) (d : Z) :
  is_active table d = false → is_active (cleared F table) d = false.
Proof.
  revert table. induction F as [|x F IH]; intros table Hd; [done|].
  cbn. apply IH.
  destruct (decide (Z.to_nat d = Z.to_nat x)) as [Heq|Hne].
  - unfold is_active. rewrite Heq.
    destruct (decide (Z.to_nat x < length table)%nat).
    + by rewrite list_lookup_insert_eq.
    + rewrite list_insert_ge by lia. by rewrite lookup_ge_None_2 by lia.
  - by rewrite is_active_insert_ne.
Qed.

Lemma is_active_cleared_in (F : list Z) (table : list Z) (d : Z) :
  d ∈ F → is_active (cleared F table) d = false.
Proof.
  revert table. induction F as [|x F IH]; intros table Hd.
  - by apply elem_of_nil in Hd.
  - apply elem_of_cons in Hd as [->|Hd]; [|by apply IH].
    cbn. apply is_active_cleared_stays, is_active_cleared.
Qed.

Lemma is_active_cleared_notin (F : list Z) (table : list Z) (d : Z) :
  0 ≤ d → Forall (λ x, 0 ≤ x) F → d ∉ F →
  is_active (cleared F table) d = is_active table d.
Proof.
  intros Hd. revert table. induction F as [|x F IH]; intros table HF Hnotin;
    [done|].
  apply Forall_cons in HF as [Hx HF].
  apply not_elem_of_cons in Hnotin as [Hne Hnotin].
  cbn. fold (cleared F (<[Z.to_nat x := 0]> table)).
  rewrite IH by done. apply is_active_insert_ne. lia.
Qed.

Lemma fanout_failures_subseteq (t : nat) (dests : list Z) (d : Z) :
  d ∈ fanout_failures k t dests → d ∈ dests.
Proof.
  revert t. induction dests as [|x dests IH]; intros t; [done|].
  cbn [fanout_failures]. case_bool_decide.
  - rewrite !elem_of_cons. intros [->|Hd]; [by left | right; by eapply IH].
  - rewrite elem_of_cons. intros Hd. right. by eapply IH.
Qed.

(** Where the writes of a fan-out stand, and what follows a failed one. *)
Lemma fanout_positions (buf : list cell) (n : Z) (t : nat) (dests : list Z)
    (j : nat) (d : Z) (buf' : list cell) (n' : Z) :
  NoDup dests →
  fanout_calls k buf n t dests !! j = Some (sys_write d buf' n') →
  d ∈ dests
  ∧ if bool_decide (on_write (sys k) (t + j) < 0) then
      fanout_calls k buf n t dests !! (j + 1)%nat
      = Some (sys_epoll_ctl EPOLL_CTL_DEL d None)
      ∧ fanout_calls k buf n t dests !! (j + 2)%nat = Some (sys_close d)
      ∧ d ∈ fanout_failures k t dests
    else d ∉ fanout_failures k t dests.
Proof.
  revert t j. induction dests as [|x dests IH]; intros t j Hnodup Hj; [done|].
  apply NoDup_cons in Hnodup as [Hx Hnodup].
  cbn [fanout_calls fanout_failures] in *.
  destruct (bool_decide (on_write (sys k) t < 0)) eqn:Hw.
  - destruct j as [|[|[|j]]]; try done.
    + injection Hj as <- <- <-. rewrite Nat.add_0_r, Hw.
      split; [by left|]. split; [done|]. split; [done|]. by left.
    + cbn [lookup list_lookup] in Hj.
      destruct (IH (t + 3)%nat j Hnodup Hj) as [Hd Hrest].
      split; [by right|].
      replace (t + S (S (S j)))%nat with (t + 3 + j)%nat by lia.
      destruct (bool_decide (on_write (sys k) (t + 3 + j) < 0)).
      * destruct Hrest as (H1 & H2 & H3).
        split; [done|]. split; [done|]. by right.
      * rewrite not_elem_of_cons. split; [|done]. by intros ->.
  - destruct j as [|j].
    + injection Hj as <- <- <-. rewrite Nat.add_0_r, Hw.
      split; [by left|]. intros Hin. by apply fanout_failures_subseteq in Hin.
    + cbn [lookup list_lookup] in Hj.
      destruct (IH (t + 1)%nat j Hnodup Hj) as [Hd Hrest].
      split; [by right|].
      replace (t + S j)%nat with (t + 1 + j)%nat by lia.
      done.
Qed.

Lemma NoDup_targets_among (table : list Z) (fd : Z) (ds : list Z) :
  NoDup ds → NoDup (targets_among table fd ds).
Proof. apply NoDup_filter. Qed.

(** X18. [yc_epoll.c]: for every [write] of the fan-out: if it fails, the
    next two calls remove its descriptor from the epoll set and close it,
    and the descriptor is unmarked in [conns]; if it does not fail, the
    descriptor is still marked when the fan-out ends. *)
Theorem epoll_failed_write_disconnects (fd : Z) m m' (t : nat) (d : Z)
    (buf : list cell) (n : Z) :
  sized m →
  on_client k fd m = Done (tt, m') →
  (length (trace m) ≤ t)%nat →
  trace m' !! t = Some (sys_write d buf n) →
  if bool_decide (on_write (sys k) t < 0) then
    trace m' !! (t + 1)%nat = Some (sys_epoll_ctl EPOLL_CTL_DEL d None)
    ∧ trace m' !! (t + 2)%nat = Some (sys_close d)
    ∧ is_active (conns (vars m')) d = false
  else is_active (conns (vars m')) d = true.
Proof.
  intros Hsized Hrun Ht Hw.
  destruct (on_client_spec k fd m m' Hsized Hrun) as (Htr & Hconns & _).
  rewrite Htr in Hw |- *. rewrite Hconns.
  rewrite lookup_app_r in Hw by done.
  rewrite !lookup_app_r by lia.
  unfold client_calls, client_conns in *.
  apply Nat.le_exists_sub in Ht as (j & -> & _).
  rewrite (Nat.add_comm j) in *.
  replace (length (trace m) + j - length (trace m))%nat with j in * by lia.
  replace (length (trace m) + j + 1 - length (trace m))%nat
    with (j + 1)%nat by lia.
  replace (length (trace m) + j + 2 - length (trace m))%nat
    with (j + 2)%nat by lia.
  destruct j as [|j]; [done|]. cbn [lookup list_lookup] in Hw.
  destruct (on_read (sys k) (length (trace m))) as [bs|];
    [|by destruct j as [|[|j]]].
  destruct (bool_decide (received BUF_SIZE bs > 0));
    [|by destruct j as [|[|j]]].
  apply fanout_positions in Hw as [Hd Hrest];
    [|apply NoDup_targets_among, NoDup_seqZ'].
  replace (length (trace m) + 1 + j)%nat with (length (trace m) + S j)%nat
    in Hrest by lia.
  apply list_elem_of_filter in Hd as [[Hact Hne] Hd].
  apply elem_of_seqZ in Hd.
  destruct (bool_decide (on_write (sys k) (length (trace m) + S j) < 0)).
  - destruct Hrest as (H1 & H2 & H3).
    split; [done|]. split; [done|]. by apply is_active_cleared_in.
  - rewrite is_active_cleared_notin; [by apply Is_true_true | lia | | done].
    apply Forall_forall. intros x Hx.
    apply fanout_failures_subseteq, list_elem_of_filter in Hx as [_ Hx].
    apply elem_of_seqZ in Hx. lia.
Qed.

End epoll_main.

Section epoll_safety.
Import Sys yc_epoll.
Context (k : kernel) (server_fd : Z).
Implicit Types m : machine locals.

Lemma conns_set_Done (fd v : Z) m :
  sized m → 0 ≤ fd < NUM_CONNS →
  conns_set fd v m
  = Done (tt, mk_machine (mk_locals (<[Z.to_nat fd := v]> (conns (vars m)))
                            (events (vars m)))
                (trace m) (tty m)).
Proof.
  intros [Hlen _] Hfd. unfold conns_set, get, assign, put.
  unfold mbind, M_bind, mret, M_ret. cbn beta iota.
  assert ((0 <=? fd) && (fd <? NUM_CONNS)
          && bool_decide (Z.to_nat fd < length (conns (vars m)))%nat = true)
    as ->; [|done].
  rewrite bool_decide_eq_true_2 by (rewrite Hlen; unfold NUM_CONNS in *; lia).
  rewrite andb_true_r. apply andb_true_iff.
  split; [apply Z.leb_le | apply Z.ltb_lt]; lia.
Qed.

Lemma sized_update (a : list Z) (tr : list syscall) (out : list line) m :
  sized m → length a = length (conns (vars m)) →
  sized (mk_machine (mk_locals a (events (vars m))) tr out).
Proof. intros [H1 H2] Ha. split; cbn; congruence. Qed.

Lemma disconnect_Done (fd : Z) m :
  sized m → 0 ≤ fd < NUM_CONNS →
  ∃ m', disconnect k fd m = Done (tt, m').
Proof.
  intros Hsized Hfd. unfold disconnect, epoll_ctl, close, call.
  unfold mbind, M_bind, mret, M_ret.
  cbn beta iota. rewrite conns_set_Done; [by eexists | exact Hsized | done].
Qed.

Lemma fanout_body_Done (fd : Z) (buf : list cell) (n d : Z) m :
  sized m → 0 ≤ d < NUM_CONNS →
  ∃ m', fanout_body k fd buf n d m = Done (tt, m') ∧ sized m'.
Proof.
  intros Hsized Hd. pose proof Hsized as [Hlen _].
  unfold fanout_body, conns_get, get, index.
  unfold mbind, M_bind. cbn beta iota.
  assert ((0 <=? d) && (d <? NUM_CONNS) = true) as ->.
  { apply andb_true_iff. split; [apply Z.leb_le | apply Z.ltb_lt]; lia. }
  destruct (lookup_lt_is_Some_2 (conns (vars m)) (Z.to_nat d)) as [c Hc].
  { rewrite Hlen. unfold NUM_CONNS in *. lia. }
  rewrite Hc. unfold mret, M_ret. cbn beta iota.
  destruct (bool_decide (c ≠ 0) && bool_decide (d ≠ fd)); [|by exists m].
  unfold write, call. unfold mbind, M_bind, mret, M_ret.
  cbn beta iota. case_bool_decide.
  - unfold print, disconnect, epoll_ctl, close, call.
    unfold mbind, M_bind, mret, M_ret.
    cbn beta iota. rewrite conns_set_Done; [|exact Hsized|done].
    eexists. split; [done|]. apply (sized_update _ _ _ m); [done|].
    cbn. by rewrite length_insert.
  - eexists. split; [done|]. exact Hsized.
Qed.

Lemma on_client_Done (fd : Z) m :
  sized m → 0 ≤ fd < NUM_CONNS →
  ∃ m', on_client k fd m = Done (tt, m').
Proof.
  intros Hsized Hfd. unfold on_client, print, read, call.
  unfold mbind, M_bind. cbn beta iota.
  set (m1 := mk_machine _ _ _).
  assert (sized m1) as Hs1 by exact Hsized.
  destruct (on_read (sys k) (length (trace m1))) as [bs|];
    unfold mret, M_ret; cbn beta iota.
  - rewrite bool_decide_eq_false_2
      by (pose proof (received_nonneg BUF_SIZE bs); lia).
    case_bool_decide.
    + edestruct (for_each_Done sized (seqZ 0 NUM_CONNS)
                   (fanout_body k fd (filled BUF_SIZE bs)
                      (received BUF_SIZE bs))) as (m' & Hm' & _);
        [| |by exists m'].
      * intros d m2 Hin Hs2. apply elem_of_seqZ in Hin.
        apply fanout_body_Done; [done | lia].
      * exact Hsized.
    + apply disconnect_Done; [exact Hsized|done].
  - rewrite bool_decide_eq_true_2 by lia.
    apply disconnect_Done; [exact Hsized|done].
Qed.

Lemma events_set_Done (e : epoll_event) m :
  sized m →
  events_set 0 e m
  = Done (tt, mk_machine (mk_locals (conns (vars m))
                            (<[0%nat := Some e]> (events (vars m))))
                (trace m) (tty m)).
Proof.
  intros [_ Hlen]. unfold events_set, get, assign, put.
  unfold mbind, M_bind, mret, M_ret. cbn beta iota.
  rewrite bool_decide_eq_true_2 by (rewrite Hlen; unfold NUM_EVENTS; lia).
  done.
Qed.

Lemma on_server_outcome m :
  sized m →
  let new_fd := (on_accept (sys k) (length (trace m))).1 in
  (∃ m', on_server k server_fd m = Done (tt, m'))
  ∨ (NUM_CONNS ≤ new_fd
     ∧ 0 ≤ on_ioctl (sys k) (length (trace m) + 1)
     ∧ 0 ≤ on_epoll_ctl k (length (trace m) + 2)
     ∧ on_server k server_fd m = Trap (OutOfRange new_fd)).
Proof.
  intros Hsized. cbn zeta.
  unfold on_server, accept, print, ioctl_FIONBIO, close, epoll_ctl, call, get.
  unfold mbind, M_bind, mret, M_ret. cbn beta iota.
  destruct (on_accept (sys k) (length (trace m))) as [new_fd sin].
  cbn [fst vars trace tty]. case_bool_decide as Hneg.
  { left. by eexists. }
  cbn beta iota. cbn [vars trace tty]. rewrite length_app. cbn [length].
  case_bool_decide as Hioctl.
  { left. by eexists. }
  cbn beta iota. rewrite events_set_Done by exact Hsized.
  cbn beta iota. cbn [trace vars events tty].
  rewrite !length_app. cbn [length].
  replace (length (trace m) + 1 + 1)%nat with (length (trace m) + 2)%nat
    by lia.
  case_bool_decide as Hctl.
  { left. by eexists. }
  destruct (decide (new_fd < NUM_CONNS)) as [Hlt|Hge].
  - left. rewrite conns_set_Done; [by eexists | | lia].
    destruct Hsized as [H1 H2]. split; [done|]. cbn.
    by rewrite length_insert.
  - right. split; [lia|]. split; [lia|]. split; [lia|].
    unfold conns_set, get, assign. unfold mbind, M_bind. cbn beta iota.
    assert ((0 <=? new_fd) && (new_fd <? NUM_CONNS) = false) as ->; [|done].
    apply andb_false_iff. right. apply Z.ltb_ge. lia.
Qed.

(** The descriptors the world hands out fit the table. *)
Hypothesis Haccept : ∀ t, (on_accept (sys k) t).1 < NUM_CONNS.
Hypothesis Hevents : ∀ t ready e,
  on_epoll_wait k t = Some ready → e ∈ ready →
  data_fd e = server_fd ∨ 0 ≤ data_fd e < NUM_CONNS.

Lemma handle_event_Done (n : Z) (e : epoll_event) m :
  sized m →
  events (vars m) !! Z.to_nat n = Some (Some e) →
  0 ≤ n →
  data_fd e = server_fd ∨ 0 ≤ data_fd e < NUM_CONNS →
  ∃ m', handle_event k server_fd n m = Done (tt, m').
Proof.
  intros Hsized He Hn Hfd.
  assert (Z.to_nat n < length (events (vars m)))%nat as Hlt.
  { apply lookup_lt_is_Some. by eexists. }
  unfold handle_event, events_get, get, index, determinate.
  unfold mbind, M_bind. cbn beta iota.
  assert ((0 <=? n) && (n <? NUM_EVENTS) = true) as ->.
  { destruct Hsized as [_ Hlen']. rewrite Hlen' in Hlt.
    apply andb_true_iff. split; [apply Z.leb_le | apply Z.ltb_lt]; lia. }
  rewrite He. unfold mret, M_ret. cbn beta iota.
  case_bool_decide as Hserver.
  - destruct (on_server_outcome m Hsized) as [Hdone|(Hge & _)]; [done|].
    specialize (Haccept (length (trace m))). lia.
  - apply on_client_Done; [done|]. by destruct Hfd.
Qed.

Lemma batch_Done (evs : list epoll_event) (n0 : Z) m :
  sized m →
  0 ≤ n0 →
  (∀ i e, evs !! i = Some e →
          events (vars m) !! (Z.to_nat n0 + i)%nat = Some (Some e)) →
  Forall (λ e, data_fd e = server_fd ∨ 0 ≤ data_fd e < NUM_CONNS) evs →
  ∃ m', for_each (seqZ n0 (Z.of_nat (length evs)))
          (handle_event k server_fd) m = Done (tt, m').
Proof.
  revert n0 m. induction evs as [|e evs IH]; intros n0 m Hsized Hn0 Hevs Hok.
  - by exists m.
  - apply Forall_cons in Hok as [He Hok].
    rewrite seqZ_cons by (cbn [length]; lia). cbn [for_each].
    assert (events (vars m) !! Z.to_nat n0 = Some (Some e)) as Hhead.
    { specialize (Hevs 0%nat e eq_refl). by rewrite Nat.add_0_r in Hevs. }
    destruct (handle_event_Done n0 e m Hsized Hhead Hn0 He) as [m1 Hm1].
    destruct (handle_event_spec k server_fd n0 e m m1 Hsized Hhead Hn0 Hm1)
      as (_ & _ & Hs1 & Hev).
    replace (Z.pred (Z.of_nat (length (e :: evs))))
      with (Z.of_nat (length evs)) by (cbn [length]; lia).
    destruct (IH (Z.succ n0) m1 Hs1) as [m' Hm']; [lia | | done |].
    { intros i e' Hi. rewrite Hev by lia.
      replace (Z.to_nat (Z.succ n0) + i)%nat with (Z.to_nat n0 + S i)%nat
        by lia.
      by apply Hevs. }
    exists m'. apply sys_bind_Done. by exists tt, m1.
Qed.

Lemma iteration_Done m :
  sized m → ∃ go_on m', iteration k server_fd m = Done (go_on, m') ∧ sized m'.
Proof.
  intros Hsized.
  assert (∃ go_on m', iteration k server_fd m = Done (go_on, m'))
    as (go_on & m' & Hrun).
  { unfold iteration, epoll_wait, call, get, put.
    unfold mbind, M_bind, mret, M_ret. cbn beta iota. cbn [trace vars tty].
    destruct (on_epoll_wait k (length (trace m))) as [ready|] eqn:Hready;
      cbn beta iota; [|by eexists _, _].
    rewrite bool_decide_eq_true_2 by lia.
    case_bool_decide as Hz; [by eexists _, _|].
    set (got := take (Z.to_nat NUM_EVENTS) ready) in *.
    edestruct (batch_Done got 0) as [m' Hm']; [| | | |rewrite Hm'].
    5: by eexists _, _.
    - destruct Hsized as [Hs Hs']. split; [exact Hs|]. cbn [vars events].
      rewrite length_app, length_fmap, length_drop.
      assert (length got ≤ Z.to_nat NUM_EVENTS)%nat
        by (unfold got; rewrite length_take; lia).
      lia.
    - done.
    - intros i e Hi. cbn [vars events]. change (Z.to_nat 0 + i)%nat with i.
      rewrite lookup_app_l
        by (rewrite length_fmap; by eapply lookup_lt_Some).
      by rewrite list_lookup_fmap, Hi.
    - apply Forall_forall. intros e He. apply (Hevents _ _ e Hready).
      unfold got in He. apply elem_of_take in He as (i & Hi & _).
      by eapply list_elem_of_lookup_2. }
  exists go_on, m'. split; [done|].
  pose proof (iteration_spec k server_fd m m' go_on Hsized Hrun) as Hspec.
  destruct (on_epoll_wait k (length (trace m))); by destruct Hspec as (_&_&_&?).
Qed.

Lemma loop_Done (turns : nat) m :
  sized m → ∃ st m', loop k server_fd turns m = Done (st, m').
Proof.
  revert m. induction turns as [|turns IH]; intros m Hsized.
  - by exists Running, m.
  - destruct (iteration_Done m Hsized) as (go_on & m1 & Hit & Hs1).
    cbn [loop]. rewrite sys_bind_unfold, Hit. destruct go_on.
    + by apply IH.
    + by eexists _, _.
Qed.

(** X19. [yc_epoll.c]: when every descriptor returned by [accept] is below
    [NUM_CONNS], and every event names the listening socket or a
    descriptor inside the table, [main] runs any number of turns of the
    loop without indexing [conns] or [events] outside their bounds and
    without reading an indeterminate event. *)
Theorem epoll_runs_without_trap (turns : nat) :
  ∃ st m, main k server_fd turns boot = Done (st, m).
Proof.
  rewrite main_unfold. case_bool_decide; [by eexists _, _|].
  apply loop_Done, sized_started.
Qed.

End epoll_safety.

Section epoll_bound.
Import Sys yc_epoll.
Context (k : kernel) (server_fd : Z).
Implicit Types m : machine locals.

(** X20. [yc_epoll.c]: a connection whose descriptor is [NUM_CONNS] or
    more, accepted and registered without error, makes the assignment
    [conns[new_fd] = 1] index outside the table. *)
Theorem epoll_accept_beyond_table m :
  sized m →
  let t := length (trace m) in
  let new_fd := (on_accept (sys k) t).1 in
  NUM_CONNS ≤ new_fd →
  0 ≤ on_ioctl (sys k) (t + 1) →
  0 ≤ on_epoll_ctl k (t + 2) →
  on_server k server_fd m = Trap (OutOfRange new_fd).
Proof.
  intros Hsized t new_fd. subst t new_fd.
  destruct (on_server_outcome k server_fd m Hsized) as [[m' Hrun]|Htrap].
  - intros Hge Hioctl Hctl. exfalso.
    destruct (on_server_spec k server_fd m m' Hsized Hrun)
      as (_ & Hconns & _).
    unfold on_server, accept, print, ioctl_FIONBIO, close, epoll_ctl, call,
      get in Hrun.
    unfold mbind, M_bind, mret, M_ret in Hrun. cbn beta iota in Hrun.
    destruct (on_accept (sys k) (length (trace m))) as [new_fd sin].
    cbn [fst vars trace tty] in *.
    rewrite bool_decide_eq_false_2 in Hrun by (unfold NUM_CONNS in *; lia).
    cbn beta iota in Hrun. cbn [vars trace tty] in Hrun.
    rewrite length_app in Hrun. cbn [length] in Hrun.
    rewrite bool_decide_eq_false_2 in Hrun by lia.
    cbn beta iota in Hrun. rewrite events_set_Done in Hrun by exact Hsized.
    cbn beta iota in Hrun. cbn [trace vars events tty] in Hrun.
    rewrite !length_app in Hrun. cbn [length] in Hrun.
    replace (length (trace m) + 1 + 1)%nat with (length (trace m) + 2)%nat
      in Hrun by lia.
    rewrite bool_decide_eq_false_2 in Hrun by lia.
    unfold conns_set, get, assign in Hrun.
    unfold mbind, M_bind in Hrun. cbn beta iota in Hrun.
    assert ((0 <=? new_fd) && (new_fd <? NUM_CONNS) = false) as Hout.
    { apply andb_false_iff. right. apply Z.ltb_ge. lia. }
    rewrite Hout in Hrun. done.
  - intros _ _ _. by destruct Htrap as (_ & _ & _ & ?).
Qed.

End epoll_bound.

Section epoll_witnesses.
Import Sys yc_epoll.

Lemma epoll_events_answered_in_order_witness :
  filter is_input
    (drop (length (trace (sample_after 2))) (trace (sample_after 3)))
  = input_call 3
      <$> (data_fd <$> take (Z.to_nat NUM_EVENTS)
                         [sample_event 5; sample_event 6]).
Proof.
  apply (epoll_events_answered_in_order sample 3
           [sample_event 5; sample_event 6] true).
  - split; reflexivity.
  - reflexivity.
  - vm_compute. reflexivity.
Defined.

Lemma epoll_close_follows_removal_witness :
  closes_ok sample 0 (trace (sample_after 4)).
Proof.
  apply (epoll_close_follows_removal sample 3 4 (Exit 1)).
  vm_compute. reflexivity.
Defined.

Lemma epoll_relays_to_other_connections_witness :
  filter is_write
    (drop (length (trace (sample_woken 2))) (trace sample_served))
  = [sys_write 6 (filled BUF_SIZE [x68; x69]) 2]
  ∧ take 2 (filled BUF_SIZE [x68; x69]) = [Some x68; Some x69].
Proof.
  apply (epoll_relays_to_other_connections sample 5 [x68; x69]
           (sample_woken 2) sample_served).
  - split; reflexivity.
  - reflexivity.
  - discriminate.
  - vm_compute. reflexivity.
Defined.

Lemma epoll_failed_write_disconnects_witness :
  trace sample_served !! 12%nat = Some (sys_epoll_ctl EPOLL_CTL_DEL 6 None)
  ∧ trace sample_served !! 13%nat = Some (sys_close 6)
  ∧ is_active (conns (vars sample_served)) 6 = false.
Proof.
  apply (epoll_failed_write_disconnects sample 5 (sample_woken 2)
           sample_served 11 6 (filled BUF_SIZE [x68; x69]) 2).
  - split; reflexivity.
  - vm_compute. reflexivity.
  - vm_compute. lia.
  - vm_compute. reflexivity.
Defined.

Lemma epoll_runs_without_trap_witness :
  ∃ st m, main sample 3 4 boot = Done (st, m).
Proof.
  apply (epoll_runs_without_trap sample 3).
  - intros t. do 7 (destruct t as [|t]; [vm_compute; reflexivity|]).
    vm_compute. reflexivity.
  - intros t ready e Hready He.
    do 10 (destruct t as [|t];
           [vm_compute in Hready; try discriminate; injection Hready as <-;
            repeat (apply elem_of_cons in He as [->|He]);
            first [by apply elem_of_nil in He
                  | cbn; unfold NUM_CONNS; lia]|]).
    vm_compute in Hready. discriminate.
Defined.

Lemma epoll_accept_beyond_table_witness :
  on_server (sample_with 128) 3
    (mk_machine (vars (started 3))
       (trace (started 3) ++ [sys_epoll_wait NUM_EVENTS]) [])
  = Trap (OutOfRange 128).
Proof.
  apply (epoll_accept_beyond_table (sample_with 128) 3).
  - split; reflexivity.
  - vm_compute. discriminate.
  - vm_compute. discriminate.
  - vm_compute. discriminate.
Defined.

End epoll_witnesses.
